(** * karl: manifest variant extraction and fingerprinting

    A shallow embedding of the extraction and fingerprinting core of
    [karl] (packages [model] and [service]) and the properties of its
    specification that concern it: the DASH and HLS variant extractors,
    the multi-period merge, the fingerprinter with its HEAD retry loop,
    and [Manager.Extract].

    Conventions.
    - Go's fixed-width integers are [Z] with the conversions written out
      ([uint32], [int64]).
    - Go maps are [gmap]s, a set of keys is a [gset]; slices are lists; a
      slice written by index is updated with stdpp's list insert.
    - A function returning [(T, error)] returns [Err T]; a nil pointer
      dereference is the error [EPanic].
    - What comes from outside the program is an explicit input, the
      [World]: HTTP responses and files (already parsed by the manifest
      libraries), the random source, the order in which goroutines
      complete and in which a map is iterated, and what fields hold that
      goroutines update at the same time without a lock.  [net/url] is a
      class.
    - Loops are recursive functions named after what they range over; the
      retry loop, which is not structural, is defined with Equations.

    The file has two parts: the definitions, in the order of the source
    files, then the properties. *)

From Stdlib Require Import ZArith String Ascii DecimalString.
From Stdlib Require DecimalPos.
From stdpp Require Import gmap strings list fin_maps.
From Equations Require Import Equations.

Local Open Scope string_scope.
Local Open Scope list_scope.
Local Open Scope Z_scope.

(** ** Fixed-width integers *)

Definition MaxUint32 : Z := 4294967295.
Definition MaxInt64 : Z := 9223372036854775807.
Definition MinInt64 : Z := - 9223372036854775808.

(** The conversion [uint32(x)]. *)
Definition uint32 (x : Z) : Z := x mod 2 ^ 32.

(** The conversion [int64(x)] and the result of 64-bit signed arithmetic
    (Go's [int], [int64] and [time.Duration] on the 64-bit targets). *)
Definition int64 (x : Z) : Z := (x + 2 ^ 63) mod 2 ^ 64 - 2 ^ 63.

Definition is_uint32 (x : Z) : Prop := 0 <= x <= MaxUint32.
Definition is_int64 (x : Z) : Prop := MinInt64 <= x <= MaxInt64.

(** ** Errors *)

Inductive error : Type :=
| EMsg (msg : string)            (* errors.New / fmt.Errorf without %w *)
| EWrap (msg : string) (e : error) (* fmt.Errorf("msg: %w", e) *)
| ECanceled                      (* ctx.Err() of a cancelled context *)
| EPanic.                        (* nil pointer dereference *)

Inductive Err (A : Type) : Type :=
| Ok (a : A)
| Fail (e : error).
Arguments Ok {A} a.
Arguments Fail {A} e.

Definition bindE {A B} (m : Err A) (k : A -> Err B) : Err B :=
  match m with
  | Ok a => k a
  | Fail e => Fail e
  end.

Definition wrapE {A} (msg : string) (m : Err A) : Err A :=
  match m with
  | Ok a => Ok a
  | Fail e => Fail (EWrap msg e)
  end.

Definition is_Ok {A} (m : Err A) : Prop := exists a, m = Ok a.
Definition is_Fail {A} (m : Err A) : Prop := exists e, m = Fail e.

Notation "x <-! m ;; k" := (bindE m (fun x => k))
  (at level 100, m at next level, right associativity).

(** Dereference of a pointer that may be nil. *)
Definition deref {A} (p : option A) : Err A :=
  match p with
  | Some a => Ok a
  | None => Fail EPanic
  end.

(** ** Strings: the parts of [strings], [strconv] and [path/filepath] used *)

Fixpoint str_drop (n : nat) (s : string) : string :=
  match n, s with
  | O, _ => s
  | S n', String _ s' => str_drop n' s'
  | S _, EmptyString => EmptyString
  end.

(** [strings.HasPrefix]. *)
Fixpoint strings_HasPrefix (s p : string) : bool :=
  match p, s with
  | EmptyString, _ => true
  | String c p', String d s' => if Ascii.eqb c d then strings_HasPrefix s' p' else false
  | String _ _, EmptyString => false
  end.

(** [strings.Contains]. *)
Fixpoint strings_Contains (s sub : string) : bool :=
  if strings_HasPrefix s sub then true
  else match s with
       | EmptyString => false
       | String _ s' => strings_Contains s' sub
       end.

(** [strings.Replace(s, old, new, 1)]: the first occurrence only. *)
Fixpoint strings_Replace1 (s old new : string) : string :=
  if strings_HasPrefix s old then (new ++ str_drop (String.length old) s)%string
  else match s with
       | EmptyString => EmptyString
       | String c s' => String c (strings_Replace1 s' old new)
       end.

(** [strings.Cut]. *)
Fixpoint strings_Cut (s sep : string) : string * string * bool :=
  if strings_HasPrefix s sep then (EmptyString, str_drop (String.length sep) s, true)
  else match s with
       | EmptyString => (EmptyString, EmptyString, false)
       | String c s' =>
           let '(before, after, found) := strings_Cut s' sep in
           (String c before, after, found)
       end.

(** [strconv.Itoa] and [strconv.FormatUint(_, 10)], also [%d]. *)
Definition strconv_Itoa (z : Z) : string := NilZero.string_of_int (Z.to_int z).
Definition strconv_FormatUint (z : Z) : string := strconv_Itoa z.

Definition digit_of_ascii (c : ascii) : option Z :=
  let n := Z.of_N (N_of_ascii c) in
  if (48 <=? n) && (n <=? 57) then Some (n - 48) else None.

Fixpoint parse_digits (acc : Z) (s : string) : option Z :=
  match s with
  | EmptyString => Some acc
  | String c s' =>
      match digit_of_ascii c with
      | Some d => parse_digits (10 * acc + d) s'
      | None => None
      end
  end.

(** [strconv.ParseUint(s, 10, 32)]. *)
Definition strconv_ParseUint32 (s : string) : Err Z :=
  match s with
  | EmptyString => Fail (EMsg "invalid syntax")
  | _ =>
      match parse_digits 0 s with
      | None => Fail (EMsg "invalid syntax")
      | Some n => if n >? MaxUint32 then Fail (EMsg "value out of range") else Ok n
      end
  end.

(** [filepath.Ext]: the suffix from the last dot of the last path element. *)
Fixpoint filepath_Ext (path : string) : string :=
  match path with
  | EmptyString => EmptyString
  | String c rest =>
      if strings_Contains rest "/" then filepath_Ext rest
      else if strings_Contains rest "." then filepath_Ext rest
      else if Ascii.eqb c "." then path
      else EmptyString
  end.

(** ** MD5 and the variant identifier *)

Definition bytes_of_string (s : string) : list Z :=
  map (fun c => Z.of_N (N_of_ascii c)) (list_ascii_of_string s).

Definition add32 (a b : Z) : Z := (a + b) mod 2 ^ 32.
Definition rotl32 (x : Z) (c : Z) : Z :=
  Z.lor (Z.shiftl x c mod 2 ^ 32) (Z.shiftr x (32 - c)).
Definition not32 (x : Z) : Z := Z.lxor x MaxUint32.

Definition md5_shift : list Z :=
  [7; 12; 17; 22; 7; 12; 17; 22; 7; 12; 17; 22; 7; 12; 17; 22;
   5; 9; 14; 20; 5; 9; 14; 20; 5; 9; 14; 20; 5; 9; 14; 20;
   4; 11; 16; 23; 4; 11; 16; 23; 4; 11; 16; 23; 4; 11; 16; 23;
   6; 10; 15; 21; 6; 10; 15; 21; 6; 10; 15; 21; 6; 10; 15; 21].

Definition md5_K : list Z :=
  [0xd76aa478; 0xe8c7b756; 0x242070db; 0xc1bdceee;
   0xf57c0faf; 0x4787c62a; 0xa8304613; 0xfd469501;
   0x698098d8; 0x8b44f7af; 0xffff5bb1; 0x895cd7be;
   0x6b901122; 0xfd987193; 0xa679438e; 0x49b40821;
   0xf61e2562; 0xc040b340; 0x265e5a51; 0xe9b6c7aa;
   0xd62f105d; 0x02441453; 0xd8a1e681; 0xe7d3fbc8;
   0x21e1cde6; 0xc33707d6; 0xf4d50d87; 0x455a14ed;
   0xa9e3e905; 0xfcefa3f8; 0x676f02d9; 0x8d2a4c8a;
   0xfffa3942; 0x8771f681; 0x6d9d6122; 0xfde5380c;
   0xa4beea44; 0x4bdecfa9; 0xf6bb4b60; 0xbebfbc70;
   0x289b7ec6; 0xeaa127fa; 0xd4ef3085; 0x04881d05;
   0xd9d4d039; 0xe6db99e5; 0x1fa27cf8; 0xc4ac5665;
   0xf4292244; 0x432aff97; 0xab9423a7; 0xfc93a039;
   0x655b59c3; 0x8f0ccc92; 0xffeff47d; 0x85845dd1;
   0x6fa87e4f; 0xfe2ce6e0; 0xa3014314; 0x4e0811a1;
   0xf7537e82; 0xbd3af235; 0x2ad7d2bb; 0xeb86d391].

(** Padding: a 1 bit, zeros up to 56 mod 64, the bit length on 64 bits,
    little endian. *)
Definition le_bytes (n : nat) (x : Z) : list Z :=
  map (fun i => Z.land (Z.shiftr x (8 * Z.of_nat i)) 255) (seq 0 n).

Definition md5_pad (msg : list Z) : list Z :=
  let len := Z.of_nat (length msg) in
  let zeros := Z.to_nat ((55 - len) mod 64) in
  msg ++ [128] ++ repeat 0 zeros ++ le_bytes 8 ((8 * len) mod 2 ^ 64).

Definition le_word (bs : list Z) : Z :=
  fold_right (fun b acc => b + 256 * acc) 0 bs.

Fixpoint words_of_bytes (n : nat) (bs : list Z) : list Z :=
  match n with
  | O => []
  | S n' => le_word (take 4 bs) :: words_of_bytes n' (drop 4 bs)
  end.

Record md5_state := MkMd5 { md5_a : Z; md5_b : Z; md5_c : Z; md5_d : Z }.

Definition md5_round (M : list Z) (st : md5_state) (i : nat) : md5_state :=
  let '(MkMd5 a b c d) := st in
  let zi := Z.of_nat i in
  let '(f, g) :=
    if (i <? 16)%nat then
      (Z.lor (Z.land b c) (Z.land (not32 b) d), zi)
    else if (i <? 32)%nat then
      (Z.lor (Z.land d b) (Z.land (not32 d) c), (5 * zi + 1) mod 16)
    else if (i <? 48)%nat then
      (Z.lxor (Z.lxor b c) d, (3 * zi + 5) mod 16)
    else
      (Z.lxor c (Z.lor b (not32 d)), (7 * zi) mod 16) in
  let f' := add32 (add32 (add32 f a) (nth i md5_K 0)) (nth (Z.to_nat g) M 0) in
  MkMd5 d (add32 b (rotl32 f' (nth i md5_shift 0))) b c.

Definition md5_block (st : md5_state) (block : list Z) : md5_state :=
  let M := words_of_bytes 16 block in
  let st' := fold_left (md5_round M) (seq 0 64) st in
  MkMd5 (add32 (md5_a st) (md5_a st')) (add32 (md5_b st) (md5_b st'))
        (add32 (md5_c st) (md5_c st')) (add32 (md5_d st) (md5_d st')).

Fixpoint md5_blocks (n : nat) (st : md5_state) (bs : list Z) : md5_state :=
  match n with
  | O => st
  | S n' => md5_blocks n' (md5_block st (take 64 bs)) (drop 64 bs)
  end.

(** [md5.Sum]: the 16 digest bytes. *)
Definition md5_Sum (msg : list Z) : list Z :=
  let padded := md5_pad msg in
  let st := md5_blocks (length padded / 64)
              (MkMd5 0x67452301 0xefcdab89 0x98badcfe 0x10325476) padded in
  le_bytes 4 (md5_a st) ++ le_bytes 4 (md5_b st) ++
  le_bytes 4 (md5_c st) ++ le_bytes 4 (md5_d st).

Definition hex_digit (n : Z) : ascii :=
  ascii_of_N (Z.to_N (if n <? 10 then 48 + n else 87 + n)).

(** [hex.EncodeToString]. *)
Definition hex_EncodeToString (bs : list Z) : string :=
  string_of_list_ascii
    (flat_map (fun b => [hex_digit (b / 16); hex_digit (b mod 16)]) bs).

(** [computeID]: MD5 of ["%s-%s-%d-%d-%d"], in hex. *)
Definition computeID (mimeType codecs : string) (width height bandwidth : Z) : string :=
  hex_EncodeToString
    (md5_Sum (bytes_of_string
      (mimeType ++ "-" ++ codecs ++ "-" ++ strconv_Itoa width ++ "-" ++
       strconv_Itoa height ++ "-" ++ strconv_Itoa bandwidth)%string)).

(** [strings.ToLower] on the ASCII letters (the only use compares the
    result with ["ad"]). *)
Definition ascii_ToLower (c : ascii) : ascii :=
  let n := N_of_ascii c in
  if (65 <=? n)%N && (n <=? 90)%N then ascii_of_N (n + 32) else c.

Fixpoint strings_ToLower (s : string) : string :=
  match s with
  | EmptyString => EmptyString
  | String c s' => String (ascii_ToLower c) (strings_ToLower s')
  end.

(** ** Package [model] *)

Record IndexedAddressingInfo := MkIndexed {
  ix_URL : string;
  ix_IndexRange : string }.

Record ExplicitAddressingInfo := MkExplicit {
  ex_TemplateURL : string;
  ex_URLs : list string;
  ex_Servers : list string;
  ex_SegmentDurations : list Z;
  ex_Timescale : Z }.

Record Fingerprint := MkFingerprint {
  fp_SegmentSizes : list Z;
  fp_SegmentDurations : list Z;
  fp_Timescale : Z }.

(** [model.Variant]; the three pointer fields are options. *)
Record Variant := MkVariant {
  v_ID : string;
  v_MimeType : string;
  v_Codecs : string;
  v_Width : Z;
  v_Height : Z;
  v_Bandwidth : Z;
  v_AddressingMode : string;
  v_IndexedAddressingInfo : option IndexedAddressingInfo;
  v_ExplicitAddressingInfo : option ExplicitAddressingInfo;
  v_Fingerprint : option Fingerprint }.

Record Reference := MkReference {
  ref_ID : string;
  ref_Format : string;
  ref_URL : string;
  ref_Servers : list string }.

Record Video := MkVideo {
  vid_ID : string;
  vid_Title : string;
  vid_PlaybackURL : string;
  vid_Duration : Z;
  vid_Variants : list Variant }.

Record VideoResult := MkVideoResult {
  vr_Video : Video;
  vr_References : list Reference;
  vr_Err : option error }.

Definition set_ID (v : Variant) (id : string) : Variant :=
  MkVariant id (v_MimeType v) (v_Codecs v) (v_Width v) (v_Height v) (v_Bandwidth v)
    (v_AddressingMode v) (v_IndexedAddressingInfo v) (v_ExplicitAddressingInfo v)
    (v_Fingerprint v).

Definition set_Bandwidth (v : Variant) (bw : Z) : Variant :=
  MkVariant (v_ID v) (v_MimeType v) (v_Codecs v) (v_Width v) (v_Height v) bw
    (v_AddressingMode v) (v_IndexedAddressingInfo v) (v_ExplicitAddressingInfo v)
    (v_Fingerprint v).

Definition set_MimeType (v : Variant) (m : string) : Variant :=
  MkVariant (v_ID v) m (v_Codecs v) (v_Width v) (v_Height v) (v_Bandwidth v)
    (v_AddressingMode v) (v_IndexedAddressingInfo v) (v_ExplicitAddressingInfo v)
    (v_Fingerprint v).

Definition set_AddressingMode (v : Variant) (m : string) : Variant :=
  MkVariant (v_ID v) (v_MimeType v) (v_Codecs v) (v_Width v) (v_Height v) (v_Bandwidth v)
    m (v_IndexedAddressingInfo v) (v_ExplicitAddressingInfo v) (v_Fingerprint v).

Definition set_ExplicitAddressingInfo (v : Variant) (i : option ExplicitAddressingInfo) : Variant :=
  MkVariant (v_ID v) (v_MimeType v) (v_Codecs v) (v_Width v) (v_Height v) (v_Bandwidth v)
    (v_AddressingMode v) (v_IndexedAddressingInfo v) i (v_Fingerprint v).

Definition set_Fingerprint (v : Variant) (fp : option Fingerprint) : Variant :=
  MkVariant (v_ID v) (v_MimeType v) (v_Codecs v) (v_Width v) (v_Height v) (v_Bandwidth v)
    (v_AddressingMode v) (v_IndexedAddressingInfo v) (v_ExplicitAddressingInfo v) fp.

Definition set_Variants (vid : Video) (vs : list Variant) : Video :=
  MkVideo (vid_ID vid) (vid_Title vid) (vid_PlaybackURL vid) (vid_Duration vid) vs.

(** ** The manifest types of the parsing libraries, as the extractor reads them *)

(** [mpd.S]: [t] is a [*uint64], [d] a [uint64], [r] an [int]. *)
Record S_t := MkS {
  S_T : option Z;
  S_D : Z;
  S_R : Z }.

(** [mpd.SegmentTemplateType]; [st_SegmentTimeline] is the list
    [SegmentTimeline.S] of pointers when [SegmentTimeline] is not nil. *)
Record SegmentTemplateType := MkSegmentTemplate {
  st_Media : string;
  st_Timescale : option Z;
  st_StartNumber : option Z;
  st_SegmentTimeline : option (list (option S_t)) }.

(** Modelled from the spec: the library method [GetTimescale], which is
    not part of the repository; the timescale attribute, 1 when absent. *)
Definition st_GetTimescale (st : SegmentTemplateType) : Z :=
  match st_Timescale st with
  | Some t => t
  | None => 1
  end.

Record RepresentationType := MkRepresentation {
  rep_GetMimeType : string;   (* result of r.GetMimeType() *)
  rep_GetCodecs : string;     (* result of r.GetCodecs() *)
  rep_Width : Z;
  rep_Height : Z;
  rep_Bandwidth : Z;
  rep_BaseURLs : list (option string);
  rep_SegmentBase : option string;   (* SegmentBase.IndexRange *)
  rep_SegmentTemplate : option SegmentTemplateType;
  rep_SegmentList : bool }.          (* SegmentList != nil *)

Record AdaptationSetType := MkAdaptationSet {
  as_ContentType : string;
  as_BaseURLs : list (option string);
  as_Representations : list RepresentationType }.

Record Period := MkPeriod {
  p_GetDuration : Err Z;      (* result of p.GetDuration(), nanoseconds *)
  p_SupplementalProperties : list (option string);  (* the Value of each *)
  p_BaseURLs : list (option string);
  p_AdaptationSets : list AdaptationSetType }.

Record MPD := MkMPD {
  mpd_isStatic : bool;        (* m.GetType() == mpd.STATIC_TYPE *)
  mpd_BaseURL : list (option string);
  mpd_Periods : list Period }.

(** [playlist.MediaSegment], [playlist.MultivariantVariant] and the two
    kinds of [playlist.Playlist]. *)
Record MediaSegment := MkMediaSegment {
  seg_Duration : Z;           (* time.Duration, nanoseconds *)
  seg_URI : string;
  seg_ByteRangeLength : option Z }.

Record MultivariantVariant := MkMultivariantVariant {
  mv_Bandwidth : Z;
  mv_Codecs : list string;
  mv_Resolution : string;
  mv_URI : string }.

Inductive Playlist :=
| Multivariant (variants : list MultivariantVariant)
| Media (segments : list MediaSegment).

(** ** What lies outside the program *)

(** [net/url]. *)
Class UrlLib := {
  URL : Type;
  url_Parse : string -> Err URL;
  url_ResolveReference : URL -> URL -> URL;   (* base.ResolveReference(ref) *)
  url_String : URL -> string;
  (** [url.ParseRequestURI] succeeds with scheme http or https. *)
  url_isHTTP : string -> bool }.

(** The SIDX box of [go-mp4]. *)
Record SidxReference := MkSidxReference {
  ReferencedSize : Z;
  SubsegmentDuration : Z }.

Record Sidx := MkSidx {
  sidx_Timescale : Z;
  sidx_References : list SidxReference }.

(** The outcome of one HEAD attempt, as the retry loop observes it:
    whether the enclosing context is done after the attempt, and what
    [fetchContentLength] returned. *)
Record HeadOutcome := MkHeadOutcome {
  head_ctxDone : bool;
  head_result : Err Z }.

(** Network, files, randomness and scheduling.  Every call to the outside
    has a position of its own (a path of indices through the loops that
    lead to it) and the world answers per position, so that two calls
    with the same arguments need not agree.
    - [w_rand]: the draw behind [rand.Intn], taken modulo [n];
    - [w_order]: the choices that fix the completion order of a group of
      goroutines, or the iteration order of a map (see [schedule]);
    - [w_raced]: what two fields hold after several goroutines have
      updated them at the same time without a lock (see [failure_fields]),
      given the errors in the order of completion;
    - [w_boxes]: [mp4.ExtractBoxWithPayload] for the path [sidx], each
      box with its payload when that is a [*mp4.Sidx]. *)
Record World := MkWorld {
  w_rand : list nat -> Z;
  w_order : list nat -> list nat;
  w_ctxDone : list nat -> bool;
  w_raced : list error -> Z * list error;
  w_fetchMPD : list nat -> string -> Err MPD;
  w_readMPD : list nat -> string -> Err MPD;
  w_fetchM3U8 : list nat -> string -> Err Playlist;
  w_readM3U8 : list nat -> string -> Err Playlist;
  w_fetchIndex : list nat -> string -> string -> Err (list Z);
  w_readRange : list nat -> string -> string -> Err (list Z);
  w_boxes : list Z -> Err (list (option Sidx));
  w_head : list nat -> string -> HeadOutcome }.

Definition rand_Intn (w : World) (pos : list nat) (n : Z) : Z := w_rand w pos mod n.

(** [servers[rand.Intn(len(servers))]] substituted for [$Server$] when
    there are servers. *)
Definition substServer (w : World) (pos : list nat) (u : string) (servers : list string) : string :=
  match servers with
  | [] => u
  | _ => strings_Replace1 u "$Server$"
           (nth (Z.to_nat (rand_Intn w pos (Z.of_nat (length servers)))) servers "")
  end.

(** An order in which the elements of [l] are taken: at each step the
    next choice, modulo the number of elements left, selects one of them;
    when the choices run out the rest follows in list order.  Every list
    of choices gives a permutation of [l], and every permutation is given
    by some list of choices. *)
Fixpoint schedule {A} (choices : list nat) (l : list A) : list A :=
  match choices with
  | [] => l
  | c :: choices' =>
      match l !! (c mod length l)%nat with
      | Some x => x :: schedule choices' (delete (c mod length l)%nat l)
      | None => []
      end
  end.

(** The elements of a slice with their indices, as [for i, x := range]. *)
Definition indexed {A} (l : list A) : list (nat * A) := imap (fun i x => (i, x)) l.

(** [errgroup]: what [g.Wait()] returns once the tasks have completed in
    the order of the list, the first error if there is one. *)
Fixpoint first_error {A} (results : list (Err A)) : option error :=
  match results with
  | [] => None
  | Fail e :: _ => Some e
  | Ok _ :: results' => first_error results'
  end.

Fixpoint successes {A} (results : list (Err A)) : list A :=
  match results with
  | [] => []
  | Ok a :: results' => a :: successes results'
  | Fail _ :: results' => successes results'
  end.

(** ** variantextractor.go *)

Section VariantExtractor.
Context `{UrlLib}.
Variable w : World.

Definition resolveReference (baseURL u : string) : string :=
  match url_Parse u with
  | Fail _ => baseURL
  | Ok ref =>
      match url_Parse baseURL with
      | Fail _ => baseURL
      | Ok base => url_String (url_ResolveReference base ref)
      end
  end.

Definition resolveBaseURLTypes (baseURL : string) (uTypes : list (option string)) : string :=
  match uTypes with
  | Some v :: _ => resolveReference baseURL v
  | _ => baseURL
  end.

(** *** DASH explicit addressing *)

(** The part of [info] the timeline loop appends to, and [num]. *)
Record timeline_state := MkTimeline {
  tl_URLs : list string;
  tl_SegmentDurations : list Z;
  tl_num : Z }.

(** [for range count { append; append; num++ }]. *)
Fixpoint emit_numbered (templateURL : string) (d : Z) (count : nat) (st : timeline_state)
  : timeline_state :=
  match count with
  | O => st
  | S count' =>
      emit_numbered templateURL d count'
        (MkTimeline
           (tl_URLs st ++ [strings_Replace1 templateURL "$Number$" (strconv_Itoa (tl_num st))])
           (tl_SegmentDurations st ++ [uint32 d])
           (int64 (tl_num st + 1)))
  end.

(** The body of [for _, s := range st.SegmentTimeline.S]. *)
Definition timeline_step (templateURL : string) (timePlaceholder : bool)
    (st : timeline_state) (s : option S_t) : Err timeline_state :=
  match s with
  | None => Ok st
  | Some s =>
      if S_D s >? MaxUint32 then Fail (EMsg "segment duration > uint32")
      else if timePlaceholder then
        match S_T s with
        | None => Fail (EMsg "missing time in segment timeline")
        | Some t =>
            Ok (MkTimeline
                  (tl_URLs st ++ [strings_Replace1 templateURL "$Time$" (strconv_FormatUint t)])
                  (tl_SegmentDurations st ++ [uint32 (S_D s)])
                  (tl_num st))
        end
      else if S_R s <? 0 then Fail (EMsg "unlimited repeat in segment timeline")
      else Ok (emit_numbered templateURL (S_D s) (Z.to_nat (int64 (1 + S_R s))) st)
  end.

Fixpoint timeline_loop (templateURL : string) (timePlaceholder : bool)
    (st : timeline_state) (ss : list (option S_t)) : Err timeline_state :=
  match ss with
  | [] => Ok st
  | s :: ss' =>
      st' <-! timeline_step templateURL timePlaceholder st s ;;
      timeline_loop templateURL timePlaceholder st' ss'
  end.

Definition parseMPDExplicitAddressingInfo (u : string) (st : SegmentTemplateType)
  : Err ExplicitAddressingInfo :=
  match st_SegmentTimeline st with
  | None => Fail (EMsg "missing segment timeline")
  | Some ss =>
      let templateURL := resolveReference u (st_Media st) in
      let timePlaceholder := strings_Contains (st_Media st) "$Time$" in
      if negb timePlaceholder && negb (strings_Contains (st_Media st) "$Number$")
      then Fail (EMsg "unknown placeholder in media")
      else
        let num := match st_StartNumber st with Some n => n | None => 1 end in
        fin <-! timeline_loop templateURL timePlaceholder (MkTimeline [] [] num) ss ;;
        Ok (MkExplicit templateURL (tl_URLs fin) [] (tl_SegmentDurations fin)
              (st_GetTimescale st))
  end.

Definition set_Servers (info : ExplicitAddressingInfo) (servers : list string)
  : ExplicitAddressingInfo :=
  MkExplicit (ex_TemplateURL info) (ex_URLs info) servers (ex_SegmentDurations info)
    (ex_Timescale info).

Definition extractMPDVariant (pos : list nat) (u : string) (servers : list string)
    (r : RepresentationType) : Err Variant :=
  let mimeType := rep_GetMimeType r in
  let codecs := rep_GetCodecs r in
  let v := MkVariant
             (computeID mimeType codecs (rep_Width r) (rep_Height r) (rep_Bandwidth r))
             mimeType codecs (rep_Width r) (rep_Height r) (rep_Bandwidth r)
             "" None None None in
  match rep_SegmentBase r, rep_SegmentTemplate r with
  | Some indexRange, _ =>
      Ok (MkVariant (v_ID v) mimeType codecs (rep_Width r) (rep_Height r) (rep_Bandwidth r)
            "indexed" (Some (MkIndexed (substServer w pos u servers) indexRange)) None None)
  | None, Some st =>
      info <-! wrapE "explicit addressing info" (parseMPDExplicitAddressingInfo u st) ;;
      Ok (MkVariant (v_ID v) mimeType codecs (rep_Width r) (rep_Height r) (rep_Bandwidth r)
            "explicit" None (Some (set_Servers info servers)) None)
  | None, None =>
      if rep_SegmentList r then Fail (EMsg "segment list not implemented")
      else Fail (EMsg "unknown addressing type")
  end.

(** *** The multi-period merge *)

Record variantGroup := MkVariantGroup {
  vg_variants : gmap string (list Variant);
  vg_durations : gmap string Z;
  vg_maxDuration : Z }.

Definition newVariantGroup : variantGroup := MkVariantGroup ∅ ∅ 0.

(** The key [k] computed by [add]. *)
Definition variantKey (v : Variant) : Err string :=
  if String.eqb (v_AddressingMode v) "indexed" then
    info <-! deref (v_IndexedAddressingInfo v) ;; Ok (ix_URL info)
  else if String.eqb (v_AddressingMode v) "explicit" then
    info <-! deref (v_ExplicitAddressingInfo v) ;; Ok (ex_TemplateURL info)
  else Ok "".

Definition add (vg : variantGroup) (v : Variant) (d : Z) : Err variantGroup :=
  k <-! variantKey v ;;
  let dk := int64 (default 0 (vg_durations vg !! k) + d) in
  Ok (MkVariantGroup
        (<[k := default [] (vg_variants vg !! k) ++ [v]]> (vg_variants vg))
        (<[k := dk]> (vg_durations vg))
        (Z.max (vg_maxDuration vg) dk)).

(** The state of the inner loop of [merge]: [m] and [sum].  The two
    appends go through the pointer [m.ExplicitAddressingInfo]. *)
Definition merge_member (st : Variant * Z) (v : Variant) : Err (Variant * Z) :=
  let '(m, sum) := st in
  let sum' := int64 (sum + v_Bandwidth v) in
  if String.eqb (v_AddressingMode m) "explicit" then
    minfo <-! deref (v_ExplicitAddressingInfo m) ;;
    vinfo <-! deref (v_ExplicitAddressingInfo v) ;;
    Ok (set_ExplicitAddressingInfo m
          (Some (MkExplicit (ex_TemplateURL minfo) (ex_URLs minfo ++ ex_URLs vinfo)
                   (ex_Servers minfo)
                   (ex_SegmentDurations minfo ++ ex_SegmentDurations vinfo)
                   (ex_Timescale minfo))),
        sum')
  else Ok (m, sum').

Fixpoint merge_members (st : Variant * Z) (vs : list Variant) : Err (Variant * Z) :=
  match vs with
  | [] => Ok st
  | v :: vs' => st' <-! merge_member st v ;; merge_members st' vs'
  end.

(** The body of the outer loop of [merge] for a group that is kept. *)
Definition merge_group (vs : list Variant) : Err Variant :=
  match vs with
  | [] => Fail EPanic
  | v0 :: rest =>
      st <-! merge_members (v0, int64 (v_Bandwidth v0)) rest ;;
      let '(m, sum) := st in
      let m := set_Bandwidth m (uint32 (Z.quot sum (Z.of_nat (length vs)))) in
      Ok (if v_Bandwidth m =? v_Bandwidth v0 then m
          else set_ID m (computeID (v_MimeType m) (v_Codecs m) (v_Width m) (v_Height m)
                           (v_Bandwidth m)))
  end.

(** [merge], iterating the map in the order [groups]. *)
Fixpoint merge_in (vg : variantGroup) (groups : list (string * list Variant))
  : Err (list Variant) :=
  match groups with
  | [] => Ok []
  | (k, vs) :: groups' =>
      if default 0 (vg_durations vg !! k) <? vg_maxDuration vg then merge_in vg groups'
      else
        m <-! merge_group vs ;;
        merged <-! merge_in vg groups' ;;
        Ok (m :: merged)
  end.

(** Go leaves the iteration order of a map open: the world chooses it. *)
Definition merge (pos : list nat) (vg : variantGroup) : Err (list Variant) :=
  merge_in vg (schedule (w_order w pos) (map_to_list (vg_variants vg))).

(** *** The DASH path *)

(** [for _, r := range as.Representations]; [i] counts the
    representations for the position of the random draw. *)
Fixpoint representations_loop (pos : list nat) (i : nat) (u : string) (servers : list string)
    (periodDuration : Z) (rs : list RepresentationType) (group : variantGroup)
  : Err variantGroup :=
  match rs with
  | [] => Ok group
  | r :: rs' =>
      let m := rep_GetMimeType r in
      if negb (String.eqb m "") && negb (strings_HasPrefix m "video")
      then representations_loop pos (S i) u servers periodDuration rs' group
      else
        let u' := resolveBaseURLTypes u (rep_BaseURLs r) in
        v <-! wrapE "extract mpd variant" (extractMPDVariant (pos ++ [i]) u' servers r) ;;
        group' <-! add group v periodDuration ;;
        representations_loop pos (S i) u servers periodDuration rs' group'
  end.

Fixpoint adaptationSets_loop (pos : list nat) (i : nat) (u : string) (servers : list string)
    (periodDuration : Z) (sets : list AdaptationSetType) (group : variantGroup)
  : Err variantGroup :=
  match sets with
  | [] => Ok group
  | aset :: sets' =>
      let ct := as_ContentType aset in
      if negb (String.eqb ct "") && negb (String.eqb ct "video")
      then adaptationSets_loop pos (S i) u servers periodDuration sets' group
      else
        let u' := resolveBaseURLTypes u (as_BaseURLs aset) in
        group' <-! representations_loop (pos ++ [i]) 0 u' servers periodDuration
                     (as_Representations aset) group ;;
        adaptationSets_loop pos (S i) u servers periodDuration sets' group'
  end.

Definition isAdPeriod (p : Period) : bool :=
  existsb (fun prop => match prop with
                       | Some value => String.eqb (strings_ToLower value) "ad"
                       | None => false
                       end)
          (p_SupplementalProperties p).

(** [periodDuration] of a period: [p.GetDuration()], 0 when it fails. *)
Definition periodDurationOf (p : Period) : Z :=
  match p_GetDuration p with
  | Ok d => d
  | Fail _ => 0
  end.

Fixpoint periods_loop (pos : list nat) (i : nat) (u : string) (servers : list string)
    (ps : list Period) (group : variantGroup) : Err variantGroup :=
  match ps with
  | [] => Ok group
  | p :: ps' =>
      let periodDuration := periodDurationOf p in
      if isAdPeriod p then periods_loop pos (S i) u servers ps' group
      else
        let u' := resolveBaseURLTypes u (p_BaseURLs p) in
        group' <-! adaptationSets_loop (pos ++ [i]) 0 u' servers periodDuration
                     (p_AdaptationSets p) group ;;
        periods_loop pos (S i) u servers ps' group'
  end.

Definition extractMPDVariants (pos : list nat) (reference : Reference) : Err (list Variant) :=
  let isURL := url_isHTTP (ref_URL reference) in
  mu <-! (if isURL then
            let u := substServer w pos (ref_URL reference) (ref_Servers reference) in
            m <-! wrapE "fetch mpd" (w_fetchMPD w pos u) ;; Ok (m, u)
          else
            m <-! wrapE "read mpd" (w_readMPD w pos (ref_URL reference)) ;;
            let u := match ref_Servers reference with
                     | s :: _ => s
                     | [] => ref_URL reference
                     end in
            match mpd_BaseURL m with
            | b :: _ =>
                if String.eqb u "" then b' <-! deref b ;; Ok (m, b') else Ok (m, u)
            | [] => Ok (m, u)
            end) ;;
  let '(m, u) := mu in
  if negb (mpd_isStatic m) then Fail (EMsg "mpd is not static")
  else
    let u := resolveBaseURLTypes u (mpd_BaseURL m) in
    group <-! periods_loop pos 0 u (ref_Servers reference) (mpd_Periods m) newVariantGroup ;;
    v <-! merge pos group ;;
    match v with
    | [] => Fail (EMsg "no variants found")
    | _ => Ok v
    end.

(** *** The HLS path *)

(** What the segment loop of [extractM3U8Variant] writes: the MIME type
    of [variant], [isIndexed], the two arrays of [fp] and the two lists
    of [info]. *)
Record hls_state := MkHls {
  hs_MimeType : string;
  hs_isIndexed : bool;
  hs_fpSizes : list Z;
  hs_fpDurations : list Z;
  hs_URLs : list string;
  hs_SegmentDurations : list Z }.

Definition mimeOfExt (ext : string) : string :=
  if String.eqb ext ".ts" then "video/mp2t"
  else if String.eqb ext ".m4s" || String.eqb ext ".m4v" || String.eqb ext ".mp4"
  then "video/mp4"
  else "".

(** [time.Duration.Milliseconds]. *)
Definition Milliseconds (d : Z) : Z := Z.quot d 1000000.

Definition segment_step (u : string) (st : hls_state) (seg : MediaSegment) : Err hls_state :=
  let mime := if String.eqb (hs_MimeType st) "" then mimeOfExt (filepath_Ext (seg_URI seg))
              else hs_MimeType st in
  let dur := Milliseconds (seg_Duration seg) in
  if dur >? MaxUint32 then Fail (EMsg "segment duration > uint32")
  else
    match seg_ByteRangeLength seg with
    | Some size =>
        if size >? MaxUint32 then Fail (EMsg "segment size > uint32")
        else Ok (MkHls mime true
                   (hs_fpSizes st ++ [uint32 size]) (hs_fpDurations st ++ [uint32 dur])
                   (hs_URLs st) (hs_SegmentDurations st))
    | None =>
        Ok (MkHls mime (hs_isIndexed st) (hs_fpSizes st) (hs_fpDurations st)
              (hs_URLs st ++ [resolveReference u (seg_URI seg)])
              (hs_SegmentDurations st ++ [uint32 dur]))
    end.

Fixpoint segments_loop (u : string) (st : hls_state) (segs : list MediaSegment)
  : Err hls_state :=
  match segs with
  | [] => Ok st
  | seg :: segs' => st' <-! segment_step u st seg ;; segments_loop u st' segs'
  end.

(** The variant built from a media playlist once width, height,
    bandwidth and codecs are known. *)
Definition mediaVariant (u : string) (servers : list string) (codecs : string)
    (width height bandwidth : Z) (segs : list MediaSegment) : Err Variant :=
  fin <-! segments_loop u (MkHls "" false [] [] [] []) segs ;;
  let id := computeID (hs_MimeType fin) codecs width height bandwidth in
  if hs_isIndexed fin then
    Ok (MkVariant id (hs_MimeType fin) codecs width height bandwidth "fingerprinted"
          None None (Some (MkFingerprint (hs_fpSizes fin) (hs_fpDurations fin) 1000)))
  else
    Ok (MkVariant id (hs_MimeType fin) codecs width height bandwidth "explicit"
          None (Some (MkExplicit "" (hs_URLs fin) servers (hs_SegmentDurations fin) 1000))
          None).

Definition extractM3U8Variant (pos : list nat) (url : string) (servers : list string)
    (v : MultivariantVariant) : Err Variant :=
  let '(widthStr, heightStr, ok) := strings_Cut (mv_Resolution v) "x" in
  if negb ok then Fail (EMsg ("resolution: " ++ mv_Resolution v)%string)
  else
    width <-! wrapE "width" (strconv_ParseUint32 widthStr) ;;
    height <-! wrapE "height" (strconv_ParseUint32 heightStr) ;;
    if mv_Bandwidth v >? MaxUint32 then Fail (EMsg "bandwidth > uint32")
    else
      let bandwidth := uint32 (mv_Bandwidth v) in
      match mv_Codecs v with
      | [] => Fail (EMsg "no codecs")
      | codecs :: _ =>
          let u := resolveReference url (mv_URI v) in
          p <-! wrapE "fetch m3u8" (w_fetchM3U8 w pos u) ;;
          match p with
          | Media segs => mediaVariant u servers codecs width height bandwidth segs
          | Multivariant _ => Fail (EMsg "media playlist not found")
          end
      end.

(** The goroutines of [extractM3U8Variants], one per entry with a
    resolution.  An entry without one leaves its slot at the zero value
    and is filtered out.  With an error the callers drop the list. *)
Fixpoint master_loop (pos : list nat) (i : nat) (u : string) (servers : list string)
    (vs : list MultivariantVariant) : Err (list Variant) :=
  match vs with
  | [] => Ok []
  | v :: vs' =>
      if String.eqb (mv_Resolution v) "" then master_loop pos (S i) u servers vs'
      else
        variant <-! wrapE "extract m3u8 variant"
                      (extractM3U8Variant (pos ++ [i]) u servers v) ;;
        rest <-! master_loop pos (S i) u servers vs' ;;
        Ok (if String.eqb (v_AddressingMode variant) "" then rest else variant :: rest)
  end.

Definition extractM3U8Variants (pos : list nat) (reference : Reference)
  : Err (list Variant) :=
  let isURL := url_isHTTP (ref_URL reference) in
  pu <-! (if isURL then
            let u := substServer w pos (ref_URL reference) (ref_Servers reference) in
            p <-! wrapE "fetch m3u8" (w_fetchM3U8 w pos u) ;; Ok (p, u)
          else
            p <-! wrapE "read m3u8" (w_readM3U8 w pos (ref_URL reference)) ;;
            Ok (p, match ref_Servers reference with
                   | s :: _ => s
                   | [] => ref_URL reference
                   end)) ;;
  let '(p, u) := pu in
  match p with
  | Multivariant vs => master_loop pos 0 u (ref_Servers reference) vs
  | Media _ => Fail (EMsg "master playlist not found")
  end.

Definition ExtractVariants (pos : list nat) (reference : Reference) : Err (list Variant) :=
  if String.eqb (ref_Format reference) "dash" then extractMPDVariants pos reference
  else if String.eqb (ref_Format reference) "hls" then extractM3U8Variants pos reference
  else Fail (EMsg "unsupported format").

End VariantExtractor.

(** ** fingerprinter.go *)

Section Fingerprinter.
Context `{UrlLib}.
Variable w : World.

Definition zeroFingerprint : Fingerprint := MkFingerprint [] [] 0.

(** [extractSIDX]: the payload of the first box, if it is a SIDX. *)
Definition extractSIDX (raw : list Z) : Err Sidx :=
  boxes <-! w_boxes w raw ;;
  match boxes with
  | Some sidx :: _ => Ok sidx
  | _ => Fail (EMsg "sidx box not found")
  end.

Definition fingerprintIndexedMP4 (pos : list nat) (info : IndexedAddressingInfo)
  : Err Fingerprint :=
  let isURL := url_isHTTP (ix_URL info) in
  let indexRange := if String.eqb (ix_IndexRange info) "" then "0-65535"
                    else ix_IndexRange info in
  raw <-! (if isURL then wrapE "fetch index" (w_fetchIndex w pos (ix_URL info) indexRange)
           else wrapE "read file" (w_readRange w pos (ix_URL info) indexRange)) ;;
  sidx <-! wrapE "extract sidx" (extractSIDX raw) ;;
  Ok (MkFingerprint (map ReferencedSize (sidx_References sidx))
        (map SubsegmentDuration (sidx_References sidx))
        (sidx_Timescale sidx)).

Definition fingerprintIndexed (pos : list nat) (mimeType : string)
    (info : IndexedAddressingInfo) : Err Fingerprint :=
  if String.eqb mimeType "video/mp4" then fingerprintIndexedMP4 pos info
  else if String.eqb mimeType "video/webm" then Fail (EMsg "webm not yet implemented")
  else Fail (EMsg "unsupported mime type").

(** *** The HEAD retry loop *)

Definition retries : Z := 5.
Definition maxSleepMS : Z := 1000.

(** What a goroutine of [fingerprintExplicit] does that can be seen from
    outside: HEAD requests and sleeps. *)
Inductive event :=
| EvHead (u : string)
| EvSleep (ms : Z).

(** The [for] loop of the goroutine for URL number [i], entered with
    the current values of [u] and [try].  It returns what the goroutine
    returns, with the content length to store in case of success, and
    the events in order. *)
Equations? head_loop (pos : list nat) (i : nat) (servers : list string)
    (u : string) (try : Z) : Err Z * list event
  by wf (Z.to_nat (retries - try)) lt :=
head_loop pos i servers u try with Z_lt_dec try retries := {
  | left _ :=
      let u' := substServer w (pos ++ [i; Z.to_nat try; O]) u servers in
      let out := w_head w (pos ++ [i; Z.to_nat try]) u' in
      if head_ctxDone out then (Fail ECanceled, [EvHead u'])
      else match head_result out with
           | Fail e =>
               let ms := rand_Intn w (pos ++ [i; Z.to_nat try; 1%nat]) maxSleepMS in
               let r := head_loop pos i servers u' (try + 1) in
               (fst r, EvHead u' :: EvSleep ms :: snd r)
           | Ok l =>
               if l >? MaxUint32
               then (Fail (EMsg "content length > uint32"), [EvHead u'])
               else (Ok l, [EvHead u'])
           end
  | right _ :=
      let u' := substServer w (pos ++ [i; Z.to_nat try; O]) u servers in
      let out := w_head w (pos ++ [i; Z.to_nat try]) u' in
      if head_ctxDone out then (Fail ECanceled, [EvHead u'])
      else match head_result out with
           | Fail e => (Fail (EWrap "fetch content length" e), [EvHead u'])
           | Ok l =>
               if l >? MaxUint32
               then (Fail (EMsg "content length > uint32"), [EvHead u'])
               else (Ok l, [EvHead u'])
           end }.
Proof. unfold retries in *. lia. Qed.

(** One goroutine: the loop from [try = 0]. *)
Definition head_task (pos : list nat) (servers : list string) (iu : nat * string)
  : nat * (Err Z * list event) :=
  (fst iu, head_loop pos (fst iu) servers (snd iu) 0).

(** The writes [fp.SegmentSizes[i] = uint32(l)] of the goroutines that
    succeed, in completion order. *)
Fixpoint store_sizes (sizes : list Z) (done : list (nat * (Err Z * list event))) : list Z :=
  match done with
  | [] => sizes
  | (i, (Ok l, _)) :: done' => store_sizes (<[i := uint32 l]> sizes) done'
  | (_, (Fail _, _)) :: done' => store_sizes sizes done'
  end.

(** The goroutines of [fingerprintExplicit], one per URL, in the order in
    which they complete. *)
Definition explicit_tasks (pos : list nat) (info : ExplicitAddressingInfo)
  : list (nat * (Err Z * list event)) :=
  map (head_task pos (ex_Servers info))
      (schedule (w_order w pos) (indexed (ex_URLs info))).

(** [fingerprintExplicit]: the fingerprint and the error of [g.Wait()]. *)
Definition fingerprintExplicit (pos : list nat) (info : ExplicitAddressingInfo)
  : Fingerprint * option error :=
  let done := explicit_tasks pos info in
  (MkFingerprint
     (store_sizes (replicate (length (ex_URLs info)) 0) done)
     (ex_SegmentDurations info)
     (ex_Timescale info),
   first_error (map (fun d => fst (snd d)) done)).

Definition of_Err (r : Err Fingerprint) : Fingerprint * option error :=
  match r with
  | Ok fp => (fp, None)
  | Fail e => (zeroFingerprint, Some e)
  end.

(** [DefaultFingerprinter.Fingerprint]. *)
Definition Fingerprint_default (pos : list nat) (variant : Variant)
  : Fingerprint * option error :=
  let m := v_AddressingMode variant in
  if String.eqb m "indexed" then
    of_Err (info <-! deref (v_IndexedAddressingInfo variant) ;;
            fingerprintIndexed pos (v_MimeType variant) info)
  else if String.eqb m "explicit" then
    match v_ExplicitAddressingInfo variant with
    | Some info => fingerprintExplicit pos info
    | None => (zeroFingerprint, Some EPanic)
    end
  else if String.eqb m "fingerprinted" then
    of_Err (deref (v_Fingerprint variant))
  else (zeroFingerprint, Some (EMsg "unsupported addressing mode")).

End Fingerprinter.

(** ** service.go *)

Fixpoint failures {A} (results : list (Err A)) : list error :=
  match results with
  | [] => []
  | Ok _ :: results' => failures results'
  | Fail e :: results' => e :: failures results'
  end.

(** The capabilities the manager dispatches to.  The extractor and the
    fingerprinter of a service get the position of the call. *)
Record VideoExtractor := MkVideoExtractor {
  ve_Matches : string -> bool;
  ve_VideoExtract : string -> list VideoResult }.

Definition VariantExtractor : Type := list nat -> Reference -> Err (list Variant).
Definition Fingerprinter : Type := list nat -> Variant -> Fingerprint * option error.

Record Manager := MkManager {
  m_videoExtractors : gmap string VideoExtractor;
  m_variantExtractors : gmap string VariantExtractor;
  m_fingerprinters : gmap string Fingerprinter }.

Record ExtractResult := MkExtractResult {
  er_Service : string;
  er_URL : string;
  er_Videos : list Video;
  er_NumFailed : Z;
  er_FailedErrors : list error }.

(** The loop that keeps one variant per ID: [seen] is the set of IDs
    already taken. *)
Fixpoint dedupByID (seen : gset string) (variants : list Variant) : list Variant :=
  match variants with
  | [] => []
  | v :: variants' =>
      if decide (v_ID v ∈ seen) then dedupByID seen variants'
      else v :: dedupByID ({[v_ID v]} ∪ seen) variants'
  end.

Section ManagerOps.
Variable w : World.
Variable m : Manager.

Definition matchURL (u : string) : option string :=
  fst <$> List.find (fun ive => ve_Matches (snd ive) u)
            (schedule (w_order w [O]) (map_to_list (m_videoExtractors m))).

Definition Manager_extractVariants (pos : list nat) (service : string)
    (reference : Reference) : Err (list Variant) :=
  match m_variantExtractors m !! service with
  | None => Fail (EMsg "missing variant extractor")
  | Some ve => ve pos reference
  end.

(** [Manager.fingerprint]: the variant behind the pointer afterwards. *)
Definition Manager_fingerprint (pos : list nat) (service : string) (variant : Variant)
  : Err Variant :=
  match m_fingerprinters m !! service with
  | None => Fail (EMsg "missing fingerprinter")
  | Some f =>
      match f pos variant with
      | (_, Some e) => Fail e
      | (fp, None) => Ok (set_Fingerprint variant (Some fp))
      end
  end.

Definition wantedFormat (format : string) (kref : nat * Reference) : bool :=
  String.eqb format "both" || String.eqb (ref_Format (snd kref)) format.

(** The goroutine of [Extract] for video result number [j]: the video
    to append to [result.Videos], or the error to record. *)
Definition video_task (id url format : string) (jr : nat * VideoResult) : Err Video :=
  let '(j, r) := jr in
  match vr_Err r with
  | Some e => Fail (EWrap "video extract" e)
  | None =>
      let vid := vr_Video r in
      let refs := filter (fun kref => wantedFormat format kref = true)
                    (indexed (vr_References r)) in
      let extracted :=
        map (fun kref => Manager_extractVariants [j; O; fst kref] id (snd kref))
            (schedule (w_order w [j; 1%nat]) refs) in
      match first_error extracted with
      | Some e => Fail (EWrap "extract variants" e)
      | None =>
          let variants := concat (successes extracted) in
          let fingerprinted :=
            map (fun kv => Manager_fingerprint [j; 2%nat; fst kv] id (snd kv))
                (schedule (w_order w [j; 3%nat]) (indexed (dedupByID ∅ variants))) in
          match first_error fingerprinted with
          | Some e => Fail (EWrap "fingerprint" e)
          | None => Ok (set_Variants vid (vid_Variants vid ++ successes fingerprinted))
          end
      end
  end.

(** The video results for which a goroutine is started: the loop stops
    when the context is done. *)
Fixpoint started_tasks (j : nat) (rs : list VideoResult) : list (nat * VideoResult) :=
  match rs with
  | [] => []
  | r :: rs' => if w_ctxDone w [j] then [] else (j, r) :: started_tasks (S j) rs'
  end.

(** [result.NumFailed] and [result.FailedErrors] once the goroutines are
    done, given the errors of those that failed in the order of
    completion.  The goroutines update the two fields without holding
    [pMu] (which guards [result.Videos] only).  With at most one failing
    goroutine there is one writer, whose writes [wg.Wait()] orders before
    the result is read: the fields are exact.  When several goroutines
    fail, their updates race and the world decides what the fields hold. *)
Definition failure_fields (errs : list error) : Z * list error :=
  match errs with
  | [] | [_] => (Z.of_nat (length errs), errs)
  | _ => w_raced w errs
  end.

(** [Manager.Extract]. *)
Definition Extract (url format : string) : Err ExtractResult :=
  match matchURL url with
  | None => Fail (EMsg "missing video extractor")
  | Some id =>
      ve <-! deref (m_videoExtractors m !! id) ;;
      let done := map (video_task id url format)
                    (schedule (w_order w [1%nat])
                       (started_tasks 0 (ve_VideoExtract ve url))) in
      match successes done with
      | [] => Fail (EMsg "no fingerprints")
      | videos =>
          Ok (MkExtractResult id url videos (failure_fields (failures done)).1
                (failure_fields (failures done)).2)
      end
  end.

End ManagerOps.

(** A service that delegates to the default extractor and fingerprinter,
    as [defaultService], [svt], [max] and [amazon] do. *)
Definition delegates `{UrlLib} (w : World) (m : Manager) (id : string) : Prop :=
  m_variantExtractors m !! id = Some (ExtractVariants w) /\
  m_fingerprinters m !! id = Some (Fingerprint_default w).

(** ** Stand-ins for running the definitions

    [net/url] restricted to what the examples need: a reference that
    starts with a scheme replaces the base, any other reference replaces
    what follows the last slash of the base. *)

Fixpoint dirOf (base : string) : string :=
  match base with
  | EmptyString => EmptyString
  | String c rest =>
      if strings_Contains rest "/" then String c (dirOf rest)
      else if Ascii.eqb c "/" then "/" else EmptyString
  end.

Definition hasScheme (s : string) : bool :=
  strings_HasPrefix s "http://" || strings_HasPrefix s "https://".

Definition simpleUrl : UrlLib := {|
  URL := string;
  url_Parse := fun s => Ok s;
  url_ResolveReference := fun base ref =>
    if hasScheme ref then ref else (dirOf base ++ ref)%string;
  url_String := fun s => s;
  url_isHTTP := hasScheme |}.

(** A world where nothing is reachable, no draw and no choice is made. *)
Definition emptyWorld : World := {|
  w_rand := fun _ => 0;
  w_order := fun _ => [];
  w_ctxDone := fun _ => false;
  w_raced := fun errs => (Z.of_nat (length errs), errs);
  w_fetchMPD := fun _ _ => Fail (EMsg "unreachable");
  w_readMPD := fun _ _ => Fail (EMsg "unreachable");
  w_fetchM3U8 := fun _ _ => Fail (EMsg "unreachable");
  w_readM3U8 := fun _ _ => Fail (EMsg "unreachable");
  w_fetchIndex := fun _ _ _ => Fail (EMsg "unreachable");
  w_readRange := fun _ _ _ => Fail (EMsg "unreachable");
  w_boxes := fun _ => Fail (EMsg "unreachable");
  w_head := fun _ _ => MkHeadOutcome false (Fail (EMsg "unreachable")) |}.

(** ** Definitions used to state the properties *)

(** What the specification says the [$Number$] mode emits for one entry:
    [1 + r] pairs, numbered from the running number. *)
Definition spec_entry_pairs (templateURL : string) (num : Z) (s : S_t) : list (string * Z) :=
  map (fun k => (strings_Replace1 templateURL "$Number$" (strconv_Itoa (num + Z.of_nat k)),
                 S_D s))
      (seq 0 (Z.to_nat (1 + S_R s))).

(** ... and for a timeline: the entries in order, the running number
    advancing by one per pair. *)
Fixpoint spec_number_pairs (templateURL : string) (num : Z) (ss : list S_t)
  : list (string * Z) :=
  match ss with
  | [] => []
  | s :: ss' =>
      spec_entry_pairs templateURL num s ++
      spec_number_pairs templateURL (num + (1 + S_R s)) ss'
  end.

(** The non-nil entries of a timeline. *)
Fixpoint entries (tl : list (option S_t)) : list S_t :=
  match tl with
  | [] => []
  | Some s :: tl' => s :: entries tl'
  | None :: tl' => entries tl'
  end.

Definition total_pairs (ss : list S_t) : Z :=
  fold_right (fun s acc => 1 + S_R s + acc) 0 ss.

(** startNumber=5 with the entries {d:1000, r:2} and {d:500, r:0}. *)
Definition c3_template : SegmentTemplateType :=
  MkSegmentTemplate "seg-$Number$.m4s" (Some 1000) (Some 5)
    (Some [Some (MkS None 1000 2); Some (MkS None 500 0)]).

(** A representation with one timeline entry of duration [d]. *)
Definition c8_representation (d : Z) : RepresentationType :=
  MkRepresentation "video/mp4" "avc1.640028" 1920 1080 4000000 [] None
    (Some (MkSegmentTemplate "seg-$Number$.m4s" None None (Some [Some (MkS None d 0)])))
    false.

#[global] Instance error_eq_dec : EqDecision error.
Proof. solve_decision. Defined.

#[global] Instance Err_eq_dec {A} `{EqDecision A} : EqDecision (Err A).
Proof. solve_decision. Defined.

Definition Zsum (l : list Z) : Z := foldr Z.add 0 l.

(** The URL and duration lists a group member brings to the merge. *)
Definition member_URLs (v : Variant) : list string :=
  match v_ExplicitAddressingInfo v with
  | Some info => ex_URLs info
  | None => []
  end.

Definition member_SegmentDurations (v : Variant) : list Z :=
  match v_ExplicitAddressingInfo v with
  | Some info => ex_SegmentDurations info
  | None => []
  end.

(** [sum] after the inner loop of [merge] over [vs]. *)
Definition bandwidth_chain (sum : Z) (vs : list Variant) : Z :=
  fold_left (fun acc v => int64 (acc + v_Bandwidth v)) vs sum.

(** A variant whose payload matches its addressing mode, as
    [extractMPDVariant] builds them. *)
Definition addressed (v : Variant) : Prop :=
  (v_AddressingMode v = "indexed" /\ is_Some (v_IndexedAddressingInfo v)) \/
  (v_AddressingMode v = "explicit" /\ is_Some (v_ExplicitAddressingInfo v)).

(** The calls [group.add(v, periodDuration)] of an extraction, in order. *)
Fixpoint add_all (vg : variantGroup) (items : list (Variant * Z)) : Err variantGroup :=
  match items with
  | [] => Ok vg
  | (v, d) :: items' => vg' <-! add vg v d ;; add_all vg' items'
  end.

(** The members of the group of key [k], its total period duration, and
    the largest total over the groups. *)
Definition group_members (items : list (Variant * Z)) (k : string) : list (Variant * Z) :=
  filter (fun it => variantKey (fst it) = Ok k) items.

Definition group_total (items : list (Variant * Z)) (k : string) : Z :=
  Zsum (map snd (group_members items k)).

Definition item_total (items : list (Variant * Z)) (it : Variant * Z) : Z :=
  match variantKey (fst it) with
  | Ok k => group_total items k
  | Fail _ => 0
  end.

Definition max_total (items : list (Variant * Z)) : Z :=
  foldr Z.max 0 (map (item_total items) items).

(** Variants that share a key share the addressing mode. *)
Definition uniform_modes (items : list (Variant * Z)) : Prop :=
  forall v1 v2, v1 ∈ map fst items -> v2 ∈ map fst items ->
    variantKey v1 = variantKey v2 -> v_AddressingMode v1 = v_AddressingMode v2.

(** [m.ExplicitAddressingInfo] after the inner loop of [merge] over a
    group [v0 :: rest] that does not panic. *)
Definition merged_info (v0 : Variant) (rest : list Variant) : option ExplicitAddressingInfo :=
  if String.eqb (v_AddressingMode v0) "explicit" then
    match v_ExplicitAddressingInfo v0 with
    | Some i0 =>
        Some (MkExplicit (ex_TemplateURL i0)
                (ex_URLs i0 ++ concat (map member_URLs rest))
                (ex_Servers i0)
                (ex_SegmentDurations i0 ++ concat (map member_SegmentDurations rest))
                (ex_Timescale i0))
    | None => None
    end
  else v_ExplicitAddressingInfo v0.

(** A group on which the inner loop of [merge] does not dereference nil. *)
Definition mergeable (vs : list Variant) : Prop :=
  match vs with
  | [] => False
  | v0 :: rest =>
      v_AddressingMode v0 = "explicit" -> rest <> [] ->
      is_Some (v_ExplicitAddressingInfo v0) /\
      Forall (fun v => is_Some (v_ExplicitAddressingInfo v)) rest
  end.

(** Two periods of one rendition: same template URL, bandwidths 1000 and
    3000, period durations 3600 s and 900 s. *)
Definition c4_variant (bandwidth : Z) (urls : list string) (durations : list Z) : Variant :=
  MkVariant (computeID "video/mp4" "avc1.64001f" 1280 720 bandwidth)
    "video/mp4" "avc1.64001f" 1280 720 bandwidth "explicit" None
    (Some (MkExplicit "https://cdn.example/v/seg-$Number$.m4s" urls [] durations 1000))
    None.

Definition c4_items : list (Variant * Z) :=
  [(c4_variant 1000 ["https://cdn.example/v/seg-1.m4s"; "https://cdn.example/v/seg-2.m4s"]
      [2000; 2000], 3600000000000);
   (c4_variant 3000 ["https://cdn.example/v/seg-3.m4s"] [1500], 900000000000)].

Definition c4_group : variantGroup :=
  MkVariantGroup
    {[ "https://cdn.example/v/seg-$Number$.m4s" := map fst c4_items ]}
    {[ "https://cdn.example/v/seg-$Number$.m4s" := 4500000000000 ]}
    4500000000000.

Definition c4_merged : Variant :=
  MkVariant "b894016d2212117bd14523d8b4dd9581"
    "video/mp4" "avc1.64001f" 1280 720 2000 "explicit" None
    (Some (MkExplicit "https://cdn.example/v/seg-$Number$.m4s"
             ["https://cdn.example/v/seg-1.m4s"; "https://cdn.example/v/seg-2.m4s";
              "https://cdn.example/v/seg-3.m4s"] [] [2000; 2000; 1500] 1000))
    None.

(** The URL list and the duration list of a variant have the same length
    (both are empty for a variant without explicit payload). *)
Definition lists_aligned (v : Variant) : Prop :=
  length (member_URLs v) = length (member_SegmentDurations v).

(** What the group records after the calls [items]: per key the members
    in order and the sum of their period durations, and the largest sum. *)
Definition tracked (items : list (Variant * Z)) (vg : variantGroup) : Prop :=
  (forall k, vg_variants vg !! k =
             match group_members items k with
             | [] => None
             | ms => Some (map fst ms)
             end) /\
  (forall k, vg_durations vg !! k =
             match group_members items k with
             | [] => None
             | _ => Some (group_total items k)
             end) /\
  vg_maxDuration vg = max_total items.

(** The variants of a merge output that come from the group of key [k]:
    a merged variant keeps the key of the first member of its group. *)
Definition contributed (k : string) (out : list Variant) : list Variant :=
  filter (fun m => variantKey m = Ok k) out.

(** The two periods of [c4_items] and a 60 s period of another rendition. *)
Definition c5_items : list (Variant * Z) :=
  c4_items ++
  [(MkVariant (computeID "video/mp4" "avc1.64001f" 640 360 500)
      "video/mp4" "avc1.64001f" 640 360 500 "explicit" None
      (Some (MkExplicit "https://ads.example/a/seg-$Number$.m4s"
               ["https://ads.example/a/seg-1.m4s"] [] [60000] 1000))
      None, 60000000000)].

(** The segments of a media playlist that carry a byte-range length, as
    (length, duration in ms) pairs, and those that do not, as
    (resolved URL, duration in ms) pairs. *)
Fixpoint byteRange_pairs (segs : list MediaSegment) : list (Z * Z) :=
  match segs with
  | [] => []
  | seg :: segs' =>
      match seg_ByteRangeLength seg with
      | Some size => (size, Milliseconds (seg_Duration seg)) :: byteRange_pairs segs'
      | None => byteRange_pairs segs'
      end
  end.

Fixpoint url_pairs `{UrlLib} (u : string) (segs : list MediaSegment) : list (string * Z) :=
  match segs with
  | [] => []
  | seg :: segs' =>
      match seg_ByteRangeLength seg with
      | Some _ => url_pairs u segs'
      | None => (resolveReference u (seg_URI seg), Milliseconds (seg_Duration seg))
                  :: url_pairs u segs'
      end
  end.

Definition hasByteRange (seg : MediaSegment) : bool :=
  match seg_ByteRangeLength seg with
  | Some _ => true
  | None => false
  end.

(** Durations and byte-range lengths are not negative. *)
Definition segment_nonneg (seg : MediaSegment) : Prop :=
  0 <= seg_Duration seg /\
  match seg_ByteRangeLength seg with
  | Some size => 0 <= size
  | None => True
  end.

(** A master playlist with three entries and the media playlists behind
    them: byte ranges on every segment, on none, and on the second only. *)
Definition c6_master : list MultivariantVariant :=
  [MkMultivariantVariant 2500000 ["avc1.64001f"] "1280x720" "720p.m3u8";
   MkMultivariantVariant 5000000 ["avc1.640028"] "1920x1080" "1080p.m3u8";
   MkMultivariantVariant 800000 ["avc1.42c01e"] "640x360" "mixed.m3u8"].

Definition c6_ranged : list MediaSegment :=
  [MkMediaSegment 4000000000 "720p.ts" (Some 1000);
   MkMediaSegment 2500000000 "720p.ts" (Some 700)].

Definition c6_plain : list MediaSegment :=
  [MkMediaSegment 4000000000 "1080p-0.ts" None;
   MkMediaSegment 2500000000 "1080p-1.ts" None].

Definition c6_mixed : list MediaSegment :=
  [MkMediaSegment 4000000000 "intro.ts" None;
   MkMediaSegment 2500000000 "main.ts" (Some 700)].

Definition c6_world : World := {|
  w_rand := fun _ => 0;
  w_order := fun _ => [];
  w_ctxDone := fun _ => false;
  w_raced := fun errs => (Z.of_nat (length errs), errs);
  w_fetchMPD := fun _ _ => Fail (EMsg "unreachable");
  w_readMPD := fun _ _ => Fail (EMsg "unreachable");
  w_fetchM3U8 := fun _ u =>
    if String.eqb u "https://cdn.example/hls/master.m3u8" then Ok (Multivariant c6_master)
    else if String.eqb u "https://cdn.example/hls/720p.m3u8" then Ok (Media c6_ranged)
    else if String.eqb u "https://cdn.example/hls/1080p.m3u8" then Ok (Media c6_plain)
    else if String.eqb u "https://cdn.example/hls/mixed.m3u8" then Ok (Media c6_mixed)
    else if String.eqb u "https://cdn.example/hls/empty.m3u8" then Ok (Media [])
    else Fail (EMsg "not found");
  w_readM3U8 := fun _ _ => Fail (EMsg "unreachable");
  w_fetchIndex := fun _ _ _ => Fail (EMsg "unreachable");
  w_readRange := fun _ _ _ => Fail (EMsg "unreachable");
  w_boxes := fun _ => Fail (EMsg "unreachable");
  w_head := fun _ u =>
    MkHeadOutcome false
      (if String.eqb u "https://cdn.example/hls/1080p-0.ts" then Ok 812345
       else if String.eqb u "https://cdn.example/hls/1080p-1.ts" then Ok 523456
       else Fail (EMsg "not found")) |}.

(** The first segment of the playlist carries a byte-range length. *)
Definition firstSegmentRanged (segs : list MediaSegment) : Prop :=
  exists seg rest size, segs = seg :: rest /\ seg_ByteRangeLength seg = Some size.

(** The HEAD requests and the sleeps of a goroutine. *)
Fixpoint count_heads (trace : list event) : nat :=
  match trace with
  | [] => O
  | EvHead _ :: trace' => S (count_heads trace')
  | EvSleep _ :: trace' => count_heads trace'
  end.

Fixpoint sleeps (trace : list event) : list Z :=
  match trace with
  | [] => []
  | EvHead _ :: trace' => sleeps trace'
  | EvSleep ms :: trace' => ms :: sleeps trace'
  end.

(** HEAD requests with one sleep between two of them, and none after the
    last. *)
Fixpoint spaced (trace : list event) : Prop :=
  match trace with
  | [EvHead _] => True
  | EvHead _ :: EvSleep _ :: trace' => spaced trace'
  | _ => False
  end.

(** Every attempt on URL number [i] fails, and the context stays alive. *)
Definition all_attempts_fail (w : World) (pos : list nat) (i : nat) : Prop :=
  forall (t : nat) (u : string),
    head_ctxDone (w_head w (pos ++ [i; t]) u) = false /\
    is_Fail (head_result (w_head w (pos ++ [i; t]) u)).

(** One URL, servers to substitute, as [fingerprintExplicit] gets them. *)
Definition c2_info : ExplicitAddressingInfo :=
  MkExplicit "https://$Server$.example/v/seg-$Number$.m4s"
    ["https://$Server$.example/v/seg-1.m4s"] ["a"; "b"; "c"] [2000] 1000.

Definition c2_goroutine : Err Z * list event :=
  head_loop emptyWorld [] 0 (ex_Servers c2_info) "https://$Server$.example/v/seg-1.m4s" 0.

(** Three URLs; the HEADs of [c7_world] answer with their lengths, the
    second only at its third attempt; the goroutines complete in the
    order 2, 0, 1. *)
Definition c7_info : ExplicitAddressingInfo :=
  MkExplicit "https://cdn.example/v/seg-$Number$.m4s"
    ["https://cdn.example/v/seg-1.m4s"; "https://cdn.example/v/seg-2.m4s";
     "https://cdn.example/v/seg-3.m4s"] [] [2000; 2000; 1500] 1000.

Definition c7_world : World := {|
  w_rand := fun _ => 123456789;
  w_order := fun _ => [2; 0; 0]%nat;
  w_ctxDone := fun _ => false;
  w_raced := fun errs => (Z.of_nat (length errs), errs);
  w_fetchMPD := fun _ _ => Fail (EMsg "unreachable");
  w_readMPD := fun _ _ => Fail (EMsg "unreachable");
  w_fetchM3U8 := fun _ _ => Fail (EMsg "unreachable");
  w_readM3U8 := fun _ _ => Fail (EMsg "unreachable");
  w_fetchIndex := fun _ _ _ => Fail (EMsg "unreachable");
  w_readRange := fun _ _ _ => Fail (EMsg "unreachable");
  w_boxes := fun _ => Fail (EMsg "unreachable");
  w_head := fun pos u =>
    MkHeadOutcome false
      (if String.eqb u "https://cdn.example/v/seg-1.m4s" then Ok 812345
       else if String.eqb u "https://cdn.example/v/seg-2.m4s" then
         match pos with
         | [_; 2%nat] => Ok 523456
         | _ => Fail (EMsg "timeout")
         end
       else if String.eqb u "https://cdn.example/v/seg-3.m4s" then Ok 301234
       else Fail (EMsg "not found")) |}.

(** The services of the repository return videos without variants; the
    orchestrator fills the list. *)
Definition videos_without_variants (m : Manager) (url : string) : Prop :=
  forall id ve r,
    m_videoExtractors m !! id = Some ve -> r ∈ ve_VideoExtract ve url ->
    vid_Variants (vr_Video r) = [].

(** A service that delegates to the default extractor and fingerprinter,
    one video with an HLS and a DASH reference.  The HLS master playlist
    has an entry whose media playlist has no segment; the DASH
    SegmentTemplate has the attribute timescale="0". *)
Definition c1_mpd : MPD :=
  MkMPD true []
    [MkPeriod (Ok 3600000000000) [] []
       [MkAdaptationSet "video" []
          [MkRepresentation "video/mp4" "avc1.64001f" 1280 720 1500000 [] None
             (Some (MkSegmentTemplate "seg-$Number$.m4s" (Some 0) None
                      (Some [Some (MkS None 2000 1)])))
             false]]].

Definition c1_world : World := {|
  w_rand := fun _ => 0;
  w_order := fun _ => [];
  w_ctxDone := fun _ => false;
  w_raced := fun errs => (Z.of_nat (length errs), errs);
  w_fetchMPD := fun _ u =>
    if String.eqb u "https://cdn.example/dash/manifest.mpd" then Ok c1_mpd
    else Fail (EMsg "not found");
  w_readMPD := fun _ _ => Fail (EMsg "unreachable");
  w_fetchM3U8 := fun _ u =>
    if String.eqb u "https://cdn.example/hls/master.m3u8" then
      Ok (Multivariant
            [MkMultivariantVariant 5000000 ["avc1.640028"] "1920x1080" "1080p.m3u8";
             MkMultivariantVariant 800000 ["avc1.42c01e"] "640x360" "empty.m3u8"])
    else if String.eqb u "https://cdn.example/hls/1080p.m3u8" then Ok (Media c6_plain)
    else if String.eqb u "https://cdn.example/hls/empty.m3u8" then Ok (Media [])
    else Fail (EMsg "not found");
  w_readM3U8 := fun _ _ => Fail (EMsg "unreachable");
  w_fetchIndex := fun _ _ _ => Fail (EMsg "unreachable");
  w_readRange := fun _ _ _ => Fail (EMsg "unreachable");
  w_boxes := fun _ => Fail (EMsg "unreachable");
  w_head := fun _ u =>
    MkHeadOutcome false
      (if String.eqb u "https://cdn.example/hls/1080p-0.ts" then Ok 812345
       else if String.eqb u "https://cdn.example/hls/1080p-1.ts" then Ok 523456
       else if String.eqb u "https://cdn.example/dash/seg-1.m4s" then Ok 301234
       else if String.eqb u "https://cdn.example/dash/seg-2.m4s" then Ok 298765
       else Fail (EMsg "not found")) |}.

Definition c1_url : string := "https://video.example/watch/1".

Definition c1_videoResult : VideoResult :=
  MkVideoResult (MkVideo "1" "A title" c1_url 3600 [])
    [MkReference "hls-1" "hls" "https://cdn.example/hls/master.m3u8" [];
     MkReference "dash-1" "dash" "https://cdn.example/dash/manifest.mpd" []]
    None.

Definition c1_manager : Manager :=
  MkManager
    {[ "svc" := MkVideoExtractor (fun u => strings_HasPrefix u "https://video.example/")
                  (fun _ => [c1_videoResult]) ]}
    {[ "svc" := @ExtractVariants simpleUrl c1_world ]}
    {[ "svc" := @Fingerprint_default simpleUrl c1_world ]}.

Definition c1_empty_variant : Variant :=
  MkVariant "d4972e303af37b305bedfa602d9627a6" "" "avc1.42c01e" 640 360 800000
    "explicit" None (Some (MkExplicit "" [] [] [] 1000))
    (Some (MkFingerprint [] [] 1000)).

Definition c1_variants : list Variant :=
  [MkVariant "111847440ff1ff4e5bfe5dc5cbb32c5d" "video/mp2t" "avc1.640028" 1920 1080 5000000
     "explicit" None
     (Some (MkExplicit "" ["https://cdn.example/hls/1080p-0.ts";
                           "https://cdn.example/hls/1080p-1.ts"] [] [4000; 2500] 1000))
     (Some (MkFingerprint [812345; 523456] [4000; 2500] 1000));
   c1_empty_variant;
   MkVariant "7909c11086fbae2a4fae396dbab77bc2" "video/mp4" "avc1.64001f" 1280 720 1500000
     "explicit" None
     (Some (MkExplicit "https://cdn.example/dash/seg-$Number$.m4s"
              ["https://cdn.example/dash/seg-1.m4s"; "https://cdn.example/dash/seg-2.m4s"]
              [] [2000; 2000] 0))
     (Some (MkFingerprint [301234; 298765] [2000; 2000] 0))].

Definition c1_video : Video := MkVideo "1" "A title" c1_url 3600 c1_variants.

Definition c1_result : ExtractResult := MkExtractResult "svc" c1_url [c1_video] 0 [].

(** What fingerprinting relies on in an extracted variant: URL and
    duration lists of equal length, and the same for the arrays of an
    embedded fingerprint. *)
Definition fingerprint_aligned (fp : Fingerprint) : Prop :=
  length (fp_SegmentSizes fp) = length (fp_SegmentDurations fp).

Definition sound_variant (v : Variant) : Prop :=
  lists_aligned v /\
  forall fp, v_Fingerprint v = Some fp -> fingerprint_aligned fp.

(** The variants the DASH path puts into a group. *)
Definition dash_variant (v : Variant) : Prop :=
  lists_aligned v /\ v_Fingerprint v = None.

Definition group_of_dash (vg : variantGroup) : Prop :=
  map_Forall (fun _ vs => Forall dash_variant vs) (vg_variants vg).

(** A static MPD with three periods: A (3600 s, bandwidth 2000) and B
    (900 s, bandwidth 6000) with the same [$Number$] template, and C
    (60 s) flagged as an ad. *)
Definition s5_representation (bandwidth : Z) (media : string) (start : Z) (n : Z)
  : RepresentationType :=
  MkRepresentation "video/mp4" "avc1.64001f" 1280 720 bandwidth [] None
    (Some (MkSegmentTemplate media (Some 1000) (Some start) (Some [Some (MkS None 4000 n)])))
    false.

Definition s5_period (duration : Z) (props : list (option string))
    (r : RepresentationType) : Period :=
  MkPeriod (Ok duration) props [] [MkAdaptationSet "video" [] [r]].

Definition s5_mpd : MPD :=
  MkMPD true [Some "https://cdn.example/movie/"]
    [s5_period 3600000000000 [] (s5_representation 2000 "seg-$Number$.m4s" 1 1);
     s5_period 900000000000 [] (s5_representation 6000 "seg-$Number$.m4s" 3 0);
     s5_period 60000000000 [Some "Ad"] (s5_representation 500 "ad-$Number$.m4s" 1 0)].

Definition s5_world : World := {|
  w_rand := fun _ => 0;
  w_order := fun _ => [];
  w_ctxDone := fun _ => false;
  w_raced := fun errs => (Z.of_nat (length errs), errs);
  w_fetchMPD := fun _ u =>
    if String.eqb u "https://cdn.example/movie/manifest.mpd" then Ok s5_mpd
    else Fail (EMsg "not found");
  w_readMPD := fun _ _ => Fail (EMsg "unreachable");
  w_fetchM3U8 := fun _ _ => Fail (EMsg "unreachable");
  w_readM3U8 := fun _ _ => Fail (EMsg "unreachable");
  w_fetchIndex := fun _ _ _ => Fail (EMsg "unreachable");
  w_readRange := fun _ _ _ => Fail (EMsg "unreachable");
  w_boxes := fun _ => Fail (EMsg "unreachable");
  w_head := fun _ _ => MkHeadOutcome false (Ok (-1)) |}.

(** ** Further definitions: the extractors *)

(** What the [$Time$] mode emits for the entries of a timeline: one URL
    per entry, with the entry's [t] for the placeholder. *)
Definition time_URLs (templateURL : string) (ss : list S_t) : list string :=
  map (fun s => strings_Replace1 templateURL "$Time$"
                  (strconv_FormatUint (default 0 (S_T s)))) ss.

(** A [$Time$] template with a nil entry between two entries, the first
    with a repeat count. *)
Definition time_template : SegmentTemplateType :=
  MkSegmentTemplate "seg-$Time$.m4s" (Some 90000) None
    (Some [Some (MkS (Some 0) 180000 3); None; Some (MkS (Some 720000) 90000 0)]).

(** The same timeline without the nil entries. *)
Definition without_nil_entries (st : SegmentTemplateType) : SegmentTemplateType :=
  MkSegmentTemplate (st_Media st) (st_Timescale st) (st_StartNumber st)
    (match st_SegmentTimeline st with
     | Some tl => Some (map Some (entries tl))
     | None => None
     end).

(** The identifier of a variant is the hash of its five identity fields. *)
Definition id_consistent (v : Variant) : Prop :=
  v_ID v = computeID (v_MimeType v) (v_Codecs v) (v_Width v) (v_Height v) (v_Bandwidth v).

(** The payload the addressing mode of a variant announces is there. *)
Definition payload_matches (v : Variant) : Prop :=
  (v_AddressingMode v = "indexed" /\ is_Some (v_IndexedAddressingInfo v)) \/
  (v_AddressingMode v = "explicit" /\ is_Some (v_ExplicitAddressingInfo v)) \/
  (v_AddressingMode v = "fingerprinted" /\ is_Some (v_Fingerprint v)).

(** Every variant of every group satisfies [P]. *)
Definition group_all (P : Variant -> Prop) (vg : variantGroup) : Prop :=
  map_Forall (fun _ vs => Forall P vs) (vg_variants vg).

(** The tests of the loops of [extractMPDVariants] that let an
    adaptation set and a representation through. *)
Definition video_set (aset : AdaptationSetType) : bool :=
  String.eqb (as_ContentType aset) "" || String.eqb (as_ContentType aset) "video".

Definition video_representation (r : RepresentationType) : bool :=
  String.eqb (rep_GetMimeType r) "" || strings_HasPrefix (rep_GetMimeType r) "video".

(** [v] has the MIME type, codecs, width and height of a video
    representation of a period of [m] that is not an ad. *)
Definition from_representation (m : MPD) (v : Variant) : Prop :=
  exists p aset r,
    p ∈ mpd_Periods m /\ isAdPeriod p = false /\
    aset ∈ p_AdaptationSets p /\ video_set aset = true /\
    r ∈ as_Representations aset /\ video_representation r = true /\
    v_MimeType v = rep_GetMimeType r /\ v_Codecs v = rep_GetCodecs r /\
    v_Width v = rep_Width r /\ v_Height v = rep_Height r.

(** The manifest [extractMPDVariants] gets for a reference. *)
Definition manifest_of `{UrlLib} (w : World) (pos : list nat) (reference : Reference)
    (m : MPD) : Prop :=
  if url_isHTTP (ref_URL reference) then
    w_fetchMPD w pos (substServer w pos (ref_URL reference) (ref_Servers reference)) = Ok m
  else w_readMPD w pos (ref_URL reference) = Ok m.

Definition s5_reference : Reference :=
  MkReference "dash-1" "dash" "https://cdn.example/movie/manifest.mpd" [].

Definition s5_variant : Variant :=
  MkVariant (computeID "video/mp4" "avc1.64001f" 1280 720 4000)
    "video/mp4" "avc1.64001f" 1280 720 4000 "explicit" None
    (Some (MkExplicit "https://cdn.example/movie/seg-$Number$.m4s"
             ["https://cdn.example/movie/seg-1.m4s"; "https://cdn.example/movie/seg-2.m4s";
              "https://cdn.example/movie/seg-3.m4s"] [] [4000; 4000; 4000] 1000))
    None.

(** The MIME type the segment loop of [extractM3U8Variant] settles on:
    that of the first segment whose extension it knows. *)
Fixpoint first_mime (segs : list MediaSegment) : string :=
  match segs with
  | [] => ""
  | seg :: segs' =>
      let m := mimeOfExt (filepath_Ext (seg_URI seg)) in
      if String.eqb m "" then first_mime segs' else m
  end.

(** The master playlist [extractM3U8Variants] gets for a reference. *)
Definition master_of `{UrlLib} (w : World) (pos : list nat) (reference : Reference)
    (mvs : list MultivariantVariant) : Prop :=
  if url_isHTTP (ref_URL reference) then
    w_fetchM3U8 w pos (substServer w pos (ref_URL reference) (ref_Servers reference))
    = Ok (Multivariant mvs)
  else w_readM3U8 w pos (ref_URL reference) = Ok (Multivariant mvs).

(** What [extractM3U8Variant] takes from an entry of the master
    playlist. *)
Definition from_entry (mv : MultivariantVariant) (v : Variant) : Prop :=
  v_Bandwidth v = uint32 (mv_Bandwidth mv) /\
  head (mv_Codecs mv) = Some (v_Codecs v) /\
  exists widthStr heightStr,
    strings_Cut (mv_Resolution mv) "x" = (widthStr, heightStr, true) /\
    strconv_ParseUint32 widthStr = Ok (v_Width v) /\
    strconv_ParseUint32 heightStr = Ok (v_Height v).

(** Segments within the two uint32 checks of the segment loop. *)
Definition segment_fits (seg : MediaSegment) : Prop :=
  Milliseconds (seg_Duration seg) <= MaxUint32 /\
  match seg_ByteRangeLength seg with
  | Some size => size <= MaxUint32
  | None => True
  end.

Definition c6_reference : Reference :=
  MkReference "hls-1" "hls" "https://cdn.example/hls/master.m3u8" [].

Definition c6_variants : list Variant :=
  [MkVariant "d09cf0117f32feea77dbc05ca184f830" "video/mp2t" "avc1.64001f" 1280 720 2500000
     "fingerprinted" None None (Some (MkFingerprint [1000; 700] [4000; 2500] 1000));
   MkVariant "111847440ff1ff4e5bfe5dc5cbb32c5d" "video/mp2t" "avc1.640028" 1920 1080 5000000
     "explicit" None
     (Some (MkExplicit "" ["https://cdn.example/hls/1080p-0.ts";
                           "https://cdn.example/hls/1080p-1.ts"] [] [4000; 2500] 1000))
     None;
   MkVariant "20d090cb2d97ebbf177aa5ba76f1edfb" "video/mp2t" "avc1.42c01e" 640 360 800000
     "fingerprinted" None None (Some (MkFingerprint [700] [2500] 1000))].

(** ** Further definitions: the fingerprinter *)

(** The attempts on URL number [i] before attempt [k] all fail, while the
    enclosing context stays alive. *)
Definition attempts_fail_before (w : World) (pos : list nat) (i k : nat) : Prop :=
  forall (t : nat) (u : string), (t < k)%nat ->
    head_ctxDone (w_head w (pos ++ [i; t]) u) = false /\
    is_Fail (head_result (w_head w (pos ++ [i; t]) u)).

(** A world whose HEAD requests time out for the first [k] attempts on a
    URL and then answer with [answer]. *)
Definition flaky_world (k : nat) (answer : HeadOutcome) : World := {|
  w_rand := fun _ => 1234567;
  w_order := fun _ => [];
  w_ctxDone := fun _ => false;
  w_raced := fun errs => (Z.of_nat (length errs), errs);
  w_fetchMPD := fun _ _ => Fail (EMsg "unreachable");
  w_readMPD := fun _ _ => Fail (EMsg "unreachable");
  w_fetchM3U8 := fun _ _ => Fail (EMsg "unreachable");
  w_readM3U8 := fun _ _ => Fail (EMsg "unreachable");
  w_fetchIndex := fun _ _ _ => Fail (EMsg "unreachable");
  w_readRange := fun _ _ _ => Fail (EMsg "unreachable");
  w_boxes := fun _ => Fail (EMsg "unreachable");
  w_head := fun pos _ =>
    match pos with
    | [_; t] => if (t <? k)%nat then MkHeadOutcome false (Fail (EMsg "timeout")) else answer
    | _ => MkHeadOutcome false (Fail (EMsg "timeout"))
    end |}.

(** The index range [fingerprintIndexedMP4] asks for. *)
Definition indexRange_or_default (info : IndexedAddressingInfo) : string :=
  if String.eqb (ix_IndexRange info) "" then "0-65535" else ix_IndexRange info.

(** The bytes of the index [fingerprintIndexedMP4] gets. *)
Definition index_bytes `{UrlLib} (w : World) (pos : list nat) (info : IndexedAddressingInfo)
  : Err (list Z) :=
  if url_isHTTP (ix_URL info)
  then w_fetchIndex w pos (ix_URL info) (indexRange_or_default info)
  else w_readRange w pos (ix_URL info) (indexRange_or_default info).

(** *** [readRange]

    [strconv.ParseUint(s, 10, 64)]: the loop over the bytes of [s], with
    the two overflow tests. *)
Definition MaxUint64 : Z := 18446744073709551615.

Fixpoint parseUint64_loop (n : Z) (s : string) : Err Z :=
  match s with
  | EmptyString => Ok n
  | String c s' =>
      match digit_of_ascii c with
      | None => Fail (EMsg "invalid syntax")
      | Some d =>
          if n >=? MaxUint64 / 10 + 1 then Fail (EMsg "value out of range")
          else if 10 * n + d >? MaxUint64 then Fail (EMsg "value out of range")
          else parseUint64_loop (10 * n + d) s'
      end
  end.

Definition strconv_ParseUint64 (s : string) : Err Z :=
  match s with
  | EmptyString => Fail (EMsg "invalid syntax")
  | _ => parseUint64_loop 0 s
  end.

(** [strconv.ParseInt(s, 10, 64)]: an optional sign, then [ParseUint];
    a range error of [ParseUint] stays a range error. *)
Definition strconv_ParseInt64 (s : string) : Err Z :=
  match s with
  | EmptyString => Fail (EMsg "invalid syntax")
  | String c rest =>
      let neg := Ascii.eqb c "-" in
      let digits := if Ascii.eqb c "+" || neg then rest else s in
      un <-! strconv_ParseUint64 digits ;;
      if negb neg && (un >=? 2 ^ 63) then Fail (EMsg "value out of range")
      else if neg && (un >? 2 ^ 63) then Fail (EMsg "value out of range")
      else Ok (if neg then - un else un)
  end.

(** The files [os.Open] can open, with their bytes. *)
Definition FileSystem : Type := string -> option (list Z).

(** [readRange]: the bytes [start..end] of the file.  [make] panics on a
    negative length; [io.ReadFull] fails when the file ends before the
    buffer is full, and returns at once for an empty buffer.  (An
    allocation that the machine cannot serve is outside the model.) *)
Definition readRange (fs : FileSystem) (filename indexRange : string) : Err (list Z) :=
  let '(startStr, endStr, _) := strings_Cut indexRange "-" in
  start <-! strconv_ParseInt64 startStr ;;
  end_ <-! strconv_ParseInt64 endStr ;;
  match fs filename with
  | None => Fail (EMsg "open")
  | Some content =>
      if start <? 0 then Fail (EMsg "seek: invalid argument")
      else
        let n := int64 (end_ - start + 1) in
        if n <? 0 then Fail EPanic
        else
          let rest := drop (Z.to_nat start) content in
          if n =? 0 then Ok []
          else if Z.of_nat (length rest) <? n then
            Fail (EMsg (match rest with [] => "EOF" | _ => "unexpected EOF" end))
          else Ok (take (Z.to_nat n) rest)
  end.

(** A world whose local files are those of [fs]. *)
Definition reads_files (fs : FileSystem) (w : World) : Prop :=
  forall pos filename indexRange,
    w_readRange w pos filename indexRange = readRange fs filename indexRange.

(** A file of five bytes, and a world that reads it and finds a SIDX box
    with two references in whatever it is given. *)
Definition small_fs : FileSystem :=
  fun name => if String.eqb name "clip.mp4" then Some [10; 11; 12; 13; 14] else None.

Definition small_sidx : Sidx :=
  MkSidx 90000 [MkSidxReference 812345 180000; MkSidxReference 523456 90000].

Definition small_world : World := {|
  w_rand := fun _ => 0;
  w_order := fun _ => [];
  w_ctxDone := fun _ => false;
  w_raced := fun errs => (Z.of_nat (length errs), errs);
  w_fetchMPD := fun _ _ => Fail (EMsg "unreachable");
  w_readMPD := fun _ _ => Fail (EMsg "unreachable");
  w_fetchM3U8 := fun _ _ => Fail (EMsg "unreachable");
  w_readM3U8 := fun _ _ => Fail (EMsg "unreachable");
  w_fetchIndex := fun _ _ _ => Fail (EMsg "unreachable");
  w_readRange := fun _ => readRange small_fs;
  w_boxes := fun _ => Ok [Some small_sidx];
  w_head := fun _ _ => MkHeadOutcome false (Fail (EMsg "unreachable")) |}.

(** Three goroutines of [fingerprintExplicit]: the answer comes at the
    fourth attempt; the context is done after the third; the third
    attempt gets a content length of 2^32. *)
Definition recovering_goroutine : Err Z * list event :=
  head_loop (flaky_world 3 (MkHeadOutcome false (Ok 812345))) [] 0 []
    "https://cdn.example/v/seg-1.m4s" 0.

Definition canceled_goroutine : Err Z * list event :=
  head_loop (flaky_world 2 (MkHeadOutcome true (Fail (EMsg "canceled")))) [] 0 []
    "https://cdn.example/v/seg-1.m4s" 0.

(** ** Further definitions: service.go *)

(** *** Registration

    [URLExtractor]: what [ExtractURLs] returns at a call position. *)
Definition URLExtractor : Type := list nat -> Err (list string).

(** A client as [register] sees it: its ID and, for each of the four
    interfaces, the implementation when the type of the client has it
    (the type assertions [c.(URLExtractor)] and so on). *)
Record Client := MkClient {
  c_ID : string;
  c_URLExtractor : option URLExtractor;
  c_VideoExtractor : option VideoExtractor;
  c_VariantExtractor : option VariantExtractor;
  c_Fingerprinter : option Fingerprinter }.

(** The five maps of [Manager]; [Manager] above is the three of them
    that [Extract] reads. *)
Record Registry := MkRegistry {
  reg_clients : gmap string Client;
  reg_urlExtractors : gmap string URLExtractor;
  reg_videoExtractors : gmap string VideoExtractor;
  reg_variantExtractors : gmap string VariantExtractor;
  reg_fingerprinters : gmap string Fingerprinter }.

Definition manager_of (r : Registry) : Manager :=
  MkManager (reg_videoExtractors r) (reg_variantExtractors r) (reg_fingerprinters r).

(** [if x, ok := c.(I); ok { m[id] = x }]. *)
Definition insert_if {A} (id : string) (x : option A) (m : gmap string A) : gmap string A :=
  match x with
  | Some a => <[id := a]> m
  | None => m
  end.

(** [register], on the client the constructor returned; [None] is
    [log.Fatalf], which ends the process. *)
Definition register (r : Registry) (c : Client) : option Registry :=
  let id := c_ID c in
  match reg_clients r !! id with
  | Some _ => None
  | None =>
      Some (MkRegistry (<[id := c]> (reg_clients r))
              (insert_if id (c_URLExtractor c) (reg_urlExtractors r))
              (insert_if id (c_VideoExtractor c) (reg_videoExtractors r))
              (insert_if id (c_VariantExtractor c) (reg_variantExtractors r))
              (insert_if id (c_Fingerprinter c) (reg_fingerprinters r)))
  end.

(** [defaultService]: a variant extractor and a fingerprinter. *)
Definition defaultService `{UrlLib} (w : World) : Client :=
  MkClient "default" None None (Some (ExtractVariants w)) (Some (Fingerprint_default w)).

(** [NewManager]: the empty maps, then [register(newDefaultService)]. *)
Definition NewManager `{UrlLib} (w : World) : option Registry :=
  register (MkRegistry ∅ ∅ ∅ ∅ ∅) (defaultService w).

(** Calls of [Register] in a row, as in [app.New]. *)
Fixpoint Register_all (r : Registry) (cs : list Client) : option Registry :=
  match cs with
  | [] => Some r
  | c :: cs' =>
      match register r c with
      | Some r' => Register_all r' cs'
      | None => None
      end
  end.

(** [NewManager] followed by the calls of [Register]. *)
Definition manager_with `{UrlLib} (w : World) (cs : list Client) : option Registry :=
  match NewManager w with
  | Some r => Register_all r cs
  | None => None
  end.

(** What [register] records for a client. *)
Definition registered (r : Registry) (c : Client) : Prop :=
  reg_clients r !! c_ID c = Some c /\
  reg_urlExtractors r !! c_ID c = c_URLExtractor c /\
  reg_videoExtractors r !! c_ID c = c_VideoExtractor c /\
  reg_variantExtractors r !! c_ID c = c_VariantExtractor c /\
  reg_fingerprinters r !! c_ID c = c_Fingerprinter c.

(** *** [Manager.ExtractURLs] *)

Record URLExtractResult := MkURLExtractResult {
  uer_Service : string;
  uer_URLs : list string }.

Definition Manager_ExtractURLs (r : Registry) (pos : list nat) (service : string)
  : Err URLExtractResult :=
  match reg_urlExtractors r !! service with
  | None => Fail (EMsg "not URL extractor")
  | Some ue =>
      urls <-! wrapE "extract urls" (ue pos) ;;
      Ok (MkURLExtractResult service urls)
  end.

(** *** [Manager.Fingerprint]

    [net/url]: the [Path] field of a parsed URL. *)
Class UrlPath `{UrlLib} := {
  url_Path : URL -> string }.

(** [path.Ext]: as [filepath.Ext] where the separator is the slash. *)
Definition path_Ext (path : string) : string := filepath_Ext path.

Definition getExtension `{UrlPath} (fileOrURL : string) : string :=
  match url_Parse fileOrURL with
  | Fail _ => strings_ToLower (path_Ext fileOrURL)
  | Ok parsedURL => strings_ToLower (path_Ext (url_Path parsedURL))
  end.

Record FingerprintResult := MkFingerprintResult {
  fr_URL : string;
  fr_Variants : option (list Variant);
  fr_Fingerprint : option Fingerprint }.

(** The writes through [&vs[i]] of the goroutines of
    [fingerprintVariants] that succeed, in completion order. *)
Fixpoint store_variants (vs : list Variant) (done : list (nat * Err Variant))
  : list Variant :=
  match done with
  | [] => vs
  | (i, Ok v) :: done' => store_variants (<[i := v]> vs) done'
  | (_, Fail _) :: done' => store_variants vs done'
  end.

Section ManagerFingerprint.
Context `{UrlPath}.
Variable w : World.
Variable m : Manager.

(** The goroutines of [fingerprintVariants], one per variant, in the
    order in which they complete. *)
Definition fingerprint_tasks (pos : list nat) (vs : list Variant)
  : list (nat * Err Variant) :=
  map (fun kv => (fst kv, Manager_fingerprint m (pos ++ [1; fst kv]%nat) "default" (snd kv)))
      (schedule (w_order w (pos ++ [2%nat])) (indexed vs)).

(** [fingerprintVariants].  A missing key gives the nil interface and
    the method call on it panics.  With an error the caller drops the
    list. *)
Definition fingerprintVariants (pos : list nat) (format fileOrURL baseURL : string)
  : Err (list Variant) :=
  ve <-! deref (m_variantExtractors m !! "default") ;;
  vs <-! wrapE "extract variants"
           (ve (pos ++ [O]) (MkReference "" format fileOrURL [baseURL])) ;;
  let done := fingerprint_tasks pos vs in
  match first_error (map snd done) with
  | Some e => Fail e
  | None => Ok (store_variants vs done)
  end.

(** The variant [Manager.Fingerprint] builds for an MP4 file. *)
Definition mp4_variant (fileOrURL indexRange : string) : Variant :=
  MkVariant "" "video/mp4" "" 0 0 0 "indexed" (Some (MkIndexed fileOrURL indexRange))
    None None.

Definition Manager_Fingerprint (pos : list nat) (fileOrURL baseURL indexRange : string)
  : Err FingerprintResult :=
  let ext := getExtension fileOrURL in
  if String.eqb ext ".mpd" then
    vs <-! fingerprintVariants pos "dash" fileOrURL baseURL ;;
    Ok (MkFingerprintResult fileOrURL (Some vs) None)
  else if String.eqb ext ".m3u8" then
    vs <-! fingerprintVariants pos "hls" fileOrURL baseURL ;;
    Ok (MkFingerprintResult fileOrURL (Some vs) None)
  else if String.eqb ext ".mp4" then
    f <-! deref (m_fingerprinters m !! "default") ;;
    match f pos (mp4_variant fileOrURL indexRange) with
    | (fp, None) => Ok (MkFingerprintResult fileOrURL None (Some fp))
    | (_, Some e) => Fail (EWrap "fingerprint" e)
    end
  else Fail (EMsg "unsupported file").

End ManagerFingerprint.

(** The format [Manager.Fingerprint] asks the extractor for. *)
Definition format_of_extension (ext : string) : string :=
  if String.eqb ext ".mpd" then "dash" else "hls".

(** Stand-in for [Path]: what precedes the query. *)
Definition simplePath : @UrlPath simpleUrl :=
  @Build_UrlPath simpleUrl (fun s : string => (strings_Cut s "?").1.1).

(** A video with an HLS reference only. *)
Definition hls_only_videoResult : VideoResult :=
  MkVideoResult (MkVideo "1" "A title" c1_url 3600 [])
    [MkReference "hls-1" "hls" "https://cdn.example/hls/master.m3u8" []] None.

(** The manager of [NewManager] in [c1_world]: the default service only. *)
Definition c1_default_manager : Manager :=
  MkManager ∅
    {[ "default" := @ExtractVariants simpleUrl c1_world ]}
    {[ "default" := @Fingerprint_default simpleUrl c1_world ]}.

(** The manager of [NewManager] in [small_world], and the result of
    fingerprinting the file of [small_fs] with the index range 1-3. *)
Definition small_manager : Manager :=
  MkManager ∅
    {[ "default" := @ExtractVariants simpleUrl small_world ]}
    {[ "default" := @Fingerprint_default simpleUrl small_world ]}.

Definition small_result : FingerprintResult :=
  MkFingerprintResult "clip.mp4" None
    (Some (MkFingerprint [812345; 523456] [180000; 90000] 90000)).

(** The service of [c1_manager] with a second video result, which carries
    an error, and what [Extract] returns for it. *)
Definition one_failure_manager : Manager :=
  MkManager
    {[ "svc" := MkVideoExtractor (fun u => strings_HasPrefix u "https://video.example/")
                  (fun _ => [c1_videoResult;
                             MkVideoResult (MkVideo "" "" "" 0 []) []
                               (Some (EMsg "fetch video"))]) ]}
    {[ "svc" := @ExtractVariants simpleUrl c1_world ]}
    {[ "svc" := @Fingerprint_default simpleUrl c1_world ]}.

Definition one_failure_result : ExtractResult :=
  MkExtractResult "svc" c1_url [c1_video] 1 [EWrap "video extract" (EMsg "fetch video")].

(** ** model.go: [OneTitle] *)

Fixpoint zeros (n : nat) : string :=
  match n with
  | O => ""
  | S n' => String "0" (zeros n')
  end.

(** The verb [%0<width>d] of [fmt]: zeros fill the width, after the sign
    of a negative number; a number with more digits is printed in full. *)
Definition fmt_0d (width : nat) (n : Z) : string :=
  if n <? 0 then
    let digits := strconv_Itoa (- n) in
    ("-" ++ zeros (width - 1 - String.length digits) ++ digits)%string
  else
    let digits := strconv_Itoa n in
    (zeros (width - String.length digits) ++ digits)%string.

Definition OneTitle (main secondary : string) (season episode : Z) : string :=
  let title := main in
  if (season >? 0) || (episode >? 0) then
    let title := (title ++ " S" ++ fmt_0d 3 season ++ "E" ++ fmt_0d 3 episode)%string in
    if negb (String.eqb secondary "") && negb (String.eqb secondary main)
    then (title ++ " " ++ secondary)%string
    else title
  else
    if negb (String.eqb secondary "") && negb (String.eqb secondary main)
    then (title ++ " - " ++ secondary)%string
    else title.

(** What follows the main title when the secondary title is shown. *)
Definition shown_secondary (sep main secondary : string) : string :=
  if String.eqb secondary "" then ""
  else if String.eqb secondary main then ""
  else (sep ++ secondary)%string.

(** ** svt/svt.go *)

Module svt.

(** The answer to the GraphQL query for the catalogue: the programmes of
    [programAtillO.flat], each with its episodes. *)
Record episode := MkEpisode {
  ep_SvtPlay : string;
  ep_HasVideoReferences : bool;
  ep_OnlyAvailableInSweden : bool }.

Definition graphQLURLData : Type := list (list episode).

(** [graphQLError]: the classification. *)
Definition graphQLError : Type := string.

Definition Error (e : graphQLError) : string := ("graphql: " ++ e)%string.

Record graphQLURLResponse := MkURLResponse {
  ur_Data : graphQLURLData;
  ur_Errors : list graphQLError }.

(** The condition under which [urls] keeps the path of an episode. *)
Definition listed (country : string) (e : episode) : bool :=
  let geoBlocked := negb (String.eqb country "SE") && ep_OnlyAvailableInSweden e in
  negb (String.eqb (ep_SvtPlay e) "") && ep_HasVideoReferences e && negb geoBlocked.

Definition paths (country : string) (d : graphQLURLData) : gset string :=
  foldl (fun paths p =>
           foldl (fun paths e => if listed country e then {[ep_SvtPlay e]} ∪ paths else paths)
                 paths p)
        ∅ d.

(** [urls]: [order] is the order in which the map of paths is iterated. *)
Definition urls (order : list nat) (country : string) (d : graphQLURLData) : list string :=
  map (fun path => ("https://www.svtplay.se" ++ path)%string)
      (schedule order (elements (paths country d))).

(** [extractURLs], given what [fetchGraphQLURLs] returns. *)
Definition extractURLs (order : list nat) (country : string)
    (fetched : Err graphQLURLResponse) : Err (list string) :=
  match fetched with
  | Fail e => Fail (EWrap "fetch urls" e)
  | Ok res =>
      match ur_Errors res with
      | e :: _ => Fail (EMsg (Error e))
      | [] => Ok (urls order country (ur_Data res))
      end
  end.

(** The answer to the query for a path: the video of the page and the
    items of its associated content. *)
Record graphQLPathIDsData := MkPathIDsData {
  pd_SvtID : string;
  pd_AssociatedContent : list (list string) }.

Record graphQLPathIDsResponse := MkPathIDsResponse {
  pr_Data : graphQLPathIDsData;
  pr_Errors : list graphQLError }.

Definition idSet (d : graphQLPathIDsData) : gset string :=
  foldl (fun idSet ac =>
           foldl (fun idSet i => if String.eqb i "" then idSet else {[i]} ∪ idSet) idSet ac)
        (if String.eqb (pd_SvtID d) "" then ∅ else {[pd_SvtID d]})
        (pd_AssociatedContent d).

Definition pathIDs (order : list nat) (d : graphQLPathIDsData) : list string :=
  schedule order (elements (idSet d)).

(** [extractPathIDs], given what [fetchGraphQLPathIDs] returns. *)
Definition extractPathIDs (order : list nat)
    (fetched : Err graphQLPathIDsResponse) : Err (list string) :=
  match fetched with
  | Fail e => Fail (EWrap "fetch path ids" e)
  | Ok res =>
      match pr_Errors res with
      | e :: _ => Fail (EMsg (Error e))
      | [] =>
          let ids := pathIDs order (pr_Data res) in
          if (length ids =? 0)%nat then Fail (EMsg "no ids")
          else Ok ids
      end
  end.

(** The entries of [videoReferences] in the answer for a video. *)
Record videoReference := MkVideoReference {
  vref_URL : string;
  vref_Format : string }.

Definition isLetter (c : ascii) : bool :=
  let n := N_of_ascii c in
  ((65 <=? n) && (n <=? 90) || (97 <=? n) && (n <=? 122))%N.

(** [akamaiRe.ReplaceAllString(s, "$$Server$$.akamaized.net")]: every
    match of [[a-zA-Z]\.akamaized\.net], found from left to right without
    overlap, is replaced; [$$] in the replacement stands for a dollar
    sign.  [skip] is the number of characters left of the match just
    replaced. *)
Fixpoint akamai_replace (skip : nat) (s : string) : string :=
  match s with
  | EmptyString => EmptyString
  | String c rest =>
      match skip with
      | S skip' => akamai_replace skip' rest
      | O =>
          if isLetter c && strings_HasPrefix rest ".akamaized.net"
          then ("$Server$.akamaized.net" ++ akamai_replace 14 rest)%string
          else String c (akamai_replace 0 rest)
      end
  end.

Definition akamaiRe_ReplaceAllString (s : string) : string := akamai_replace 0 s.

Definition servers : list string := ["a"; "b"; "c"].

(** [references]: the slice has the length of [videoReferences]; an
    entry whose format is neither DASH nor HLS leaves the zero value. *)
Definition references (videoReferences : list videoReference) : list Reference :=
  map (fun ref =>
         if strings_HasPrefix (vref_Format ref) "dash" then
           MkReference (vref_Format ref) "dash" (akamaiRe_ReplaceAllString (vref_URL ref))
             servers
         else if strings_HasPrefix (vref_Format ref) "hls" then
           MkReference (vref_Format ref) "hls" (akamaiRe_ReplaceAllString (vref_URL ref))
             servers
         else MkReference "" "" "" [])
      videoReferences.

End svt.

(** A catalogue answer: one programme with an episode listed twice, one
    restricted to Sweden and one without path. *)
Definition svt_catalogue : svt.graphQLURLResponse :=
  svt.MkURLResponse
    [[svt.MkEpisode "/video/e1" true false; svt.MkEpisode "/video/e2" true true;
      svt.MkEpisode "" true false];
     [svt.MkEpisode "/video/e1" true false; svt.MkEpisode "/video/e3" false false]]
    [].

(** A DASH reference of SVT on an Akamai host. *)
Definition svt_dash_reference : svt.videoReference :=
  svt.MkVideoReference "https://svt-vod-10a.akamaized.net/d0/world/manifest.mpd" "dash-full".

(** A video of SVT that lists a DASH manifest and subtitles, and a
    manager in which the service [svt] uses the default extractor. *)
Definition svt_mixed_result : VideoResult :=
  MkVideoResult (MkVideo "e1" "A title" "https://www.svtplay.se/video/e1" 3600 [])
    (svt.references
       [svt_dash_reference;
        svt.MkVideoReference "https://svt-vod-10a.akamaized.net/d0/world/text.vtt" "webvtt"])
    None.

Definition svt_manager : Manager :=
  MkManager ∅ {[ "svt" := @ExtractVariants simpleUrl emptyWorld ]} ∅.

(** ** justwatch.go *)

Module justwatch.

Record graphQLError := MkError {
  e_Message : string;
  e_Code : string }.

Definition Error (e : graphQLError) : string :=
  ("graphql: " ++ e_Code e ++ ": " ++ e_Message e)%string.

(** The answer to the query for popular titles: the [standardWebURL] of
    each edge, the page information and the total count. *)
Record response := MkResponse {
  r_Edges : list string;
  r_EndCursor : string;
  r_HasNextPage : bool;
  r_TotalCount : Z;
  r_Errors : list graphQLError }.

Definition urls (r : response) : list string :=
  filter (fun url => url <> "") (r_Edges r).

Definition maxReturned : Z := 1900.
Definition maxIterations : Z := maxReturned / 100.

(** A request of [fetchGraphQLURLs]: the country and the cursor. *)
Record request := MkRequest {
  q_country : string;
  q_cursor : string }.

Section Pages.
(** What [fetchGraphQLURLs] returns for the filter at hand: the answer to
    request number [i] with the given country and cursor. *)
Variable fetch : nat -> string -> string -> Err response.

(** The loop of [extractURLs] with [n] iterations left; the result comes
    with the requests made. *)
Fixpoint pages (n i : nat) (urls : list string) (cursor country : string)
  : Err (list string) * list request :=
  match n with
  | O => (Fail (EMsg "too many iterations"), [])
  | S n' =>
      let here := MkRequest country cursor in
      match fetch i country cursor with
      | Fail e => (Fail (EWrap "fetch urls" e), [here])
      | Ok res =>
          match r_Errors res with
          | e :: _ =>
              if strings_Contains (e_Message e) "locale" then
                let '(out, requests) := pages n' (S i) urls cursor "US" in
                (out, here :: requests)
              else (Fail (EMsg (Error e)), [here])
          | [] =>
              if r_TotalCount res >? maxReturned then
                (Fail (EMsg "too many titles"), [here])
              else
                let urls := urls ++ justwatch.urls res in
                if negb (r_HasNextPage res) then (Ok urls, [here])
                else
                  let '(out, requests) := pages n' (S i) urls (r_EndCursor res) country in
                  (out, here :: requests)
          end
      end
  end.

Definition extractURLs (country : string) : Err (list string) * list request :=
  pages (Z.to_nat (maxIterations + 1)) 0 [] "" country.

End Pages.

(** The release years of the filters of [ExtractURLs], as pairs of the
    first and the last year, when the current year, which the loop reads
    from the clock, is [year] throughout. *)
Definition filters (year : Z) : list (Z * Z) :=
  map (fun y => (if y =? 1950 then 1900 else y, y)) (seqZ 1950 (year - 1950 + 1)).

(** [ExtractURLs]: one goroutine per filter; [done] is the order in which
    they complete and [order] the order in which the set of addresses is
    iterated. *)
Definition ExtractURLs (fetch : Z * Z -> nat -> string -> string -> Err response)
    (year : Z) (country : string) (done order : list nat) : Err (list string) :=
  let results :=
    map (fun filter => (extractURLs (fetch filter) country).1)
        (schedule done (filters year)) in
  match first_error results with
  | Some e => Fail e
  | None =>
      let urlSet : gset string := list_to_set (concat (successes results)) in
      Ok (schedule order (elements urlSet))
  end.

End justwatch.

(** Pages of titles that follow each other from [cursor]: each one is an
    answer without errors and with at most [maxReturned] titles to a
    request with the country [country] or US and the end cursor of the
    page before; the last one, and only it, has no next page. *)
Fixpoint paged (fetch : nat -> string -> string -> Err justwatch.response)
    (country cursor : string) (ps : list justwatch.response) : Prop :=
  match ps with
  | [] => False
  | p :: ps' =>
      (exists i c, (c = country \/ c = "US") /\ fetch i c cursor = Ok p) /\
      justwatch.r_Errors p = [] /\
      justwatch.r_TotalCount p <= justwatch.maxReturned /\
      match ps' with
      | [] => justwatch.r_HasNextPage p = false
      | _ => justwatch.r_HasNextPage p = true /\
             paged fetch country (justwatch.r_EndCursor p) ps'
      end
  end.
(** * Properties *)

(** ** MD5 on the test vectors of RFC 1321 *)

Example md5_empty : hex_EncodeToString (md5_Sum (bytes_of_string "")) = "d41d8cd98f00b204e9800998ecf8427e".
Proof. vm_compute. reflexivity. Qed.

Example md5_abc : hex_EncodeToString (md5_Sum (bytes_of_string "abc")) = "900150983cd24fb0d6963f7d28e17f72".
Proof. vm_compute. reflexivity. Qed.

Example md5_long :
  hex_EncodeToString (md5_Sum (bytes_of_string
    "12345678901234567890123456789012345678901234567890123456789012345678901234567890"))
  = "57edf4a22be3c955ac49da2e2107b67a".
Proof. vm_compute. reflexivity. Qed.


(** ** The string functions on the cases the extractors meet *)

Example strings_Replace1_first :
  strings_Replace1 "v/$Number$/seg-$Number$.m4s" "$Number$" "7" = "v/7/seg-$Number$.m4s" /\
  strings_Replace1 "v/seg.m4s" "$Number$" "7" = "v/seg.m4s".
Proof. split; reflexivity. Qed.

Example strings_Cut_resolution :
  strings_Cut "1280x720" "x" = ("1280", "720", true) /\
  strings_Cut "1280" "x" = ("1280", "", false).
Proof. split; reflexivity. Qed.

Example strconv_ParseUint32_bounds :
  strconv_ParseUint32 "4294967295" = Ok 4294967295 /\
  is_Fail (strconv_ParseUint32 "4294967296") /\
  is_Fail (strconv_ParseUint32 "") /\
  is_Fail (strconv_ParseUint32 "+1") /\
  is_Fail (strconv_ParseUint32 "72o").
Proof. repeat split; try reflexivity; eexists; reflexivity. Qed.

Example strconv_Itoa_signs :
  strconv_Itoa 0 = "0" /\ strconv_Itoa 1500000 = "1500000" /\ strconv_Itoa (-5) = "-5".
Proof. repeat split. Qed.

Example filepath_Ext_cases :
  filepath_Ext "hls/1080p/seg-1.ts" = ".ts" /\
  filepath_Ext "v1.2/seg" = "" /\
  filepath_Ext "seg.tar.m4s" = ".m4s" /\
  filepath_Ext "seg" = "".
Proof. repeat split. Qed.

Example uint32_wraps : uint32 (-1) = 4294967295 /\ uint32 4294967296 = 0.
Proof. split; reflexivity. Qed.

(** ** Integer conversions *)

Lemma uint32_id x : 0 <= x <= MaxUint32 -> uint32 x = x.
Proof. unfold uint32, MaxUint32. intros. apply Z.mod_small. lia. Qed.

Lemma int64_id x : MinInt64 <= x <= MaxInt64 -> int64 x = x.
Proof.
  unfold int64, MinInt64, MaxInt64. intros.
  rewrite Z.mod_small by lia. lia.
Qed.

(** ** The error monad *)

Lemma bindE_Ok {A B} (m : Err A) (k : A -> Err B) b :
  bindE m k = Ok b -> exists a, m = Ok a /\ k a = Ok b.
Proof. destruct m; simpl; [eauto | discriminate]. Qed.

Lemma wrapE_Ok {A} msg (m : Err A) a : wrapE msg m = Ok a -> m = Ok a.
Proof. destruct m; simpl; congruence. Qed.

Lemma is_Fail_wrapE {A} msg (m : Err A) : is_Fail m -> is_Fail (wrapE msg m).
Proof. intros [e ->]. simpl. eexists; reflexivity. Qed.

Lemma is_Fail_bindE {A B} (m : Err A) (k : A -> Err B) : is_Fail m -> is_Fail (bindE m k).
Proof. intros [e ->]. simpl. eexists; reflexivity. Qed.

(** ** DASH explicit addressing: the timeline loop *)

Section Timeline.
Context `{UrlLib}.

Lemma emit_numbered_spec tpl d n st :
  MinInt64 <= tl_num st -> tl_num st + Z.of_nat n <= MaxInt64 ->
  emit_numbered tpl d n st =
  MkTimeline
    (tl_URLs st ++ map (fun k => strings_Replace1 tpl "$Number$"
                                   (strconv_Itoa (tl_num st + Z.of_nat k))) (seq 0 n))
    (tl_SegmentDurations st ++ repeat (uint32 d) n)
    (tl_num st + Z.of_nat n).
Proof.
  revert st. induction n as [|n IH]; intros st Hlo Hhi.
  - simpl. rewrite !app_nil_r, Z.add_0_r. by destruct st.
  - cbn [emit_numbered].
    rewrite int64_id by (unfold MinInt64, MaxInt64 in *; lia).
    rewrite IH by (simpl; lia). simpl.
    rewrite <- !app_assoc. simpl. f_equal.
    + f_equal. rewrite Z.add_0_r. f_equal.
      rewrite <- seq_shift, map_map. apply map_ext. intros k. do 2 f_equal. lia.
    + lia.
Qed.

Lemma timeline_loop_app tpl tp st l1 l2 :
  timeline_loop tpl tp st (l1 ++ l2) =
  bindE (timeline_loop tpl tp st l1) (fun st' => timeline_loop tpl tp st' l2).
Proof.
  revert st. induction l1 as [|s l1 IH]; intros st; simpl; [done|].
  destruct (timeline_step tpl tp st s); simpl; [apply IH | done].
Qed.

(** An entry whose duration does not fit makes the loop fail, whatever
    the placeholder. *)
Lemma timeline_loop_overflow tpl tp tl st s :
  Some s ∈ tl -> S_D s > MaxUint32 -> is_Fail (timeline_loop tpl tp st tl).
Proof.
  intros Hin Hd. revert st. induction tl as [|x tl IH]; intros st.
  - by apply elem_of_nil in Hin.
  - simpl. apply elem_of_cons in Hin as [<- | Hin].
    + simpl. destruct (Z.gtb_spec (S_D s) MaxUint32); [|lia].
      simpl. eexists; reflexivity.
    + destruct (timeline_step tpl tp st x) as [st'|e]; simpl.
      * by apply IH.
      * eexists; reflexivity.
Qed.

(** In the [$Number$] mode an entry with a negative repeat makes the
    loop fail. *)
Lemma timeline_loop_negative_repeat tpl tl st s :
  Some s ∈ tl -> S_R s < 0 -> is_Fail (timeline_loop tpl false st tl).
Proof.
  intros Hin Hr. revert st. induction tl as [|x tl IH]; intros st.
  - by apply elem_of_nil in Hin.
  - simpl. apply elem_of_cons in Hin as [<- | Hin].
    + simpl. destruct (S_D s >? MaxUint32); [simpl; eexists; reflexivity|].
      destruct (Z.ltb_spec (S_R s) 0); [|lia].
      simpl. eexists; reflexivity.
    + destruct (timeline_step tpl false st x) as [st'|e]; simpl.
      * by apply IH.
      * eexists; reflexivity.
Qed.

Lemma total_pairs_nonneg ss :
  Forall (fun s => 0 <= S_R s) ss -> 0 <= total_pairs ss.
Proof. induction 1; simpl; lia. Qed.

(** In the [$Number$] mode, entries that pass the two checks are
    materialized as the specification says. *)
Lemma timeline_loop_number tpl tl st :
  Forall (fun s => 0 <= S_R s /\ 0 <= S_D s <= MaxUint32) (entries tl) ->
  0 <= tl_num st -> tl_num st + total_pairs (entries tl) <= MaxInt64 ->
  timeline_loop tpl false st tl =
  Ok (MkTimeline
        (tl_URLs st ++ map fst (spec_number_pairs tpl (tl_num st) (entries tl)))
        (tl_SegmentDurations st ++ map snd (spec_number_pairs tpl (tl_num st) (entries tl)))
        (tl_num st + total_pairs (entries tl))).
Proof.
  revert st. induction tl as [|x tl IH]; intros st Hok Hlo Hhi.
  - simpl. rewrite !app_nil_r, Z.add_0_r. by destruct st.
  - destruct x as [s|]; [|by apply IH].
    cbn [entries] in Hok, Hhi |- *. cbn [total_pairs fold_right] in Hhi |- *.
    fold (total_pairs (entries tl)) in Hhi |- *.
    apply Forall_cons in Hok as [(Hr & Hd0 & Hd) Hok].
    pose proof (total_pairs_nonneg _ (Forall_impl _ _ _ Hok (fun _ P => proj1 P))) as Htot.
    cbn [timeline_loop timeline_step bindE].
    destruct (Z.gtb_spec (S_D s) MaxUint32); [lia|].
    destruct (Z.ltb_spec (S_R s) 0); [lia|].
    assert (HR : int64 (1 + S_R s) = 1 + S_R s).
    { apply int64_id. unfold MinInt64, MaxInt64 in *. lia. }
    rewrite HR. cbn [bindE].
    assert (Hn : Z.of_nat (Z.to_nat (1 + S_R s)) = 1 + S_R s) by lia.
    rewrite emit_numbered_spec by (unfold MinInt64; lia).
    rewrite IH; cbn [tl_num tl_URLs tl_SegmentDurations]; rewrite ?Hn; [|done|lia|lia].
    f_equal. cbn [spec_number_pairs]. rewrite !map_app, <- !app_assoc.
    f_equal.
    + f_equal. f_equal. unfold spec_entry_pairs. by rewrite map_map.
    + f_equal. f_equal.
      unfold spec_entry_pairs. rewrite map_map. cbn [snd].
      rewrite uint32_id by lia.
      generalize (Z.to_nat (1 + S_R s)) as n. intros n.
      generalize 0%nat as a.
      induction n as [|n IHn]; intros a; simpl; [done|]. f_equal. apply IHn.
    + lia.
Qed.
End Timeline.

Lemma spec_entry_pairs_length tpl num s :
  length (spec_entry_pairs tpl num s) = Z.to_nat (1 + S_R s).
Proof. unfold spec_entry_pairs. by rewrite length_map, length_seq. Qed.

(** C3.  A SegmentTemplate with a SegmentTimeline whose media template
    uses [$Number$] (and so not [$Time$], which the code looks for
    first): materialization fails if an entry has r < 0; when every entry
    has r >= 0 and a duration that fits 32 bits, it emits for each entry
    in turn 1 + r URL/duration pairs, the running number starting at
    startNumber (1 by default) and advancing by one per pair. *)
Theorem C3_number_template_materialization `{UrlLib} (u : string)
    (st : SegmentTemplateType) (tl : list (option S_t)) :
  st_SegmentTimeline st = Some tl ->
  strings_Contains (st_Media st) "$Number$" = true ->
  strings_Contains (st_Media st) "$Time$" = false ->
  let startNumber := default 1 (st_StartNumber st) in
  let templateURL := resolveReference u (st_Media st) in
  ((exists s, Some s ∈ tl /\ S_R s < 0) ->
   is_Fail (parseMPDExplicitAddressingInfo u st)) /\
  (Forall (fun s => 0 <= S_R s /\ 0 <= S_D s <= MaxUint32) (entries tl) ->
   0 <= startNumber -> startNumber + total_pairs (entries tl) <= MaxInt64 ->
   exists info,
     parseMPDExplicitAddressingInfo u st = Ok info /\
     ex_URLs info = map fst (spec_number_pairs templateURL startNumber (entries tl)) /\
     ex_SegmentDurations info =
       map snd (spec_number_pairs templateURL startNumber (entries tl))).
Proof.
  intros Htl Hnum Htime startNumber templateURL.
  assert (Hstart : match st_StartNumber st with Some n => n | None => 1 end = startNumber).
  { subst startNumber. by destruct (st_StartNumber st). }
  unfold parseMPDExplicitAddressingInfo. rewrite Htl, Htime, Hnum, Hstart.
  cbn [negb andb]. fold templateURL. split.
  - intros (s & Hin & Hr). apply is_Fail_bindE.
    by eapply timeline_loop_negative_repeat.
  - intros Hok H0 Hhi.
    rewrite timeline_loop_number by done. cbn.
    eexists. split; [reflexivity|]. by cbn.
Qed.

Section C3_example.
Existing Instance simpleUrl.

Lemma C3_number_template_witness :
  exists info,
    parseMPDExplicitAddressingInfo "https://cdn.example/v/" c3_template = Ok info /\
    ex_URLs info = ["https://cdn.example/v/seg-5.m4s"; "https://cdn.example/v/seg-6.m4s";
                    "https://cdn.example/v/seg-7.m4s"; "https://cdn.example/v/seg-8.m4s"] /\
    ex_SegmentDurations info = [1000; 1000; 1000; 500].
Proof.
  destruct (C3_number_template_materialization "https://cdn.example/v/" c3_template
              [Some (MkS None 1000 2); Some (MkS None 500 0)]
              eq_refl eq_refl eq_refl) as [_ Hok].
  destruct Hok as (info & Hp & Hu & Hd).
  - repeat constructor; simpl; unfold MaxUint32; lia.
  - simpl. lia.
  - vm_compute. discriminate.
  - exists info. split; [exact Hp|]. split; [rewrite Hu | rewrite Hd]; reflexivity.
Defined.


End C3_example.
(** C8.  A timeline entry of a representation addressed by a
    SegmentTemplate: a duration above 2^32-1 makes the extraction of the
    representation fail, the entry being refused with the overflow error;
    a duration of exactly 2^32-1 passes the check (the entry can only be
    refused for a missing t or a negative r) and every duration emitted
    for the entry is 2^32-1. *)
Theorem C8_segment_duration_bound `{UrlLib} (w : World) (pos : list nat) (u : string)
    (servers : list string) (r : RepresentationType) (st : SegmentTemplateType)
    (tl : list (option S_t)) (s : S_t) :
  rep_SegmentBase r = None -> rep_SegmentTemplate r = Some st ->
  st_SegmentTimeline st = Some tl -> Some s ∈ tl ->
  (S_D s > MaxUint32 ->
     is_Fail (extractMPDVariant w pos u servers r) /\
     forall tpl tp acc,
       timeline_step tpl tp acc (Some s) = Fail (EMsg "segment duration > uint32")) /\
  (S_D s = MaxUint32 ->
     forall tpl tp acc,
       (is_Fail (timeline_step tpl tp acc (Some s)) <->
        (tp = true /\ S_T s = None) \/ (tp = false /\ S_R s < 0)) /\
       (forall acc', timeline_step tpl tp acc (Some s) = Ok acc' ->
          exists n, (tp = true -> n = 1%nat) /\
            tl_SegmentDurations acc' = tl_SegmentDurations acc ++ repeat MaxUint32 n)).
Proof.
  intros Hbase Htpl Htl Hin. split.
  - intros Hd. split.
    + unfold extractMPDVariant. rewrite Hbase, Htpl.
      apply is_Fail_bindE, is_Fail_wrapE.
      unfold parseMPDExplicitAddressingInfo. rewrite Htl.
      destruct (_ && _); [eexists; reflexivity|].
      apply is_Fail_bindE. by eapply timeline_loop_overflow.
    + intros tpl tp acc. simpl.
      destruct (Z.gtb_spec (S_D s) MaxUint32); [done | lia].
  - intros Hd tpl tp acc. simpl. rewrite Hd.
    change (MaxUint32 >? MaxUint32) with false. cbn iota.
    destruct tp.
    + destruct (S_T s) as [t|]; split.
      * split; [intros [e [=]] | intros [[_ [=]] | [[=] _]]].
      * intros acc' [= <-]. exists 1%nat. split; [done|]. reflexivity.
      * split; [intros _; by left | intros _; eexists; reflexivity].
      * intros acc' [=].
    + destruct (Z.ltb_spec (S_R s) 0); split.
      * split; [intros _; by right | intros _; eexists; reflexivity].
      * intros acc' [=].
      * split; [intros [e [=]] | intros [[[=] _] | [_ ?]]; lia].
      * intros acc' [= <-]. exists (Z.to_nat (int64 (1 + S_R s))). split; [done|].
        generalize (Z.to_nat (int64 (1 + S_R s))) as n. clear.
        intros n. revert acc. induction n as [|n IH]; intros acc; simpl.
        -- by rewrite app_nil_r.
        -- rewrite IH. simpl. by rewrite <- app_assoc.
Qed.

Section C8_example.
Existing Instance simpleUrl.

Lemma C8_segment_duration_bound_witness :
  (exists v info,
     extractMPDVariant emptyWorld [] "https://cdn.example/v/" []
       (c8_representation 4294967295) = Ok v /\
     v_ExplicitAddressingInfo v = Some info /\
     ex_SegmentDurations info = [4294967295]) /\
  is_Fail (extractMPDVariant emptyWorld [] "https://cdn.example/v/" []
             (c8_representation 4294967296)).
Proof.
  split.
  - eexists _, _. vm_compute. repeat split.
  - refine (proj1 (proj1 (C8_segment_duration_bound emptyWorld [] "https://cdn.example/v/" []
              (c8_representation 4294967296) _ _ (MkS None 4294967296 0)
              eq_refl eq_refl eq_refl _) _)).
    + apply list_elem_of_here.
    + reflexivity.
Defined.


End C8_example.
(** ** The multi-period merge *)

Lemma Zsum_cons x l : Zsum (x :: l) = x + Zsum l.
Proof. reflexivity. Qed.

Lemma Zsum_app l1 l2 : Zsum (l1 ++ l2) = Zsum l1 + Zsum l2.
Proof. induction l1 as [|x l1 IH]; [done|]. rewrite <- app_comm_cons, !Zsum_cons, IH. lia. Qed.

Lemma bandwidth_chain_cons sum v vs :
  bandwidth_chain sum (v :: vs) = bandwidth_chain (int64 (sum + v_Bandwidth v)) vs.
Proof. reflexivity. Qed.

Lemma bandwidth_chain_sum sum vs :
  0 <= sum -> Forall (fun v => is_uint32 (v_Bandwidth v)) vs ->
  sum + Zsum (map v_Bandwidth vs) <= MaxInt64 ->
  bandwidth_chain sum vs = sum + Zsum (map v_Bandwidth vs).
Proof.
  intros H0 Hbw. revert sum H0. induction Hbw as [|v vs [Hv0 Hv1] Hbw IH]; intros sum H0 Hhi.
  - simpl. lia.
  - rewrite map_cons, Zsum_cons in *. rewrite bandwidth_chain_cons.
    assert (0 <= Zsum (map v_Bandwidth vs)).
    { clear -Hbw. induction Hbw as [|? ? [? ?]]; [done|].
      rewrite map_cons, Zsum_cons. lia. }
    rewrite int64_id by (unfold MinInt64; lia).
    rewrite IH by lia. lia.
Qed.

Lemma Zsum_uint32_bounds (l : list Z) :
  Forall is_uint32 l -> 0 <= Zsum l <= Z.of_nat (length l) * MaxUint32.
Proof.
  induction 1 as [|x l [? ?] _ IH]; [simpl; lia|].
  rewrite Zsum_cons, length_cons. unfold MaxUint32 in *. lia.
Qed.

Section MergeMembers.

Lemma merge_members_other m sum vs :
  v_AddressingMode m <> "explicit" ->
  merge_members (m, sum) vs = Ok (m, bandwidth_chain sum vs).
Proof.
  intros Hm. apply String.eqb_neq in Hm. revert sum.
  induction vs as [|v vs IH]; intros sum; [done|].
  cbn [merge_members merge_member]. rewrite Hm. cbn [bindE]. apply IH.
Qed.

Lemma merge_members_explicit m mi sum vs :
  v_AddressingMode m = "explicit" -> v_ExplicitAddressingInfo m = Some mi ->
  Forall (fun v => is_Some (v_ExplicitAddressingInfo v)) vs ->
  merge_members (m, sum) vs =
  Ok (set_ExplicitAddressingInfo m
        (Some (MkExplicit (ex_TemplateURL mi)
                 (ex_URLs mi ++ concat (map member_URLs vs))
                 (ex_Servers mi)
                 (ex_SegmentDurations mi ++ concat (map member_SegmentDurations vs))
                 (ex_Timescale mi))),
      bandwidth_chain sum vs).
Proof.
  intros Hm Hmi Hvs. revert m mi sum Hm Hmi.
  induction Hvs as [|v vs [vi Hvi] _ IH]; intros m mi sum Hm Hmi.
  - simpl. rewrite !app_nil_r. destruct m, mi; simpl in *. by subst.
  - cbn [merge_members merge_member].
    rewrite (proj2 (String.eqb_eq _ _) Hm), Hmi, Hvi. cbn [deref bindE].
    erewrite IH; [|done|reflexivity]. cbn.
    unfold member_URLs at 2, member_SegmentDurations at 2. rewrite Hvi.
    by rewrite <- !app_assoc.
Qed.

Lemma merge_members_Ok_inv m sum vs r :
  v_AddressingMode m = "explicit" -> merge_members (m, sum) vs = Ok r ->
  vs = [] \/
  (is_Some (v_ExplicitAddressingInfo m) /\
   Forall (fun v => is_Some (v_ExplicitAddressingInfo v)) vs).
Proof.
  intros Hm. revert m sum Hm. induction vs as [|v vs IH]; intros m sum Hm Hr; [by left|].
  right. cbn [merge_members merge_member] in Hr.
  rewrite (proj2 (String.eqb_eq _ _) Hm) in Hr.
  destruct (v_ExplicitAddressingInfo m) as [mi|] eqn:Hmi; [|done].
  destruct (v_ExplicitAddressingInfo v) as [vi|] eqn:Hvi; [|done].
  cbn [deref bindE] in Hr. split; [done|]. constructor; [by rewrite Hvi|].
  apply IH in Hr as [-> | [_ ?]]; [constructor | done | done].
Qed.

End MergeMembers.

Lemma schedule_Permutation {A} (choices : list nat) (l : list A) :
  schedule choices l ≡ₚ l.
Proof.
  revert l. induction choices as [|c choices IH]; intros l; [done|].
  simpl. destruct (l !! (c mod length l)%nat) as [x|] eqn:Hx.
  - rewrite IH. symmetry. by apply delete_Permutation.
  - destruct l as [|y l]; [done|].
    apply lookup_ge_None in Hx.
    pose proof (Nat.mod_upper_bound c (length (y :: l)) ltac:(done)). lia.
Qed.

Lemma elem_of_schedule {A} (choices : list nat) (l : list A) x :
  x ∈ schedule choices l <-> x ∈ l.
Proof. by rewrite schedule_Permutation. Qed.

(** The result of [merge_group] when it returns. *)
Lemma merge_group_Ok_inv v0 rest m :
  merge_group (v0 :: rest) = Ok m ->
  let mb := set_Bandwidth (set_ExplicitAddressingInfo v0 (merged_info v0 rest))
              (uint32 (Z.quot (bandwidth_chain (int64 (v_Bandwidth v0)) rest)
                              (Z.of_nat (length (v0 :: rest))))) in
  m = if v_Bandwidth mb =? v_Bandwidth v0 then mb
      else set_ID mb (computeID (v_MimeType mb) (v_Codecs mb) (v_Width mb) (v_Height mb)
                        (v_Bandwidth mb)).
Proof.
  unfold merge_group. intros Hm.
  apply bindE_Ok in Hm as ([m' sum] & Hmm & Hm).
  injection Hm as <-.
  assert (m' = set_ExplicitAddressingInfo v0 (merged_info v0 rest) /\
          sum = bandwidth_chain (int64 (v_Bandwidth v0)) rest) as [-> ->]; [|done].
  unfold merged_info.
  destruct (String.eqb_spec (v_AddressingMode v0) "explicit") as [He|He].
  - pose proof (merge_members_Ok_inv _ _ _ _ He Hmm) as [-> | [[i0 Hi0] Hrest]].
    + simpl in Hmm. injection Hmm as <- <-. split; [|done].
      destruct (v_ExplicitAddressingInfo v0) as [i0|] eqn:Hi0.
      * simpl. rewrite !app_nil_r. destruct v0, i0; simpl in *. by subst.
      * destruct v0; simpl in *. by subst.
    + rewrite (merge_members_explicit _ i0) in Hmm by done.
      injection Hmm as <- <-. by rewrite Hi0.
  - rewrite merge_members_other in Hmm by done. injection Hmm as <- <-.
    split; [|done]. by destruct v0.
Qed.

Lemma merge_group_returns vs : mergeable vs -> is_Ok (merge_group vs).
Proof.
  destruct vs as [|v0 rest]; [done|]. intros Hm. unfold merge_group.
  destruct (String.eqb_spec (v_AddressingMode v0) "explicit") as [He|He].
  - destruct rest as [|v1 rest].
    + simpl. eexists; reflexivity.
    + destruct (Hm He ltac:(done)) as [[i0 Hi0] Hrest].
      rewrite (merge_members_explicit _ i0) by done. simpl. eexists; reflexivity.
  - rewrite merge_members_other by done. simpl. eexists; reflexivity.
Qed.

(** The fields of the merged variant. *)
Lemma merge_group_fields v0 rest m :
  merge_group (v0 :: rest) = Ok m ->
  v_MimeType m = v_MimeType v0 /\ v_Codecs m = v_Codecs v0 /\
  v_Width m = v_Width v0 /\ v_Height m = v_Height v0 /\
  v_AddressingMode m = v_AddressingMode v0 /\
  v_IndexedAddressingInfo m = v_IndexedAddressingInfo v0 /\
  v_ExplicitAddressingInfo m = merged_info v0 rest /\
  v_Fingerprint m = v_Fingerprint v0 /\
  v_Bandwidth m = uint32 (Z.quot (bandwidth_chain (int64 (v_Bandwidth v0)) rest)
                            (Z.of_nat (length (v0 :: rest)))) /\
  v_ID m = if v_Bandwidth m =? v_Bandwidth v0 then v_ID v0
           else computeID (v_MimeType m) (v_Codecs m) (v_Width m) (v_Height m)
                  (v_Bandwidth m).
Proof.
  intros Hm. apply merge_group_Ok_inv in Hm. cbv zeta in Hm. subst m.
  generalize (uint32 (Z.quot (bandwidth_chain (int64 (v_Bandwidth v0)) rest)
                        (Z.of_nat (length (v0 :: rest))))) as b.
  generalize (merged_info v0 rest) as mi. intros mi b.
  cbn [set_Bandwidth set_ExplicitAddressingInfo v_Bandwidth v_MimeType v_Codecs v_Width
       v_Height].
  destruct (b =? v_Bandwidth v0) eqn:Hb;
    cbn [set_ID set_Bandwidth set_ExplicitAddressingInfo v_Bandwidth v_MimeType v_Codecs
         v_Width v_Height v_ID v_AddressingMode v_IndexedAddressingInfo
         v_ExplicitAddressingInfo v_Fingerprint];
    rewrite Hb; repeat split; reflexivity.
Qed.

Lemma merged_bandwidth_mean vs :
  vs <> [] -> Forall (fun v => is_uint32 (v_Bandwidth v)) vs ->
  Z.of_nat (length vs) < 2 ^ 31 ->
  forall v0 rest, vs = v0 :: rest ->
  uint32 (Z.quot (bandwidth_chain (int64 (v_Bandwidth v0)) rest) (Z.of_nat (length vs)))
  = Zsum (map v_Bandwidth vs) / Z.of_nat (length vs).
Proof.
  intros _ Hbw Hlen v0 rest ->.
  pose proof (Zsum_uint32_bounds (map v_Bandwidth (v0 :: rest))) as Hsum.
  rewrite length_map in Hsum.
  specialize (Hsum ltac:(by apply Forall_map)).
  apply Forall_cons in Hbw as [[Hv0 Hv1] Hbw].
  rewrite map_cons, Zsum_cons in *. rewrite length_cons in *.
  assert (Hr := Zsum_uint32_bounds (map v_Bandwidth rest) ltac:(by apply Forall_map)).
  rewrite length_map in Hr.
  rewrite int64_id by (unfold MinInt64, MaxInt64, MaxUint32 in *; lia).
  rewrite bandwidth_chain_sum; [|lia|done|unfold MaxInt64, MaxUint32 in *; nia].
  rewrite Z.quot_div_nonneg by lia.
  apply uint32_id. split.
  - apply Z.div_pos; lia.
  - apply Z.div_le_upper_bound; lia.
Qed.

Lemma merge_in_elem vg groups out m :
  merge_in vg groups = Ok out -> m ∈ out ->
  exists k vs, (k, vs) ∈ groups /\
    ~ (default 0 (vg_durations vg !! k) < vg_maxDuration vg) /\
    merge_group vs = Ok m.
Proof.
  revert out. induction groups as [|[k vs] groups IH]; intros out Hout Hin.
  - injection Hout as <-. by apply elem_of_nil in Hin.
  - cbn [merge_in] in Hout.
    destruct (Z.ltb_spec (default 0 (vg_durations vg !! k)) (vg_maxDuration vg)).
    + destruct (IH _ Hout Hin) as (k' & vs' & ? & ? & ?).
      exists k', vs'. split; [by apply list_elem_of_further | done].
    + apply bindE_Ok in Hout as (m0 & Hm0 & Hout).
      apply bindE_Ok in Hout as (merged & Hmerged & Hout).
      injection Hout as <-. apply elem_of_cons in Hin as [-> | Hin].
      * exists k, vs. split; [apply list_elem_of_here|]. split; [lia | done].
      * destruct (IH _ Hmerged Hin) as (k' & vs' & ? & ? & ?).
        exists k', vs'. split; [by apply list_elem_of_further | done].
Qed.

Lemma merge_elem w pos vg out m :
  merge w pos vg = Ok out -> m ∈ out ->
  exists k v0 rest, vg_variants vg !! k = Some (v0 :: rest) /\
    ~ (default 0 (vg_durations vg !! k) < vg_maxDuration vg) /\
    merge_group (v0 :: rest) = Ok m.
Proof.
  intros Hout Hin. destruct (merge_in_elem _ _ _ _ Hout Hin) as (k & vs & Hk & Hd & Hm).
  apply elem_of_schedule, elem_of_map_to_list in Hk.
  destruct vs as [|v0 rest]; [done|]. by exists k, v0, rest.
Qed.

Example c4_merge : merge emptyWorld [] c4_group = Ok [c4_merged].
Proof. vm_compute. reflexivity. Qed.

Example c4_add_all : add_all newVariantGroup c4_items = Ok c4_group.
Proof.
  vm_compute add_all. unfold c4_group. repeat f_equal.
Qed.

Example c4_id_recomputed :
  v_Bandwidth c4_merged = 2000 /\
  v_ID c4_merged = "b894016d2212117bd14523d8b4dd9581" /\
  v_ID (fst (hd (c4_merged, 0) c4_items)) = "ac764b1547f6992aeb37e46ccdf19f7f".
Proof. vm_compute. repeat split. Qed.

(** C4.  A variant in the output of the merge comes from a group that
    survived; its bandwidth is the sum of the members' bandwidths divided
    by their number, truncated; its MIME type, codecs, width and height
    are those of the first member; and its identifier is the MD5 hex of
    these five fields (joined by hyphens, the numbers in decimal) when
    the bandwidth differs from the first member's (otherwise it is still
    the first member's identifier).  Bandwidths are 32-bit values and a
    group has fewer than 2^31 members. *)
Theorem C4_merged_bandwidth_and_id (w : World) (pos : list nat) (vg : variantGroup)
    (out : list Variant) (m : Variant) :
  merge w pos vg = Ok out -> m ∈ out ->
  map_Forall (fun _ vs => Forall (fun v => is_uint32 (v_Bandwidth v)) vs /\
                          Z.of_nat (length vs) < 2 ^ 31) (vg_variants vg) ->
  exists k v0 rest,
    vg_variants vg !! k = Some (v0 :: rest) /\
    ~ (default 0 (vg_durations vg !! k) < vg_maxDuration vg) /\
    v_Bandwidth m =
      Z.quot (Zsum (map v_Bandwidth (v0 :: rest))) (Z.of_nat (length (v0 :: rest))) /\
    v_MimeType m = v_MimeType v0 /\ v_Codecs m = v_Codecs v0 /\
    v_Width m = v_Width v0 /\ v_Height m = v_Height v0 /\
    (v_Bandwidth m <> v_Bandwidth v0 ->
     v_ID m = computeID (v_MimeType m) (v_Codecs m) (v_Width m) (v_Height m)
                (v_Bandwidth m) /\
     v_ID m = hex_EncodeToString
                (md5_Sum (bytes_of_string
                   (v_MimeType m ++ "-" ++ v_Codecs m ++ "-" ++
                    strconv_Itoa (v_Width m) ++ "-" ++ strconv_Itoa (v_Height m) ++ "-" ++
                    strconv_Itoa (v_Bandwidth m))%string))) /\
    (v_Bandwidth m = v_Bandwidth v0 -> v_ID m = v_ID v0).
Proof.
  intros Hout Hin Hbw.
  destruct (merge_elem _ _ _ _ _ Hout Hin) as (k & v0 & rest & Hk & Hd & Hm).
  exists k, v0, rest. split; [done|]. split; [done|].
  destruct (Hbw _ _ Hk) as [Hu Hlen].
  destruct (merge_group_fields _ _ _ Hm)
    as (Hmime & Hcodecs & Hwidth & Hheight & _ & _ & _ & _ & Hb & Hid).
  rewrite (merged_bandwidth_mean (v0 :: rest)) in Hb by done.
  rewrite Z.quot_div_nonneg;
    [|apply (Zsum_uint32_bounds (map v_Bandwidth (v0 :: rest))); by apply Forall_map
     |rewrite length_cons; lia].
  repeat (split; [done|]).
  destruct (Z.eqb_spec (v_Bandwidth m) (v_Bandwidth v0)); split; intros; done.
Qed.

Lemma C4_merged_bandwidth_and_id_witness :
  merge emptyWorld [] c4_group = Ok [c4_merged] /\
  v_Bandwidth c4_merged = 2000 /\
  v_ID c4_merged = "b894016d2212117bd14523d8b4dd9581" /\
  exists k v0 rest,
    vg_variants c4_group !! k = Some (v0 :: rest) /\
    ~ (default 0 (vg_durations c4_group !! k) < vg_maxDuration c4_group) /\
    v_Bandwidth c4_merged =
      Z.quot (Zsum (map v_Bandwidth (v0 :: rest))) (Z.of_nat (length (v0 :: rest))) /\
    v_MimeType c4_merged = v_MimeType v0 /\ v_Codecs c4_merged = v_Codecs v0 /\
    v_Width c4_merged = v_Width v0 /\ v_Height c4_merged = v_Height v0 /\
    (v_Bandwidth c4_merged <> v_Bandwidth v0 ->
     v_ID c4_merged = computeID (v_MimeType c4_merged) (v_Codecs c4_merged)
                        (v_Width c4_merged) (v_Height c4_merged) (v_Bandwidth c4_merged) /\
     v_ID c4_merged = hex_EncodeToString
                (md5_Sum (bytes_of_string
                   (v_MimeType c4_merged ++ "-" ++ v_Codecs c4_merged ++ "-" ++
                    strconv_Itoa (v_Width c4_merged) ++ "-" ++
                    strconv_Itoa (v_Height c4_merged) ++ "-" ++
                    strconv_Itoa (v_Bandwidth c4_merged))%string))) /\
    (v_Bandwidth c4_merged = v_Bandwidth v0 -> v_ID c4_merged = v_ID v0).
Proof.
  split; [exact c4_merge|]. split; [reflexivity|]. split; [reflexivity|].
  apply (C4_merged_bandwidth_and_id emptyWorld [] c4_group [c4_merged] c4_merged).
  - exact c4_merge.
  - apply list_elem_of_here.
  - apply map_Forall_singleton. split.
    + repeat constructor; vm_compute; discriminate.
    + vm_compute. reflexivity.
Defined.

Lemma concat_members_aligned vs :
  Forall lists_aligned vs ->
  length (concat (map member_URLs vs)) = length (concat (map member_SegmentDurations vs)).
Proof.
  induction 1 as [|v vs Hv _ IH]; [done|].
  cbn [map concat]. rewrite !length_app, IH. unfold lists_aligned in Hv. lia.
Qed.

(** The merge appends URLs and durations from the same members in the
    same order. *)
Lemma merged_info_aligned v0 rest info :
  Forall lists_aligned (v0 :: rest) -> merged_info v0 rest = Some info ->
  length (ex_URLs info) = length (ex_SegmentDurations info) /\
  (v_AddressingMode v0 = "explicit" ->
   ex_URLs info = concat (map member_URLs (v0 :: rest)) /\
   ex_SegmentDurations info = concat (map member_SegmentDurations (v0 :: rest))).
Proof.
  intros Hal Hmi. apply Forall_cons in Hal as [Hal0 Halr].
  unfold merged_info in Hmi. unfold lists_aligned in Hal0.
  destruct (String.eqb_spec (v_AddressingMode v0) "explicit") as [He|He].
  - destruct (v_ExplicitAddressingInfo v0) as [i0|] eqn:Hi0; [|done].
    injection Hmi as <-. cbn [ex_URLs ex_SegmentDurations].
    unfold member_URLs, member_SegmentDurations in Hal0. rewrite Hi0 in Hal0.
    split.
    + rewrite !length_app, (concat_members_aligned rest) by done. lia.
    + intros _. cbn [map concat].
      assert (member_URLs v0 = ex_URLs i0) as -> by (unfold member_URLs; by rewrite Hi0).
      assert (member_SegmentDurations v0 = ex_SegmentDurations i0) as ->
        by (unfold member_SegmentDurations; by rewrite Hi0).
      done.
  - unfold member_URLs, member_SegmentDurations in Hal0. rewrite Hmi in Hal0.
    split; [done | congruence].
Qed.

(** C10.  A variant in the output of the merge, from a group whose
    members each have URL and duration lists of equal length: its own URL
    and duration lists have equal length; for an explicit-addressing
    variant they are the members' lists concatenated in member order. *)
Theorem C10_merged_lists_equal_length (w : World) (pos : list nat) (vg : variantGroup)
    (out : list Variant) (m : Variant) (info : ExplicitAddressingInfo) :
  merge w pos vg = Ok out -> m ∈ out ->
  map_Forall (fun _ vs => Forall lists_aligned vs) (vg_variants vg) ->
  v_ExplicitAddressingInfo m = Some info ->
  length (ex_URLs info) = length (ex_SegmentDurations info) /\
  exists k vs,
    vg_variants vg !! k = Some vs /\
    (v_AddressingMode m = "explicit" ->
     ex_URLs info = concat (map member_URLs vs) /\
     ex_SegmentDurations info = concat (map member_SegmentDurations vs)).
Proof.
  intros Hout Hin Hal Hinfo.
  destruct (merge_elem _ _ _ _ _ Hout Hin) as (k & v0 & rest & Hk & _ & Hm).
  specialize (Hal _ _ Hk).
  destruct (merge_group_fields _ _ _ Hm) as (_ & _ & _ & _ & Hmode & _ & Hmi & _).
  rewrite Hinfo in Hmi. symmetry in Hmi.
  destruct (merged_info_aligned _ _ _ Hal Hmi) as [Hlen Hcat].
  split; [exact Hlen|]. exists k, (v0 :: rest). split; [done|].
  rewrite Hmode. exact Hcat.
Qed.

Lemma C10_merged_lists_equal_length_witness :
  length ["https://cdn.example/v/seg-1.m4s"; "https://cdn.example/v/seg-2.m4s";
          "https://cdn.example/v/seg-3.m4s"] = length [2000; 2000; 1500] /\
  exists k vs,
    vg_variants c4_group !! k = Some vs /\
    (v_AddressingMode c4_merged = "explicit" ->
     ["https://cdn.example/v/seg-1.m4s"; "https://cdn.example/v/seg-2.m4s";
      "https://cdn.example/v/seg-3.m4s"] = concat (map member_URLs vs) /\
     [2000; 2000; 1500] = concat (map member_SegmentDurations vs)).
Proof.
  apply (C10_merged_lists_equal_length emptyWorld [] c4_group [c4_merged] c4_merged
           (MkExplicit "https://cdn.example/v/seg-$Number$.m4s"
              ["https://cdn.example/v/seg-1.m4s"; "https://cdn.example/v/seg-2.m4s";
               "https://cdn.example/v/seg-3.m4s"] [] [2000; 2000; 1500] 1000)).
  - vm_compute. reflexivity.
  - apply list_elem_of_here.
  - apply map_Forall_singleton. repeat constructor.
  - reflexivity.
Defined.

(** *** The bookkeeping of [add] *)

Lemma foldr_max_spec (l : list Z) :
  0 <= foldr Z.max 0 l /\ Forall (fun x => x <= foldr Z.max 0 l) l /\
  (foldr Z.max 0 l = 0 \/ foldr Z.max 0 l ∈ l).
Proof.
  induction l as [|x l (H0 & Hub & Hat)]; simpl.
  - split; [lia|]. split; [constructor | by left].
  - split; [lia|]. split.
    + constructor; [lia|]. eapply Forall_impl; [exact Hub|]. simpl. lia.
    + destruct (Z.max_spec x (foldr Z.max 0 l)) as [[_ ->] | [_ ->]].
      * destruct Hat as [?|?]; [by left | right; by apply list_elem_of_further].
      * right. apply list_elem_of_here.
Qed.

Lemma foldr_max_unique (l : list Z) (M : Z) :
  0 <= M -> Forall (fun x => x <= M) l -> (M = 0 \/ M ∈ l) -> M = foldr Z.max 0 l.
Proof.
  intros H0 Hub Hat. destruct (foldr_max_spec l) as (H0' & Hub' & Hat').
  apply Z.le_antisymm.
  - destruct Hat as [->|Hin]; [done|].
    by apply (proj1 (Forall_forall _ _) Hub').
  - destruct Hat' as [->|Hin]; [done|].
    by apply (proj1 (Forall_forall _ _) Hub).
Qed.

Lemma add_all_app vg l1 l2 :
  add_all vg (l1 ++ l2) = bindE (add_all vg l1) (fun vg' => add_all vg' l2).
Proof.
  revert vg. induction l1 as [|[v d] l1 IH]; intros vg; [done|].
  cbn [app add_all]. destruct (add vg v d); simpl; [apply IH | done].
Qed.

Lemma group_members_app items1 items2 k :
  group_members (items1 ++ items2) k = group_members items1 k ++ group_members items2 k.
Proof. apply filter_app. Qed.

Lemma group_members_single v d k :
  group_members [(v, d)] k = if decide (variantKey v = Ok k) then [(v, d)] else [].
Proof.
  unfold group_members. rewrite filter_cons, filter_nil. simpl.
  by destruct (decide (variantKey v = Ok k)).
Qed.

Lemma group_total_snoc items v d k k' :
  variantKey v = Ok k ->
  group_total (items ++ [(v, d)]) k' =
  group_total items k' + (if decide (k' = k) then d else 0).
Proof.
  intros Hk. unfold group_total.
  rewrite group_members_app, map_app, Zsum_app, group_members_single, Hk.
  destruct (decide (k' = k)) as [->|Hne].
  - rewrite decide_True by done. simpl. lia.
  - rewrite decide_False by congruence. simpl. lia.
Qed.

Lemma group_total_bounds items k :
  Forall (fun it => 0 <= snd it) items ->
  0 <= group_total items k <= Zsum (map snd items).
Proof.
  unfold group_total, group_members.
  induction 1 as [|[v d] items Hd _ IH]; [simpl; lia|].
  rewrite filter_cons. simpl in *.
  destruct (decide (variantKey v = Ok k)); rewrite ?map_cons, ?Zsum_cons; simpl; lia.
Qed.

Lemma max_total_upper items it k :
  it ∈ items -> variantKey (fst it) = Ok k -> group_total items k <= max_total items.
Proof.
  intros Hin Hk. destruct (foldr_max_spec (map (item_total items) items)) as (_ & Hub & _).
  apply (proj1 (Forall_forall _ _) Hub).
  apply list_elem_of_fmap. exists it. split; [|done].
  unfold item_total. by rewrite Hk.
Qed.

Lemma max_total_snoc items v d k :
  Forall (fun it => 0 <= snd it) items -> 0 <= d -> variantKey v = Ok k ->
  max_total (items ++ [(v, d)]) = Z.max (max_total items) (group_total items k + d).
Proof.
  intros Hd Hd0 Hk. symmetry. apply foldr_max_unique.
  - pose proof (proj1 (foldr_max_spec (map (item_total items) items))).
    unfold max_total. lia.
  - apply Forall_forall. intros x Hx.
    apply list_elem_of_fmap in Hx as (it & -> & Hit).
    unfold item_total. destruct (variantKey (fst it)) as [k'|] eqn:Hk'.
    + rewrite (group_total_snoc _ _ _ _ _ Hk).
      destruct (decide (k' = k)) as [->|Hne]; [lia|].
      apply elem_of_app in Hit as [Hit | Hit].
      * pose proof (max_total_upper _ _ _ Hit Hk'). lia.
      * apply list_elem_of_singleton in Hit as ->. simpl in Hk'. congruence.
    + pose proof (proj1 (foldr_max_spec (map (item_total items) items))).
      pose proof (group_total_bounds items k Hd). unfold max_total. lia.
  - assert (Hnew : group_total items k + d ∈ map (item_total (items ++ [(v, d)]))
                                                 (items ++ [(v, d)])).
    { apply list_elem_of_fmap. exists (v, d). split.
      - unfold item_total. simpl. rewrite Hk, (group_total_snoc _ _ _ _ _ Hk).
        by rewrite decide_True.
      - apply elem_of_app. right. apply list_elem_of_here. }
    destruct (Z.max_spec (max_total items) (group_total items k + d)) as [[_ ->] | [Hlt ->]];
      [by right|].
    destruct (foldr_max_spec (map (item_total items) items)) as (_ & _ & [H0 | Hin]);
      [by left|]. right.
    apply list_elem_of_fmap in Hin as (it & Heq & Hit).
    apply list_elem_of_fmap. exists it. split; [|apply elem_of_app; by left].
    fold (max_total items) in Heq. rewrite Heq.
    unfold item_total. destruct (variantKey (fst it)) as [k'|] eqn:Hk'; [|done].
    rewrite (group_total_snoc _ _ _ _ _ Hk).
    destruct (decide (k' = k)) as [->|Hne]; [|lia].
    unfold item_total in Heq. rewrite Hk' in Heq. lia.
Qed.

Lemma add_all_tracked items :
  Forall (fun it => is_Ok (variantKey (fst it))) items ->
  Forall (fun it => 0 <= snd it) items ->
  Zsum (map snd items) <= MaxInt64 ->
  exists vg, add_all newVariantGroup items = Ok vg /\ tracked items vg.
Proof.
  induction items as [|[v d] items IH] using rev_ind; intros Hkeys Hd Hsum.
  - exists newVariantGroup. split; [done|]. repeat split; intros; apply lookup_empty.
  - apply Forall_app in Hkeys as [Hkeys Hkv]. apply Forall_app in Hd as [Hd Hdv].
    apply (proj1 (Forall_singleton _ _)) in Hkv as [k Hk].
    apply (proj1 (Forall_singleton _ _)) in Hdv. simpl in Hk, Hdv.
    rewrite map_app, Zsum_app in Hsum. cbn in Hsum.
    destruct (IH Hkeys Hd ltac:(lia)) as (vg & Hvg & Hvars & Hdurs & Hmax).
    pose proof (group_total_bounds items k Hd) as Hb.
    rewrite add_all_app, Hvg. cbn [bindE add_all]. unfold add. rewrite Hk. cbn [bindE].
    eexists. split; [reflexivity|].
    assert (Hdk : default 0 (vg_durations vg !! k) = group_total items k).
    { rewrite Hdurs. unfold group_total. by destruct (group_members items k). }
    rewrite Hdk, int64_id by (unfold MinInt64; lia).
    split; [|split]; cbn [vg_variants vg_durations vg_maxDuration].
    + intros k'. rewrite group_members_app, group_members_single, Hk.
      destruct (decide (k = k')) as [<-|Hne].
      * rewrite lookup_insert_eq, decide_True by done. rewrite Hvars.
        destruct (group_members items k) as [|it ms]; [done|].
        cbn. by rewrite map_app.
      * rewrite lookup_insert_ne by done. rewrite decide_False by congruence.
        rewrite app_nil_r. apply Hvars.
    + intros k'. rewrite (group_total_snoc _ _ _ _ _ Hk).
      rewrite group_members_app, group_members_single, Hk.
      destruct (decide (k = k')) as [<-|Hne].
      * rewrite lookup_insert_eq, !decide_True by done.
        by destruct (group_members items k).
      * rewrite lookup_insert_ne by done. rewrite !decide_False by congruence.
        rewrite app_nil_r, Z.add_0_r. apply Hdurs.
    + rewrite Hmax. symmetry. by apply max_total_snoc.
Qed.

Lemma merge_group_key v0 rest m :
  merge_group (v0 :: rest) = Ok m -> variantKey m = variantKey v0.
Proof.
  intros Hm. destruct (merge_group_fields _ _ _ Hm)
    as (_ & _ & _ & _ & Hmode & Hix & Hex & _).
  unfold variantKey. rewrite Hmode, Hix, Hex. unfold merged_info.
  destruct (String.eqb (v_AddressingMode v0) "indexed"); [done|].
  destruct (String.eqb (v_AddressingMode v0) "explicit"); [|done].
  by destruct (v_ExplicitAddressingInfo v0).
Qed.

Lemma merge_in_contributed vg groups :
  NoDup (map fst groups) ->
  Forall (fun kvs => mergeable (snd kvs) /\
                     exists v0 rest, snd kvs = v0 :: rest /\ variantKey v0 = Ok (fst kvs))
         groups ->
  exists out,
    merge_in vg groups = Ok out /\
    (forall k, k ∉ map fst groups -> contributed k out = []) /\
    (forall k vs, (k, vs) ∈ groups ->
       (default 0 (vg_durations vg !! k) < vg_maxDuration vg -> contributed k out = []) /\
       (~ default 0 (vg_durations vg !! k) < vg_maxDuration vg ->
        exists m, merge_group vs = Ok m /\ contributed k out = [m])).
Proof.
  induction groups as [|[k0 vs0] groups IH]; intros Hnd Hwf.
  - exists []. split; [done|]. split; [done|]. intros k vs Hin. by apply elem_of_nil in Hin.
  - apply NoDup_cons in Hnd as [Hk0 Hnd].
    apply Forall_cons in Hwf as [[Hmg (v0 & rest & Hvs0 & Hkey0)] Hwf]. simpl in *.
    destruct (IH Hnd Hwf) as (out & Hout & Hnone & Hsome).
    cbn [merge_in]. rewrite Hout.
    destruct (Z.ltb_spec (default 0 (vg_durations vg !! k0)) (vg_maxDuration vg)) as [Hlt|Hge].
    + exists out. split; [done|]. split.
      * intros k Hk. apply Hnone. intros Hin. apply Hk. by apply list_elem_of_further.
      * intros k vs Hin. apply elem_of_cons in Hin as [[= -> ->] | Hin].
        -- split; [intros _; by apply Hnone | lia].
        -- by apply Hsome.
    + destruct (merge_group_returns _ Hmg) as [m0 Hm0]. rewrite Hm0. cbn [bindE].
      assert (Hkm0 : variantKey m0 = Ok k0).
      { subst vs0. by rewrite (merge_group_key _ _ _ Hm0). }
      exists (m0 :: out). split; [done|]. split.
      * intros k Hk. unfold contributed. rewrite filter_cons.
        rewrite decide_False.
        -- apply Hnone. intros Hin. apply Hk. by apply list_elem_of_further.
        -- rewrite Hkm0. intros [= <-]. apply Hk. apply list_elem_of_here.
      * intros k vs Hin. apply elem_of_cons in Hin as [[= -> ->] | Hin].
        -- split; [lia|]. intros _. exists m0. split; [done|].
           unfold contributed. rewrite filter_cons, decide_True by done.
           f_equal. by apply Hnone.
        -- assert (k <> k0).
           { intros ->. apply Hk0. apply list_elem_of_fmap. by exists (k0, vs). }
           unfold contributed. rewrite filter_cons, decide_False by congruence.
           by apply Hsome.
Qed.

Lemma addressed_key v : addressed v -> is_Ok (variantKey v).
Proof.
  unfold variantKey. intros [[-> [i ->]] | [-> [i ->]]]; simpl; eexists; reflexivity.
Qed.

Lemma addressed_explicit v :
  addressed v -> v_AddressingMode v = "explicit" -> is_Some (v_ExplicitAddressingInfo v).
Proof. intros [[Hm _] | [_ ?]] He; [congruence | done]. Qed.

Lemma elem_of_group_members items k it :
  it ∈ group_members items k <-> it ∈ items /\ variantKey (fst it) = Ok k.
Proof. unfold group_members. rewrite list_elem_of_filter. tauto. Qed.

(** C5.  The calls to [add] of an extraction followed by [merge]: a
    group whose total period duration is below the largest total over
    all groups contributes no variant to the output, and a group whose
    total is the largest contributes exactly one, the merge of its
    members.  Period durations are not negative and their sum fits 64
    bits; the variants carry the payload of their addressing mode, and
    variants with the same key have the same mode (so that the merge does
    not dereference nil). *)
Theorem C5_groups_below_maximum_discarded (w : World) (pos : list nat)
    (items : list (Variant * Z)) :
  Forall (fun it => addressed (fst it)) items ->
  uniform_modes items ->
  Forall (fun it => 0 <= snd it) items ->
  Zsum (map snd items) <= MaxInt64 ->
  exists vg out,
    add_all newVariantGroup items = Ok vg /\
    merge w pos vg = Ok out /\
    forall k, group_members items k <> [] ->
      group_total items k <= max_total items /\
      (group_total items k < max_total items -> contributed k out = []) /\
      (group_total items k = max_total items ->
       exists m, merge_group (map fst (group_members items k)) = Ok m /\
                 contributed k out = [m]).
Proof.
  intros Haddr Hunif Hd Hsum.
  assert (Hkeys : Forall (fun it => is_Ok (variantKey (fst it))) items).
  { eapply Forall_impl; [exact Haddr|]. intros it. apply addressed_key. }
  destruct (add_all_tracked items Hkeys Hd Hsum) as (vg & Hvg & Hvars & Hdurs & Hmax).
  exists vg.
  set (groups := schedule (w_order w pos) (map_to_list (vg_variants vg))).
  assert (Hin : forall k vs, (k, vs) ∈ groups <-> vg_variants vg !! k = Some vs).
  { intros k vs. unfold groups. by rewrite elem_of_schedule, elem_of_map_to_list. }
  assert (Hnd : NoDup (map fst groups)).
  { unfold groups. rewrite schedule_Permutation. apply NoDup_fst_map_to_list. }
  assert (Hwf : Forall (fun kvs => mergeable (snd kvs) /\
                 exists v0 rest, snd kvs = v0 :: rest /\ variantKey v0 = Ok (fst kvs)) groups).
  { apply Forall_forall. intros [k vs] Hk. apply Hin in Hk. rewrite Hvars in Hk.
    destruct (group_members items k) as [|it ms] eqn:Hgm; [done|].
    injection Hk as <-. cbn [fst snd map].
    assert (Hit : it ∈ items /\ variantKey (fst it) = Ok k).
    { apply elem_of_group_members. rewrite Hgm. apply list_elem_of_here. }
    destruct Hit as [Hit Hkit]. split; [|by exists (fst it), (map fst ms)].
    intros Hexp _. split.
    - apply addressed_explicit; [|done].
      by apply (proj1 (Forall_forall _ _) Haddr it).
    - apply Forall_forall. intros v Hv.
      apply list_elem_of_fmap in Hv as (it' & -> & Hit').
      assert (Hit'' : it' ∈ items /\ variantKey (fst it') = Ok k).
      { apply elem_of_group_members. rewrite Hgm. by apply list_elem_of_further. }
      destruct Hit'' as [Hit'' Hkit'].
      apply addressed_explicit; [by apply (proj1 (Forall_forall _ _) Haddr it')|].
      rewrite <- Hexp. apply Hunif; [by apply list_elem_of_fmap_2..|congruence]. }
  destruct (merge_in_contributed vg groups Hnd Hwf) as (out & Hout & _ & Hsome).
  exists out. split; [done|]. split; [exact Hout|].
  intros k Hk.
  assert (Hgk : (k, map fst (group_members items k)) ∈ groups).
  { apply Hin. rewrite Hvars. by destruct (group_members items k). }
  assert (Hdk : default 0 (vg_durations vg !! k) = group_total items k).
  { rewrite Hdurs. by destruct (group_members items k). }
  destruct (Hsome _ _ Hgk) as [Hlt Hge]. rewrite Hdk, Hmax in Hlt, Hge.
  split; [|split].
  - destruct (group_members items k) as [|it ms] eqn:Hgm; [done|].
    assert (Hit : it ∈ items /\ variantKey (fst it) = Ok k).
    { apply elem_of_group_members. rewrite Hgm. apply list_elem_of_here. }
    destruct Hit. by eapply max_total_upper.
  - exact Hlt.
  - intros Heq. apply Hge. lia.
Qed.

Lemma C5_groups_below_maximum_discarded_witness :
  exists vg out,
    add_all newVariantGroup c5_items = Ok vg /\
    merge emptyWorld [] vg = Ok out /\
    forall k, group_members c5_items k <> [] ->
      group_total c5_items k <= max_total c5_items /\
      (group_total c5_items k < max_total c5_items -> contributed k out = []) /\
      (group_total c5_items k = max_total c5_items ->
       exists m, merge_group (map fst (group_members c5_items k)) = Ok m /\
                 contributed k out = [m]).
Proof.
  apply (C5_groups_below_maximum_discarded emptyWorld [] c5_items).
  - unfold c5_items, c4_items. cbn [app].
    repeat (apply Forall_cons_2; [right; split; [reflexivity | eexists; reflexivity]|]).
    apply Forall_nil_2.
  - intros v1 v2 H1 H2 _.
    assert (Hall : forall v, v ∈ map fst c5_items -> v_AddressingMode v = "explicit").
    { intros v Hv. cbn in Hv.
      repeat (apply elem_of_cons in Hv as [-> | Hv]; [reflexivity|]).
      by apply elem_of_nil in Hv. }
    by rewrite !Hall.
  - repeat constructor; simpl; lia.
  - vm_compute. discriminate.
Defined.

Example c5_merge :
  bindE (add_all newVariantGroup c5_items) (merge emptyWorld []) = Ok [c4_merged] /\
  max_total c5_items = 4500000000000 /\
  group_total c5_items "https://ads.example/a/seg-$Number$.m4s" = 60000000000.
Proof. vm_compute. repeat split. Qed.

(** ** The HLS path *)

Section SegmentsLoop.
Context `{UrlLib}.

Lemma Milliseconds_nonneg d : 0 <= d -> 0 <= Milliseconds d.
Proof. intros. unfold Milliseconds. apply Z.quot_pos; lia. Qed.

Lemma segments_loop_spec u st segs fin :
  Forall segment_nonneg segs ->
  segments_loop u st segs = Ok fin ->
  hs_isIndexed fin = hs_isIndexed st || existsb hasByteRange segs /\
  hs_fpSizes fin = hs_fpSizes st ++ map fst (byteRange_pairs segs) /\
  hs_fpDurations fin = hs_fpDurations st ++ map snd (byteRange_pairs segs) /\
  hs_URLs fin = hs_URLs st ++ map fst (url_pairs u segs) /\
  hs_SegmentDurations fin = hs_SegmentDurations st ++ map snd (url_pairs u segs).
Proof.
  intros Hnn. revert st. induction Hnn as [|seg segs [Hd Hs] _ IH]; intros st Hfin.
  - injection Hfin as <-. simpl. rewrite orb_false_r, !app_nil_r. done.
  - cbn [segments_loop] in Hfin. apply bindE_Ok in Hfin as (st' & Hstep & Hfin).
    apply IH in Hfin as (Hi & Hfs & Hfd & Hu & Hsd). clear IH.
    unfold segment_step in Hstep.
    pose proof (Milliseconds_nonneg _ Hd) as Hms.
    destruct (Z.gtb_spec (Milliseconds (seg_Duration seg)) MaxUint32) as [|Hle]; [done|].
    cbn [existsb byteRange_pairs url_pairs]. unfold hasByteRange.
    destruct (seg_ByteRangeLength seg) as [size|].
    + destruct (Z.gtb_spec size MaxUint32) as [|Hsz]; [done|].
      injection Hstep as <-. cbn in Hi, Hfs, Hfd, Hu, Hsd.
      rewrite Hi, Hfs, Hfd, Hu, Hsd, !uint32_id by lia.
      rewrite orb_true_r. cbn. by rewrite <- !app_assoc.
    + injection Hstep as <-. cbn in Hi, Hfs, Hfd, Hu, Hsd.
      rewrite Hi, Hfs, Hfd, Hu, Hsd, !uint32_id by lia.
      cbn. by rewrite <- !app_assoc.
Qed.

Lemma url_pairs_plain u segs :
  existsb hasByteRange segs = false ->
  url_pairs u segs =
  map (fun seg => (resolveReference u (seg_URI seg), Milliseconds (seg_Duration seg))) segs.
Proof.
  induction segs as [|seg segs IH]; [done|]. cbn. unfold hasByteRange.
  destruct (seg_ByteRangeLength seg); [done|]. cbn. intros Hex. by rewrite IH.
Qed.

End SegmentsLoop.

Lemma extractM3U8Variant_inv `{UrlLib} w pos url servers mv variant :
  extractM3U8Variant w pos url servers mv = Ok variant ->
  exists codecs width height segs,
    w_fetchM3U8 w pos (resolveReference url (mv_URI mv)) = Ok (Media segs) /\
    mediaVariant (resolveReference url (mv_URI mv)) servers codecs width height
      (uint32 (mv_Bandwidth mv)) segs = Ok variant.
Proof.
  unfold extractM3U8Variant.
  destruct (strings_Cut (mv_Resolution mv) "x") as [[widthStr heightStr] ok].
  destruct ok; [|done]. cbn [negb].
  intros Hv. apply bindE_Ok in Hv as (width & _ & Hv).
  apply bindE_Ok in Hv as (height & _ & Hv).
  destruct (mv_Bandwidth mv >? MaxUint32); [done|].
  destruct (mv_Codecs mv) as [|codecs ?]; [done|].
  apply bindE_Ok in Hv as (p & Hp & Hv). apply wrapE_Ok in Hp.
  destruct p as [|segs]; [done|]. by exists codecs, width, height, segs.
Qed.

(** The segment loop returns when every duration and byte-range length
    fits 32 bits. *)
Lemma mediaVariant_returns `{UrlLib} u servers codecs width height bandwidth segs :
  Forall (fun seg => Milliseconds (seg_Duration seg) <= MaxUint32 /\
                     match seg_ByteRangeLength seg with
                     | Some size => size <= MaxUint32
                     | None => True
                     end) segs ->
  is_Ok (mediaVariant u servers codecs width height bandwidth segs).
Proof.
  intros Hr. unfold mediaVariant.
  assert (Hloop : forall st, is_Ok (segments_loop u st segs)).
  { induction Hr as [|seg segs [Hd Hs] _ IH]; intros st; [eexists; reflexivity|].
    cbn [segments_loop]. unfold segment_step.
    destruct (Z.gtb_spec (Milliseconds (seg_Duration seg)) MaxUint32); [lia|].
    destruct (seg_ByteRangeLength seg) as [size|].
    - destruct (Z.gtb_spec size MaxUint32); [lia|]. cbn [bindE]. apply IH.
    - cbn [bindE]. apply IH. }
  destruct (Hloop (MkHls "" false [] [] [] [])) as [fin ->]. cbn [bindE].
  destruct (hs_isIndexed fin); eexists; reflexivity.
Qed.

(** C6, as amended.  The variant built from an HLS media playlist has
    addressing mode fingerprinted exactly when some segment (not
    necessarily the first) carries a byte-range length; its embedded
    fingerprint then holds the (byte-range length, duration in ms) pairs
    of the segments that carry one, with timescale 1000.  Otherwise the
    mode is explicit, with the (resolved URL, duration in ms) pairs of
    all segments and timescale 1000. *)
Theorem C6_hls_addressing_mode `{UrlLib} (w : World) (pos : list nat) (url : string)
    (servers : list string) (mv : MultivariantVariant) (segs : list MediaSegment)
    (variant : Variant) :
  w_fetchM3U8 w pos (resolveReference url (mv_URI mv)) = Ok (Media segs) ->
  Forall segment_nonneg segs ->
  extractM3U8Variant w pos url servers mv = Ok variant ->
  let u := resolveReference url (mv_URI mv) in
  (v_AddressingMode variant = "fingerprinted" <-> existsb hasByteRange segs = true) /\
  (v_AddressingMode variant = "explicit" <-> existsb hasByteRange segs = false) /\
  (existsb hasByteRange segs = true ->
   v_Fingerprint variant =
     Some (MkFingerprint (map fst (byteRange_pairs segs)) (map snd (byteRange_pairs segs))
             1000)) /\
  (existsb hasByteRange segs = false ->
   v_ExplicitAddressingInfo variant =
     Some (MkExplicit ""
             (map (fun seg => resolveReference u (seg_URI seg)) segs) servers
             (map (fun seg => Milliseconds (seg_Duration seg)) segs) 1000)).
Proof.
  intros Hfetch Hnn Hv u.
  apply extractM3U8Variant_inv in Hv as (codecs & width & height & segs' & Hfetch' & Hv).
  rewrite Hfetch in Hfetch'. injection Hfetch' as <-. fold u in Hv.
  unfold mediaVariant in Hv. apply bindE_Ok in Hv as (fin & Hfin & Hv).
  apply (segments_loop_spec _ _ _ _ Hnn) in Hfin as (Hi & Hfs & Hfd & Hu & Hsd).
  cbn in Hi, Hfs, Hfd, Hu, Hsd.
  destruct (existsb hasByteRange segs) eqn:Hex; rewrite Hi in Hv; injection Hv as <-; cbn.
  - rewrite Hfs, Hfd. repeat split; try done.
  - rewrite Hu, Hsd, (url_pairs_plain _ _ Hex), !map_map. cbn.
    repeat split; try done.
Qed.

Section C6_example.
Existing Instance simpleUrl.

Lemma C6_hls_addressing_mode_witness :
  exists v1 v2,
    extractM3U8Variant c6_world [] "https://cdn.example/hls/master.m3u8" []
      (MkMultivariantVariant 2500000 ["avc1.64001f"] "1280x720" "720p.m3u8") = Ok v1 /\
    v_AddressingMode v1 = "fingerprinted" /\
    v_Fingerprint v1 = Some (MkFingerprint [1000; 700] [4000; 2500] 1000) /\
    extractM3U8Variant c6_world [] "https://cdn.example/hls/master.m3u8" []
      (MkMultivariantVariant 5000000 ["avc1.640028"] "1920x1080" "1080p.m3u8") = Ok v2 /\
    v_AddressingMode v2 = "explicit" /\
    v_ExplicitAddressingInfo v2 =
      Some (MkExplicit "" ["https://cdn.example/hls/1080p-0.ts";
                           "https://cdn.example/hls/1080p-1.ts"] [] [4000; 2500] 1000).
Proof.
  eexists _, _.
  split; [vm_compute; reflexivity|].
  pose proof (C6_hls_addressing_mode c6_world [] "https://cdn.example/hls/master.m3u8" []
                (MkMultivariantVariant 2500000 ["avc1.64001f"] "1280x720" "720p.m3u8")
                c6_ranged _ eq_refl
                ltac:(repeat constructor; vm_compute; discriminate) eq_refl)
    as (Hm1 & _ & Hf1 & _).
  split; [apply Hm1; reflexivity|]. split; [apply Hf1; reflexivity|].
  split; [vm_compute; reflexivity|].
  pose proof (C6_hls_addressing_mode c6_world [] "https://cdn.example/hls/master.m3u8" []
                (MkMultivariantVariant 5000000 ["avc1.640028"] "1920x1080" "1080p.m3u8")
                c6_plain _ eq_refl
                ltac:(repeat constructor; vm_compute; discriminate) eq_refl)
    as (_ & Hm2 & _ & Hf2).
  split; [apply Hm2; reflexivity|]. apply Hf2; reflexivity.
Defined.

(** C6 as stated fails on a playlist whose first segment has no byte
    range and whose second has one: the variant is fingerprinted, and its
    fingerprint has one pair for two segments. *)
Lemma C6_first_segment_counterexample :
  exists v,
    extractM3U8Variant c6_world [] "https://cdn.example/hls/master.m3u8" []
      (MkMultivariantVariant 800000 ["avc1.42c01e"] "640x360" "mixed.m3u8") = Ok v /\
    w_fetchM3U8 c6_world [] "https://cdn.example/hls/mixed.m3u8" = Ok (Media c6_mixed) /\
    v_Fingerprint v = Some (MkFingerprint [700] [2500] 1000) /\
    ~ (v_AddressingMode v = "fingerprinted" <-> firstSegmentRanged c6_mixed).
Proof.
  eexists. split; [vm_compute; reflexivity|]. split; [reflexivity|].
  split; [reflexivity|]. intros [Hfp _].
  destruct (Hfp eq_refl) as (seg & rest & size & Heq & Hsize).
  injection Heq as <- <-. discriminate.
Qed.


End C6_example.
(** ** The HEAD retry loop *)

Section HeadLoop.
Variable w : World.

Lemma head_loop_body pos i servers u try :
  head_loop w pos i servers u try =
  let u' := substServer w (pos ++ [i; Z.to_nat try; O]) u servers in
  let out := w_head w (pos ++ [i; Z.to_nat try]) u' in
  if head_ctxDone out then (Fail ECanceled, [EvHead u'])
  else match head_result out with
       | Fail e =>
           if Z.ltb try retries then
             let ms := rand_Intn w (pos ++ [i; Z.to_nat try; 1%nat]) maxSleepMS in
             let r := head_loop w pos i servers u' (try + 1) in
             (fst r, EvHead u' :: EvSleep ms :: snd r)
           else (Fail (EWrap "fetch content length" e), [EvHead u'])
       | Ok l =>
           if l >? MaxUint32
           then (Fail (EMsg "content length > uint32"), [EvHead u'])
           else (Ok l, [EvHead u'])
       end.
Proof.
  simp head_loop.
  destruct (Z_lt_dec try retries) as [Hlt|Hge]; simp head_loop; cbv zeta;
    destruct (Z.ltb_spec try retries); try lia; reflexivity.
Qed.

Lemma rand_Intn_range pos n : 0 < n -> 0 <= rand_Intn w pos n < n.
Proof. intros. unfold rand_Intn. by apply Z.mod_pos_bound. Qed.

(** From any [try] between 0 and [retries]: at most [retries + 1 - try]
    HEAD requests, a sleep of less than a second between two of them. *)
Lemma head_loop_trace pos i servers (n : nat) :
  forall u try, 0 <= try <= retries -> retries - try < Z.of_nat n ->
    let r := head_loop w pos i servers u try in
    spaced (snd r) /\
    (count_heads (snd r) <= Z.to_nat (retries + 1 - try))%nat /\
    Forall (fun ms => 0 <= ms < maxSleepMS) (sleeps (snd r)).
Proof.
  unfold retries. induction n as [|n IH]; intros u try Htry Hn; [lia|].
  rewrite head_loop_body. cbv zeta.
  set (u' := substServer w _ u servers).
  destruct (head_ctxDone _); [cbn; split; [done|]; split; [lia | constructor]|].
  destruct (head_result _) as [l|e].
  - destruct (l >? MaxUint32); cbn; (split; [done|]; split; [lia | constructor]).
  - unfold retries. destruct (Z.ltb_spec try 5) as [Hlt|Hge].
    + destruct (IH u' (try + 1) ltac:(lia) ltac:(lia)) as (Hsp & Hc & Hsl).
      cbn [fst snd spaced count_heads sleeps]. split; [exact Hsp|]. split; [lia|].
      constructor; [|exact Hsl]. apply rand_Intn_range. unfold maxSleepMS. lia.
    + cbn. split; [done|]. split; [lia | constructor].
Qed.

(** When every attempt fails, the loop makes all the attempts left and
    returns the error of the last. *)
Lemma head_loop_all_fail pos i servers (n : nat) :
  all_attempts_fail w pos i ->
  forall u try, 0 <= try <= retries -> retries - try < Z.of_nat n ->
    let r := head_loop w pos i servers u try in
    count_heads (snd r) = Z.to_nat (retries + 1 - try) /\
    exists e, fst r = Fail (EWrap "fetch content length" e).
Proof.
  intros Hfail. unfold retries.
  induction n as [|n IH]; intros u try Htry Hn; [lia|].
  rewrite head_loop_body. cbv zeta.
  set (u' := substServer w _ u servers).
  destruct (Hfail (Z.to_nat try) u') as [-> [e ->]].
  unfold retries. destruct (Z.ltb_spec try 5) as [Hlt|Hge].
  - destruct (IH u' (try + 1) ltac:(lia) ltac:(lia)) as (Hc & Hr).
    cbn [fst snd count_heads]. split; [lia | exact Hr].
  - cbn. split; [lia | by exists e].
Qed.

(** A goroutine that returns nil got its content length, at most 2^32-1,
    from the HEAD of one of its attempts while the context was alive. *)
Lemma head_loop_Ok pos i servers (n : nat) :
  forall u try l, 0 <= try <= retries -> retries - try < Z.of_nat n ->
    fst (head_loop w pos i servers u try) = Ok l ->
    l <= MaxUint32 /\
    exists (t : nat) (u' : string),
      (t <= 5)%nat /\ w_head w (pos ++ [i; t]) u' = MkHeadOutcome false (Ok l).
Proof.
  unfold retries. induction n as [|n IH]; intros u try l Htry Hn; [lia|].
  rewrite head_loop_body. cbv zeta.
  set (u' := substServer w _ u servers).
  destruct (w_head w (pos ++ [i; Z.to_nat try]) u') as [done res] eqn:Hout.
  cbn [head_ctxDone head_result].
  destruct done; [done|]. destruct res as [l'|e].
  - destruct (Z.gtb_spec l' MaxUint32); [done|]. cbn. intros [= ->].
    split; [done|]. exists (Z.to_nat try), u'. split; [lia | done].
  - unfold retries. destruct (Z.ltb_spec try 5) as [Hlt|Hge]; [|done].
    cbn [fst]. intros Hl. by apply (IH u' (try + 1)); [lia | lia |].
Qed.

End HeadLoop.

Example c2_all_fail :
  let r := head_loop emptyWorld [] 0 [] "https://cdn.example/v/seg-1.m4s" 0 in
  count_heads (snd r) = 6%nat /\ sleeps (snd r) = [0; 0; 0; 0; 0] /\
  fst r = Fail (EWrap "fetch content length" (EMsg "unreachable")).
Proof. vm_compute. repeat split. Qed.

Lemma elem_of_indexed {A} (l : list A) i x : (i, x) ∈ indexed l <-> l !! i = Some x.
Proof.
  unfold indexed. rewrite elem_of_lookup_imap. split.
  - intros (j & y & [= -> ->] & ?). done.
  - intros ?. by exists i, x.
Qed.

Lemma fst_indexed {A} (l : list A) : map fst (indexed l) = seq 0 (length l).
Proof.
  unfold indexed. apply list_eq. intros i.
  rewrite list_lookup_fmap, list_lookup_imap.
  destruct (l !! i) as [x|] eqn:Hi; cbn.
  - symmetry. apply lookup_seq. split; [done|]. by eapply lookup_lt_Some.
  - symmetry. apply lookup_seq_ge. by apply lookup_ge_None.
Qed.

Lemma elem_of_explicit_tasks w pos info i u :
  ex_URLs info !! i = Some u ->
  (i, head_loop w pos i (ex_Servers info) u 0) ∈ explicit_tasks w pos info.
Proof.
  intros Hu. unfold explicit_tasks. apply list_elem_of_fmap.
  exists (i, u). split; [done|]. by apply elem_of_schedule, elem_of_indexed.
Qed.

(** C2, as amended.  The goroutine of [fingerprintExplicit] for a URL
    makes at most 6 HEAD attempts (the first and up to 5 retries), sleeps
    between two attempts for a whole number of milliseconds in [0, 1000)
    drawn from the random source, and when 6 attempts have failed it
    returns the error of the last without a further attempt. *)
Theorem C2_head_retry_protocol (w : World) (pos : list nat) (info : ExplicitAddressingInfo)
    (i : nat) (u : string) :
  ex_URLs info !! i = Some u ->
  let r := head_loop w pos i (ex_Servers info) u 0 in
  (i, r) ∈ explicit_tasks w pos info /\
  (count_heads (snd r) <= 6)%nat /\
  spaced (snd r) /\
  Forall (fun ms => 0 <= ms < 1000) (sleeps (snd r)) /\
  (all_attempts_fail w pos i ->
   count_heads (snd r) = 6%nat /\
   exists e, fst r = Fail (EWrap "fetch content length" e)).
Proof.
  intros Hu r. split; [by apply elem_of_explicit_tasks|].
  destruct (head_loop_trace w pos i (ex_Servers info) 6 u 0) as (Hsp & Hc & Hsl);
    [unfold retries; lia..|].
  split; [exact Hc|]. split; [exact Hsp|]. split; [exact Hsl|].
  intros Hfail.
  by destruct (head_loop_all_fail w pos i (ex_Servers info) 6 Hfail u 0) as (? & ?);
    [unfold retries; lia..|].
Qed.

Lemma emptyWorld_all_attempts_fail pos i : all_attempts_fail emptyWorld pos i.
Proof. intros t u. split; [reflexivity | eexists; reflexivity]. Qed.

Lemma C2_head_retry_protocol_witness :
  (0%nat, c2_goroutine) ∈ explicit_tasks emptyWorld [] c2_info /\
  (count_heads (snd c2_goroutine) <= 6)%nat /\
  spaced (snd c2_goroutine) /\
  Forall (fun ms => 0 <= ms < 1000) (sleeps (snd c2_goroutine)) /\
  (all_attempts_fail emptyWorld [] 0 ->
   count_heads (snd c2_goroutine) = 6%nat /\
   exists e, fst c2_goroutine = Fail (EWrap "fetch content length" e)).
Proof.
  exact (C2_head_retry_protocol emptyWorld [] c2_info 0
           "https://$Server$.example/v/seg-1.m4s" eq_refl).
Defined.

(** C2 as stated fails: when every HEAD fails the goroutine makes a
    sixth attempt after the fifth failure. *)
Lemma C2_five_attempts_counterexample :
  ex_URLs c2_info !! 0%nat = Some "https://$Server$.example/v/seg-1.m4s" /\
  let r := head_loop emptyWorld [] 0 (ex_Servers c2_info)
             "https://$Server$.example/v/seg-1.m4s" 0 in
  count_heads (snd r) = 6%nat /\ ~ (count_heads (snd r) <= 5)%nat /\
  snd r = [EvHead "https://a.example/v/seg-1.m4s"; EvSleep 0;
           EvHead "https://a.example/v/seg-1.m4s"; EvSleep 0;
           EvHead "https://a.example/v/seg-1.m4s"; EvSleep 0;
           EvHead "https://a.example/v/seg-1.m4s"; EvSleep 0;
           EvHead "https://a.example/v/seg-1.m4s"; EvSleep 0;
           EvHead "https://a.example/v/seg-1.m4s"].
Proof.
  split; [reflexivity|]. cbv zeta.
  assert (Hc : count_heads (snd (head_loop emptyWorld [] 0 (ex_Servers c2_info)
                 "https://$Server$.example/v/seg-1.m4s" 0)) = 6%nat)
    by (vm_compute; reflexivity).
  split; [exact Hc|]. split; [rewrite Hc; lia|]. vm_compute. reflexivity.
Qed.

(** ** [fingerprintExplicit] *)

Lemma store_sizes_length sizes done : length (store_sizes sizes done) = length sizes.
Proof.
  revert sizes. induction done as [|[i [[l|e] tr]] done IH]; intros sizes; cbn; [done| |done].
  by rewrite IH, length_insert.
Qed.

Lemma store_sizes_other sizes done i :
  i ∉ map fst done -> store_sizes sizes done !! i = sizes !! i.
Proof.
  revert sizes. induction done as [|[j [[l|e] tr]] done IH]; intros sizes Hi; cbn; [done|..].
  - cbn in Hi. apply not_elem_of_cons in Hi as [Hne Hi].
    rewrite IH by done. by apply list_lookup_insert_ne.
  - cbn in Hi. apply not_elem_of_cons in Hi as [Hne Hi]. by apply IH.
Qed.

Lemma store_sizes_lookup sizes done i l tr :
  NoDup (map fst done) -> (i < length sizes)%nat -> (i, (Ok l, tr)) ∈ done ->
  store_sizes sizes done !! i = Some (uint32 l).
Proof.
  revert sizes. induction done as [|[j [r tr']] done IH]; intros sizes Hnd Hi Hin.
  - by apply elem_of_nil in Hin.
  - cbn in Hnd. apply NoDup_cons in Hnd as [Hj Hnd].
    apply elem_of_cons in Hin as [[= <- <- <-] | Hin].
    + cbn. rewrite store_sizes_other by done. by apply list_lookup_insert_eq.
    + assert (i <> j).
      { intros ->. apply Hj. apply list_elem_of_fmap. by exists (j, (Ok l, tr)). }
      destruct r as [l'|e]; cbn; apply IH; rewrite ?length_insert; done.
Qed.

Lemma first_error_None {A} (results : list (Err A)) r :
  first_error results = None -> r ∈ results -> is_Ok r.
Proof.
  induction results as [|[a|e] results IH]; intros Hnone Hin.
  - by apply elem_of_nil in Hin.
  - apply elem_of_cons in Hin as [-> | Hin]; [by exists a | by apply IH].
  - done.
Qed.

Lemma explicit_tasks_NoDup w pos info : NoDup (map fst (explicit_tasks w pos info)).
Proof.
  unfold explicit_tasks. rewrite map_map. cbn.
  change (NoDup (map fst (schedule (w_order w pos) (indexed (ex_URLs info))))).
  rewrite schedule_Permutation, fst_indexed. apply NoDup_seq.
Qed.

(** C7.  When [fingerprintExplicit] succeeds, whatever the order in which
    the HEADs complete: SegmentSizes has one slot per URL, and the slot
    of URL number i holds the content length that the goroutine of that
    URL obtained from its HEAD (as a uint32, which is the length itself
    when one was reported, that is when it is not negative);
    SegmentDurations is the variant's duration list and Timescale the
    variant's timescale. *)
Theorem C7_sizes_at_manifest_position (w : World) (pos : list nat)
    (info : ExplicitAddressingInfo) (fp : Fingerprint) :
  fingerprintExplicit w pos info = (fp, None) ->
  length (fp_SegmentSizes fp) = length (ex_URLs info) /\
  fp_SegmentDurations fp = ex_SegmentDurations info /\
  fp_Timescale fp = ex_Timescale info /\
  forall i u, ex_URLs info !! i = Some u ->
    exists l,
      fst (head_loop w pos i (ex_Servers info) u 0) = Ok l /\
      (exists (t : nat) (u' : string),
         (t <= 5)%nat /\ w_head w (pos ++ [i; t]) u' = MkHeadOutcome false (Ok l)) /\
      l <= MaxUint32 /\
      fp_SegmentSizes fp !! i = Some (uint32 l) /\
      (0 <= l -> fp_SegmentSizes fp !! i = Some l).
Proof.
  unfold fingerprintExplicit. intros [= <- Hnone]. cbn.
  rewrite store_sizes_length, length_replicate.
  split; [done|]. split; [done|]. split; [done|].
  intros i u Hu.
  pose proof (elem_of_explicit_tasks w pos info i u Hu) as Hin.
  destruct (first_error_None _ (fst (head_loop w pos i (ex_Servers info) u 0)) Hnone)
    as [l Hl].
  { apply list_elem_of_fmap. by eexists; split; [|exact Hin]. }
  exists l. split; [exact Hl|].
  destruct (head_loop_Ok w pos i (ex_Servers info) 6 u 0 l) as (Hmax & Ht);
    [unfold retries; lia..|exact Hl|].
  split; [exact Ht|]. split; [exact Hmax|].
  assert (Hsz : store_sizes (replicate (length (ex_URLs info)) 0)
                  (explicit_tasks w pos info) !! i = Some (uint32 l)).
  { destruct (head_loop w pos i (ex_Servers info) u 0) as [r tr] eqn:Hr.
    cbn in Hl. subst r.
    eapply store_sizes_lookup; [apply explicit_tasks_NoDup | | exact Hin].
    rewrite length_replicate. by eapply lookup_lt_Some. }
  split; [exact Hsz|]. intros H0. by rewrite Hsz, uint32_id.
Qed.

Example c7_fingerprint :
  fingerprintExplicit c7_world [] c7_info =
  (MkFingerprint [812345; 523456; 301234] [2000; 2000; 1500] 1000, None) /\
  map fst (explicit_tasks c7_world [] c7_info) = [2; 0; 1]%nat.
Proof. vm_compute. split; reflexivity. Qed.

Lemma C7_sizes_at_manifest_position_witness :
  length [812345; 523456; 301234] = length (ex_URLs c7_info) /\
  [2000; 2000; 1500] = ex_SegmentDurations c7_info /\
  1000 = ex_Timescale c7_info /\
  forall i u, ex_URLs c7_info !! i = Some u ->
    exists l,
      fst (head_loop c7_world [] i (ex_Servers c7_info) u 0) = Ok l /\
      (exists (t : nat) (u' : string),
         (t <= 5)%nat /\ w_head c7_world ([] ++ [i; t]) u' = MkHeadOutcome false (Ok l)) /\
      l <= MaxUint32 /\
      [812345; 523456; 301234] !! i = Some (uint32 l) /\
      (0 <= l -> [812345; 523456; 301234] !! i = Some l).
Proof.
  exact (C7_sizes_at_manifest_position c7_world [] c7_info
           (MkFingerprint [812345; 523456; 301234] [2000; 2000; 1500] 1000)
           (proj1 c7_fingerprint)).
Defined.

(** ** The orchestrator *)

Lemma snd_indexed {A} (l : list A) : map snd (indexed l) = l.
Proof.
  unfold indexed. apply list_eq. intros i.
  rewrite list_lookup_fmap, list_lookup_imap.
  by destruct (l !! i).
Qed.

Lemma elem_of_successes {A} (results : list (Err A)) a :
  a ∈ successes results <-> Ok a ∈ results.
Proof.
  induction results as [|[b|e] results IH]; cbn.
  - by rewrite !elem_of_nil.
  - rewrite !elem_of_cons, IH. split; intros [?|?]; [left|right|left|right]; congruence.
  - rewrite elem_of_cons, IH. split; [by right | intros [?|?]; done].
Qed.

Lemma successes_all {A} (results : list (Err A)) :
  first_error results = None -> map Ok (successes results) = results.
Proof.
  induction results as [|[a|e] results IH]; cbn; [done| |done].
  intros Hnone. by rewrite IH.
Qed.

Lemma map_Ok_Forall2 {A B} (f : A -> Err B) (tasks : list A) (done : list B) :
  map Ok done = map f tasks -> Forall2 (fun a b => f a = Ok b) tasks done.
Proof.
  revert done. induction tasks as [|a tasks IH]; intros [|b done] Heq; cbn in Heq.
  - constructor.
  - discriminate.
  - discriminate.
  - injection Heq as Hb Hrest. constructor; [done | by apply IH].
Qed.

Lemma dedupByID_spec seen variants :
  NoDup (map v_ID (dedupByID seen variants)) /\
  (forall id, id ∈ map v_ID (dedupByID seen variants) <->
              id ∈ map v_ID variants /\ id ∉ seen) /\
  dedupByID seen variants `sublist_of` variants.
Proof.
  revert seen. induction variants as [|v variants IH]; intros seen.
  - cbn. split; [constructor|]. split; [|done].
    intros id. rewrite elem_of_nil. tauto.
  - cbn [dedupByID]. destruct (decide (v_ID v ∈ seen)) as [Hin|Hnin].
    + destruct (IH seen) as (Hnd & Hiff & Hsub). split; [done|]. split.
      * intros id. rewrite Hiff. cbn. rewrite elem_of_cons. split; [tauto|].
        intros [[-> | ?] ?]; done.
      * by apply sublist_cons.
    + destruct (IH ({[v_ID v]} ∪ seen)) as (Hnd & Hiff & Hsub). split; [|split].
      * cbn. apply NoDup_cons. split; [|done].
        rewrite Hiff. intros [_ Hn]. apply Hn, elem_of_union_l. by apply elem_of_singleton.
      * intros id. cbn. rewrite !elem_of_cons, Hiff, not_elem_of_union, elem_of_singleton.
        destruct (decide (id = v_ID v)) as [->|Hne]; tauto.
      * by apply sublist_skip.
Qed.

Lemma Manager_fingerprint_Ok m pos service v v' :
  Manager_fingerprint m pos service v = Ok v' ->
  exists f fp, m_fingerprinters m !! service = Some f /\ f pos v = (fp, None) /\
               v' = set_Fingerprint v (Some fp).
Proof.
  unfold Manager_fingerprint. destruct (m_fingerprinters m !! service) as [f|]; [|done].
  destruct (f pos v) as [fp [e|]] eqn:Hf; [done|]. intros [= <-]. by exists f, fp.
Qed.

Lemma started_tasks_elem w j0 rs j r :
  (j, r) ∈ started_tasks w j0 rs -> r ∈ rs.
Proof.
  revert j0. induction rs as [|r0 rs IH]; intros j0; cbn.
  - by rewrite elem_of_nil.
  - destruct (w_ctxDone w [j0]); [by rewrite elem_of_nil|].
    rewrite !elem_of_cons. intros [[= _ ->] | Hin]; [by left | right; by eapply IH].
Qed.

(** What [Extract] returns comes from a goroutine that got through. *)
Lemma Extract_video w m url format result vid :
  Extract w m url format = Ok result -> vid ∈ er_Videos result ->
  exists id ve j r,
    er_Service result = id /\ m_videoExtractors m !! id = Some ve /\
    r ∈ ve_VideoExtract ve url /\
    video_task w m id url format (j, r) = Ok vid.
Proof.
  unfold Extract. destruct (matchURL w m url) as [id|]; [|done].
  destruct (m_videoExtractors m !! id) as [ve|] eqn:Hve; [|done]. cbn [deref bindE].
  set (done := map _ _).
  destruct (successes done) as [|vid0 videos] eqn:Hs; [done|].
  intros [= <-]. cbn [er_Videos er_Service]. rewrite <- Hs. intros Hin.
  apply elem_of_successes in Hin. unfold done in Hin.
  apply list_elem_of_fmap in Hin as ([j r] & Hvt & Hjr).
  apply elem_of_schedule, started_tasks_elem in Hjr.
  by exists id, ve, j, r.
Qed.

(** The variants of a video that got through: the deduplicated variants,
    each with the fingerprint its fingerprinter returned, in completion
    order, after the variants the service had put there. *)
Lemma video_task_Ok w m id url format j r vid :
  video_task w m id url format (j, r) = Ok vid ->
  exists variants done,
    Forall2 (fun kv v' => exists f fp,
               m_fingerprinters m !! id = Some f /\
               f [j; 2%nat; fst kv] (snd kv) = (fp, None) /\
               v' = set_Fingerprint (snd kv) (Some fp))
            (schedule (w_order w [j; 3%nat]) (indexed (dedupByID ∅ variants))) done /\
    (forall v, v ∈ variants ->
       exists kref vs, kref ∈ indexed (vr_References r) /\
         Manager_extractVariants m [j; O; fst kref] id (snd kref) = Ok vs /\ v ∈ vs) /\
    vid = set_Variants (vr_Video r) (vid_Variants (vr_Video r) ++ done).
Proof.
  unfold video_task. destruct (vr_Err r); [done|].
  set (extracted := map _ _).
  destruct (first_error extracted) eqn:Hfe; [done|].
  set (fingerprinted := map _ _).
  destruct (first_error fingerprinted) eqn:Hff; [done|].
  intros [= <-]. exists (concat (successes extracted)), (successes fingerprinted).
  split; [|split; [|done]].
  - apply successes_all, map_Ok_Forall2 in Hff.
    eapply Forall2_impl; [exact Hff|]. cbn.
    intros kv v' Hv'. by apply Manager_fingerprint_Ok in Hv'.
  - intros v Hv. apply list_elem_of_In, in_concat in Hv as (vs & Hvs & Hv).
    apply list_elem_of_In in Hvs, Hv.
    apply elem_of_successes in Hvs. unfold extracted in Hvs.
    apply list_elem_of_fmap in Hvs as (kref & Hkref & Hin).
    apply elem_of_schedule, list_elem_of_filter in Hin as [_ Hin].
    by exists kref, vs.
Qed.

Lemma Forall2_fingerprinted_IDs m id j (tasks : list (nat * Variant)) (done : list Variant) :
  Forall2 (fun kv v' => exists f fp,
             m_fingerprinters m !! id = Some f /\
             f [j; 2%nat; fst kv] (snd kv) = (fp, None) /\
             v' = set_Fingerprint (snd kv) (Some fp)) tasks done ->
  map v_ID done = map v_ID (map snd tasks).
Proof.
  induction 1 as [|kv v' tasks done (f & fp & _ & _ & ->) _ IH]; [done|].
  cbn. by rewrite IH.
Qed.

(** C9.  The loop before fingerprinting keeps exactly one variant per
    identifier of the extracted set (the first), and the variants of a
    video in a successful extraction result have pairwise distinct
    identifiers.  The video comes from the service without variants, as
    with every service of the repository. *)
Theorem C9_variant_ids_distinct (w : World) (m : Manager) (url format : string)
    (result : ExtractResult) (vid : Video) :
  Extract w m url format = Ok result -> vid ∈ er_Videos result ->
  videos_without_variants m url ->
  NoDup (map v_ID (vid_Variants vid)) /\
  forall variants,
    NoDup (map v_ID (dedupByID ∅ variants)) /\
    (forall id, id ∈ map v_ID (dedupByID ∅ variants) <-> id ∈ map v_ID variants) /\
    dedupByID ∅ variants `sublist_of` variants.
Proof.
  intros Hres Hvid Hnone. split.
  - destruct (Extract_video _ _ _ _ _ _ Hres Hvid) as (id & ve & j & r & _ & Hve & Hr & Ht).
    destruct (video_task_Ok _ _ _ _ _ _ _ _ Ht) as (variants & done & Hdone & _ & ->).
    rewrite (Hnone _ _ _ Hve Hr). cbn.
    rewrite (Forall2_fingerprinted_IDs _ _ _ _ _ Hdone).
    rewrite schedule_Permutation, snd_indexed.
    apply dedupByID_spec.
  - intros variants. destruct (dedupByID_spec ∅ variants) as (Hnd & Hiff & Hsub).
    split; [done|]. split; [|done]. intros id. rewrite Hiff.
    split; [tauto|]. intros ?. split; [done | apply not_elem_of_empty].
Qed.


(** ** The extracted variants are sound *)

Section Soundness.
Context `{UrlLib}.
Variable w : World.

Lemma emit_numbered_lengths tpl d n st :
  length (tl_URLs st) = length (tl_SegmentDurations st) ->
  length (tl_URLs (emit_numbered tpl d n st)) =
  length (tl_SegmentDurations (emit_numbered tpl d n st)).
Proof.
  revert st. induction n as [|n IH]; intros st Hst; [done|].
  cbn [emit_numbered]. apply IH. cbn. rewrite !length_app. cbn. lia.
Qed.

Lemma timeline_loop_lengths tpl tp st tl fin :
  timeline_loop tpl tp st tl = Ok fin ->
  length (tl_URLs st) = length (tl_SegmentDurations st) ->
  length (tl_URLs fin) = length (tl_SegmentDurations fin).
Proof.
  revert st. induction tl as [|s tl IH]; intros st Hfin Hst.
  - by injection Hfin as <-.
  - cbn [timeline_loop] in Hfin. apply bindE_Ok in Hfin as (st' & Hstep & Hfin).
    apply (IH _ Hfin). clear IH Hfin. unfold timeline_step in Hstep.
    destruct s as [s|]; [|by injection Hstep as <-].
    destruct (S_D s >? MaxUint32); [done|]. destruct tp.
    + destruct (S_T s); [|done]. injection Hstep as <-. cbn. rewrite !length_app. cbn. lia.
    + destruct (S_R s <? 0); [done|]. injection Hstep as <-.
      by apply emit_numbered_lengths.
Qed.

(** Before the merge, the URL and duration lists of an explicit variant
    have the same length. *)
Lemma parseMPDExplicitAddressingInfo_aligned u st info :
  parseMPDExplicitAddressingInfo u st = Ok info ->
  length (ex_URLs info) = length (ex_SegmentDurations info).
Proof.
  unfold parseMPDExplicitAddressingInfo.
  destruct (st_SegmentTimeline st) as [tl|]; [|done].
  destruct (_ && _); [done|].
  intros Hinfo. apply bindE_Ok in Hinfo as (fin & Hfin & [= <-]). cbn.
  by apply (timeline_loop_lengths _ _ _ _ _ Hfin).
Qed.

Lemma extractMPDVariant_dash pos u servers r v :
  extractMPDVariant w pos u servers r = Ok v -> dash_variant v /\ addressed v.
Proof.
  unfold extractMPDVariant.
  destruct (rep_SegmentBase r) as [indexRange|].
  - intros [= <-]. split; [done|]. left. by split; [|eexists].
  - destruct (rep_SegmentTemplate r) as [st|]; [|by destruct (rep_SegmentList r)].
    intros Hv. apply bindE_Ok in Hv as (info & Hinfo & [= <-]).
    apply wrapE_Ok, parseMPDExplicitAddressingInfo_aligned in Hinfo.
    split; [by split|]. right. by split; [|eexists].
Qed.

Lemma add_group_of_dash vg v d vg' :
  group_of_dash vg -> dash_variant v -> add vg v d = Ok vg' -> group_of_dash vg'.
Proof.
  intros Hvg Hv. unfold add. intros Hadd.
  apply bindE_Ok in Hadd as (k & _ & [= <-]). unfold group_of_dash. cbn.
  apply map_Forall_insert_2; [|done].
  apply Forall_app. split; [|by constructor].
  destruct (vg_variants vg !! k) as [vs|] eqn:Hk; cbn; [by apply (Hvg k) | constructor].
Qed.

Lemma representations_loop_dash pos i u servers d rs vg vg' :
  group_of_dash vg ->
  representations_loop w pos i u servers d rs vg = Ok vg' -> group_of_dash vg'.
Proof.
  revert i vg. induction rs as [|r rs IH]; intros i vg Hvg; cbn [representations_loop].
  - by intros [= <-].
  - destruct (_ && _); [by apply IH|].
    intros Hl. apply bindE_Ok in Hl as (v & Hv & Hl).
    apply bindE_Ok in Hl as (vg1 & Hadd & Hl).
    apply wrapE_Ok, extractMPDVariant_dash in Hv as [Hv _].
    eapply IH; [|exact Hl]. by eapply add_group_of_dash.
Qed.

Lemma adaptationSets_loop_dash pos i u servers d sets vg vg' :
  group_of_dash vg ->
  adaptationSets_loop w pos i u servers d sets vg = Ok vg' -> group_of_dash vg'.
Proof.
  revert i vg. induction sets as [|aset sets IH]; intros i vg Hvg; cbn [adaptationSets_loop].
  - by intros [= <-].
  - destruct (_ && _); [by apply IH|].
    intros Hl. apply bindE_Ok in Hl as (vg1 & Hreps & Hl).
    eapply IH; [|exact Hl]. by eapply representations_loop_dash.
Qed.

Lemma periods_loop_dash pos i u servers ps vg vg' :
  group_of_dash vg ->
  periods_loop w pos i u servers ps vg = Ok vg' -> group_of_dash vg'.
Proof.
  revert i vg. induction ps as [|p ps IH]; intros i vg Hvg; cbn [periods_loop].
  - by intros [= <-].
  - destruct (isAdPeriod p); [by apply IH|].
    intros Hl. apply bindE_Ok in Hl as (vg1 & Hsets & Hl).
    eapply IH; [|exact Hl]. by eapply adaptationSets_loop_dash.
Qed.

End Soundness.

Section SoundnessOfExtraction.
Context `{UrlLib}.
Variable w : World.

Lemma merge_dash pos vg out m :
  group_of_dash vg -> merge w pos vg = Ok out -> m ∈ out -> sound_variant m.
Proof.
  intros Hvg Hout Hin.
  destruct (merge_elem _ _ _ _ _ Hout Hin) as (k & v0 & rest & Hk & _ & Hm).
  specialize (Hvg _ _ Hk). cbn in Hvg.
  destruct (merge_group_fields _ _ _ Hm) as (_ & _ & _ & _ & _ & _ & Hmi & Hfp & _).
  split.
  - unfold lists_aligned, member_URLs, member_SegmentDurations. rewrite Hmi.
    destruct (merged_info v0 rest) as [info|] eqn:Hinfo; [|done].
    eapply merged_info_aligned; [|exact Hinfo].
    eapply Forall_impl; [exact Hvg|]. by intros v [? _].
  - apply Forall_cons in Hvg as [[_ Hnone] _]. rewrite Hfp, Hnone. done.
Qed.

Lemma extractMPDVariants_sound pos reference vs :
  extractMPDVariants w pos reference = Ok vs -> Forall sound_variant vs.
Proof.
  unfold extractMPDVariants. intros Hvs.
  apply bindE_Ok in Hvs as ([m u] & _ & Hvs).
  destruct (mpd_isStatic m); [|done]. cbn [negb] in Hvs.
  apply bindE_Ok in Hvs as (vg & Hvg & Hvs).
  apply bindE_Ok in Hvs as (out & Hout & Hvs).
  assert (out = vs) as -> by (destruct out; [done | by injection Hvs]).
  apply Forall_forall. intros v Hv. eapply merge_dash; [|exact Hout|exact Hv].
  eapply periods_loop_dash; [|exact Hvg]. apply map_Forall_empty.
Qed.

Lemma segments_loop_lengths u st segs fin :
  segments_loop u st segs = Ok fin ->
  length (hs_fpSizes st) = length (hs_fpDurations st) ->
  length (hs_URLs st) = length (hs_SegmentDurations st) ->
  length (hs_fpSizes fin) = length (hs_fpDurations fin) /\
  length (hs_URLs fin) = length (hs_SegmentDurations fin).
Proof.
  revert st. induction segs as [|seg segs IH]; intros st Hfin Hfp Hex.
  - by injection Hfin as <-.
  - cbn [segments_loop] in Hfin. apply bindE_Ok in Hfin as (st' & Hstep & Hfin).
    unfold segment_step in Hstep.
    destruct (_ >? MaxUint32); [done|].
    destruct (seg_ByteRangeLength seg) as [size|].
    + destruct (size >? MaxUint32); [done|]. injection Hstep as <-.
      apply (IH _ Hfin); cbn; rewrite ?length_app; cbn; lia.
    + injection Hstep as <-.
      apply (IH _ Hfin); cbn; rewrite ?length_app; cbn; lia.
Qed.

Lemma mediaVariant_sound u servers codecs width height bandwidth segs v :
  mediaVariant u servers codecs width height bandwidth segs = Ok v -> sound_variant v.
Proof.
  unfold mediaVariant. intros Hv. apply bindE_Ok in Hv as (fin & Hfin & Hv).
  apply segments_loop_lengths in Hfin as [Hfp Hex]; [|done..].
  destruct (hs_isIndexed fin); injection Hv as <-; split; try done.
  cbn. by intros fp [= <-].
Qed.

Lemma master_loop_sound pos i u servers mvs vs :
  master_loop w pos i u servers mvs = Ok vs -> Forall sound_variant vs.
Proof.
  revert i vs. induction mvs as [|mv mvs IH]; intros i vs; cbn [master_loop].
  - intros [= <-]. constructor.
  - destruct (String.eqb (mv_Resolution mv) ""); [by apply IH|].
    intros Hvs. apply bindE_Ok in Hvs as (variant & Hvariant & Hvs).
    apply bindE_Ok in Hvs as (rest & Hrest & [= <-]).
    apply IH in Hrest. destruct (String.eqb (v_AddressingMode variant) ""); [done|].
    constructor; [|done].
    apply wrapE_Ok, extractM3U8Variant_inv in Hvariant as (? & ? & ? & ? & _ & Hm).
    by eapply mediaVariant_sound.
Qed.

Lemma ExtractVariants_sound pos reference vs :
  ExtractVariants w pos reference = Ok vs -> Forall sound_variant vs.
Proof.
  unfold ExtractVariants.
  destruct (String.eqb (ref_Format reference) "dash"); [apply extractMPDVariants_sound|].
  destruct (String.eqb (ref_Format reference) "hls"); [|done].
  unfold extractM3U8Variants. intros Hvs.
  apply bindE_Ok in Hvs as ([p u] & _ & Hvs).
  destruct p as [mvs|]; [|done]. by eapply master_loop_sound.
Qed.

(** The default fingerprinter on a sound variant. *)
Lemma Fingerprint_default_aligned pos v fp :
  sound_variant v -> Fingerprint_default w pos v = (fp, None) -> fingerprint_aligned fp.
Proof.
  intros [Hal Hfp]. unfold Fingerprint_default.
  destruct (String.eqb (v_AddressingMode v) "indexed").
  { destruct (v_IndexedAddressingInfo v) as [info|]; [|done]. cbn [deref bindE].
    unfold fingerprintIndexed.
    destruct (String.eqb (v_MimeType v) "video/mp4");
      [|by destruct (String.eqb (v_MimeType v) "video/webm")].
    unfold fingerprintIndexedMP4.
    destruct (bindE _ _) as [fp'|e] eqn:Hr; [|done]. cbn. intros [= <-].
    apply bindE_Ok in Hr as (raw & _ & Hr). apply bindE_Ok in Hr as (sidx & _ & [= <-]).
    unfold fingerprint_aligned. cbn. by rewrite !length_map. }
  destruct (String.eqb (v_AddressingMode v) "explicit").
  { unfold lists_aligned, member_URLs, member_SegmentDurations in Hal.
    destruct (v_ExplicitAddressingInfo v) as [info|]; [|done].
    unfold fingerprintExplicit. intros [= <- _]. unfold fingerprint_aligned. cbn.
    by rewrite store_sizes_length, length_replicate. }
  destruct (String.eqb (v_AddressingMode v) "fingerprinted"); [|done].
  destruct (v_Fingerprint v) as [fp'|]; [|done]. cbn. intros [= <-]. by apply Hfp.
Qed.

End SoundnessOfExtraction.

(** C1, as amended.  Every variant of a video in a successful extraction
    result has a fingerprint (the slot is not nil).  When the service
    delegates to the default extractor and fingerprinter, as all services
    of the repository do, SegmentSizes and SegmentDurations have the same
    length.  Nothing makes that length at least 1 or the Timescale
    positive: they are what the manifest or the SIDX box gives. *)
Theorem C1_fingerprint_slot_filled `{UrlLib} (w : World) (m : Manager) (url format : string)
    (result : ExtractResult) (vid : Video) (v : Variant) :
  Extract w m url format = Ok result -> vid ∈ er_Videos result ->
  v ∈ vid_Variants vid ->
  videos_without_variants m url ->
  (exists fp, v_Fingerprint v = Some fp) /\
  (delegates w m (er_Service result) ->
   exists fp, v_Fingerprint v = Some fp /\
     length (fp_SegmentSizes fp) = length (fp_SegmentDurations fp)).
Proof.
  intros Hres Hvid Hv Hnone.
  destruct (Extract_video _ _ _ _ _ _ Hres Hvid) as (id & ve & j & r & Hid & Hve & Hr & Ht).
  destruct (video_task_Ok _ _ _ _ _ _ _ _ Ht) as (variants & done & Hdone & Hext & ->).
  rewrite (Hnone _ _ _ Hve Hr) in Hv. cbn in Hv.
  apply list_elem_of_lookup in Hv as [n Hn].
  destruct (Forall2_lookup_r _ _ _ _ _ Hdone Hn) as ([k v0] & Hk & f & fp & Hf & Hfp & ->).
  cbn in Hf, Hfp. split; [by exists fp|].
  rewrite Hid. intros [Hve' Hf']. exists fp. split; [done|].
  rewrite Hf' in Hf. injection Hf as <-.
  eapply Fingerprint_default_aligned; [|exact Hfp].
  assert (Hv0 : v0 ∈ variants).
  { apply list_elem_of_lookup_2, elem_of_schedule, elem_of_indexed in Hk.
    apply list_elem_of_lookup_2 in Hk.
    eapply elem_of_sublist; [exact Hk|]. apply dedupByID_spec. }
  destruct (Hext _ Hv0) as (kref & vs & _ & Hvs & Hin).
  unfold Manager_extractVariants in Hvs. rewrite Hve' in Hvs.
  apply ExtractVariants_sound in Hvs.
  by apply (proj1 (Forall_forall _ _) Hvs).
Qed.

Section C1_example.
Existing Instance simpleUrl.

Example c1_extract : Extract c1_world c1_manager c1_url "both" = Ok c1_result.
Proof. vm_compute. reflexivity. Qed.

Lemma c1_videos_without_variants : videos_without_variants c1_manager c1_url.
Proof.
  intros id ve r Hve Hr. cbn in Hve.
  apply lookup_singleton_Some in Hve as [_ <-]. cbn in Hr.
  by apply list_elem_of_singleton in Hr as ->.
Qed.

Lemma c1_delegates : delegates c1_world c1_manager "svc".
Proof. split; apply lookup_singleton_eq. Qed.

Lemma C1_fingerprint_slot_filled_witness :
  (exists fp, v_Fingerprint c1_empty_variant = Some fp) /\
  (delegates c1_world c1_manager "svc" ->
   exists fp, v_Fingerprint c1_empty_variant = Some fp /\
     length (fp_SegmentSizes fp) = length (fp_SegmentDurations fp)).
Proof.
  exact (C1_fingerprint_slot_filled c1_world c1_manager c1_url "both" c1_result c1_video
           c1_empty_variant c1_extract (list_elem_of_here _ _)
           (list_elem_of_further _ _ _ (list_elem_of_here _ _))
           c1_videos_without_variants).
Defined.

(** C1 as stated fails: in this successful extraction the second variant
    has a fingerprint with no segment (its media playlist is empty), and
    the third has Timescale 0 (the timescale attribute of its
    SegmentTemplate). *)
Lemma C1_nonempty_positive_counterexample :
  Extract c1_world c1_manager c1_url "both" = Ok c1_result /\
  exists vid v2 v3 fp2 fp3,
    vid ∈ er_Videos c1_result /\
    v2 ∈ vid_Variants vid /\ v_Fingerprint v2 = Some fp2 /\
    ~ (1 <= length (fp_SegmentSizes fp2))%nat /\
    v3 ∈ vid_Variants vid /\ v_Fingerprint v3 = Some fp3 /\
    ~ (0 < fp_Timescale fp3).
Proof.
  split; [exact c1_extract|].
  exists c1_video, c1_empty_variant. eexists. exists (MkFingerprint [] [] 1000). eexists.
  split; [apply list_elem_of_here|].
  split; [apply list_elem_of_further, list_elem_of_here|].
  split; [reflexivity|]. split; [cbn; lia|].
  split; [do 2 apply list_elem_of_further; apply list_elem_of_here|].
  split; [reflexivity|]. cbn. lia.
Qed.

Lemma C9_variant_ids_distinct_witness :
  NoDup (map v_ID (vid_Variants c1_video)) /\
  forall variants,
    NoDup (map v_ID (dedupByID ∅ variants)) /\
    (forall id, id ∈ map v_ID (dedupByID ∅ variants) <-> id ∈ map v_ID variants) /\
    dedupByID ∅ variants `sublist_of` variants.
Proof.
  exact (C9_variant_ids_distinct c1_world c1_manager c1_url "both" c1_result c1_video
           c1_extract (list_elem_of_here _ _) c1_videos_without_variants).
Defined.


End C1_example.
(** ** The period loops as a sequence of calls to [add]

    This connects the statements about [add_all] and [merge] with
    [extractMPDVariants]: the group it merges is built by calls to [add],
    one per representation kept, with the duration of its period. *)

Section PeriodLoops.
Context `{UrlLib}.
Variable w : World.

Lemma representations_loop_add_all pos i u servers d rs vg vg' :
  representations_loop w pos i u servers d rs vg = Ok vg' ->
  exists items, add_all vg items = Ok vg' /\
    Forall (fun it => addressed (fst it) /\ snd it = d) items.
Proof.
  revert i vg. induction rs as [|r rs IH]; intros i vg; cbn [representations_loop].
  - intros [= <-]. by exists [].
  - destruct (_ && _); [by apply IH|].
    intros Hl. apply bindE_Ok in Hl as (v & Hv & Hl).
    apply bindE_Ok in Hl as (vg1 & Hadd & Hl).
    apply wrapE_Ok, extractMPDVariant_dash in Hv as [_ Hv].
    destruct (IH _ _ Hl) as (items & Hitems & Hall).
    exists ((v, d) :: items). split; [cbn; by rewrite Hadd | by constructor].
Qed.

Lemma adaptationSets_loop_add_all pos i u servers d sets vg vg' :
  adaptationSets_loop w pos i u servers d sets vg = Ok vg' ->
  exists items, add_all vg items = Ok vg' /\
    Forall (fun it => addressed (fst it) /\ snd it = d) items.
Proof.
  revert i vg. induction sets as [|aset sets IH]; intros i vg; cbn [adaptationSets_loop].
  - intros [= <-]. by exists [].
  - destruct (_ && _); [by apply IH|].
    intros Hl. apply bindE_Ok in Hl as (vg1 & Hreps & Hl).
    apply representations_loop_add_all in Hreps as (items1 & Hitems1 & Hall1).
    destruct (IH _ _ Hl) as (items2 & Hitems2 & Hall2).
    exists (items1 ++ items2). split; [|by apply Forall_app].
    by rewrite add_all_app, Hitems1.
Qed.

Lemma periods_loop_add_all pos i u servers ps vg vg' :
  periods_loop w pos i u servers ps vg = Ok vg' ->
  exists items, add_all vg items = Ok vg' /\
    Forall (fun it => addressed (fst it) /\
                      exists p, p ∈ ps /\ isAdPeriod p = false /\ snd it = periodDurationOf p)
           items.
Proof.
  revert i vg. induction ps as [|p ps IH]; intros i vg; cbn [periods_loop].
  - intros [= <-]. by exists [].
  - destruct (isAdPeriod p) eqn:Had.
    + intros Hl. destruct (IH _ _ Hl) as (items & Hitems & Hall).
      exists items. split; [done|]. eapply Forall_impl; [exact Hall|].
      intros it (? & q & ? & ? & ?). split; [done|]. exists q.
      split; [by apply list_elem_of_further | done].
    + intros Hl. apply bindE_Ok in Hl as (vg1 & Hsets & Hl).
      apply adaptationSets_loop_add_all in Hsets as (items1 & Hitems1 & Hall1).
      destruct (IH _ _ Hl) as (items2 & Hitems2 & Hall2).
      exists (items1 ++ items2). split; [by rewrite add_all_app, Hitems1|].
      apply Forall_app. split.
      * eapply Forall_impl; [exact Hall1|]. intros it [? ?]. split; [done|].
        exists p. split; [apply list_elem_of_here | done].
      * eapply Forall_impl; [exact Hall2|].
        intros it (? & q & ? & ? & ?). split; [done|]. exists q.
        split; [by apply list_elem_of_further | done].
Qed.

(** A successful DASH extraction returns the merge of a group built by
    calls to [add] from the empty group, one per representation kept, each
    with the duration of its period (periods flagged as ads excepted). *)
Lemma extractMPDVariants_add_all_merge pos reference vs :
  extractMPDVariants w pos reference = Ok vs ->
  exists m items vg,
    add_all newVariantGroup items = Ok vg /\ merge w pos vg = Ok vs /\ vs <> [] /\
    Forall (fun it => addressed (fst it) /\
                      exists p, p ∈ mpd_Periods m /\ isAdPeriod p = false /\
                                snd it = periodDurationOf p) items.
Proof.
  unfold extractMPDVariants. intros Hvs.
  apply bindE_Ok in Hvs as ([m u] & _ & Hvs).
  destruct (mpd_isStatic m); [|done]. cbn [negb] in Hvs.
  apply bindE_Ok in Hvs as (vg & Hvg & Hvs).
  apply bindE_Ok in Hvs as (out & Hout & Hvs).
  destruct out as [|v out]; [done|]. injection Hvs as <-.
  apply periods_loop_add_all in Hvg as (items & Hitems & Hall).
  by exists m, items, vg.
Qed.

End PeriodLoops.

(** Every order of completion is the schedule of some list of choices. *)
Lemma schedule_complete {A} (l l' : list A) :
  l ≡ₚ l' -> exists choices, schedule choices l = l'.
Proof.
  revert l. induction l' as [|x l' IH]; intros l Hp.
  - apply Permutation_nil_r in Hp as ->. by exists [].
  - assert (Hx : x ∈ l) by (rewrite Hp; apply list_elem_of_here).
    apply list_elem_of_lookup in Hx as [i Hi].
    pose proof (lookup_lt_Some _ _ _ Hi) as Hlt.
    destruct (IH (delete i l)) as [choices Hc].
    { apply (Permutation_cons_inv (a := x)). by rewrite <- delete_Permutation. }
    exists (i :: choices). cbn. rewrite Nat.mod_small by done. by rewrite Hi, Hc.
Qed.

(** ** Two periods of one rendition and an ad period, end to end *)

Section S5_example.
Existing Instance simpleUrl.

Example s5_two_periods_and_ad :
  extractMPDVariants s5_world [] (MkReference "dash-1" "dash"
                                    "https://cdn.example/movie/manifest.mpd" []) =
  Ok [MkVariant (computeID "video/mp4" "avc1.64001f" 1280 720 4000)
        "video/mp4" "avc1.64001f" 1280 720 4000 "explicit" None
        (Some (MkExplicit "https://cdn.example/movie/seg-$Number$.m4s"
                 ["https://cdn.example/movie/seg-1.m4s"; "https://cdn.example/movie/seg-2.m4s";
                  "https://cdn.example/movie/seg-3.m4s"] [] [4000; 4000; 4000] 1000))
        None].
Proof. vm_compute. reflexivity. Qed.


End S5_example.
(** A HEAD response without Content-Length has [ContentLength = -1]; the
    slot then holds the conversion of -1. *)
Example c7_absent_content_length :
  fingerprintExplicit s5_world [] c2_info =
  (MkFingerprint [4294967295] [2000] 1000, None).
Proof. vm_compute. reflexivity. Qed.

(** * Further properties *)

(** ** DASH explicit addressing: the [$Time$] mode and the shape of the result *)

Section TimeMode.
Context `{UrlLib}.

Lemma timeline_loop_time tpl tl st :
  Forall (fun s => 0 <= S_D s <= MaxUint32 /\ is_Some (S_T s)) (entries tl) ->
  timeline_loop tpl true st tl =
  Ok (MkTimeline (tl_URLs st ++ time_URLs tpl (entries tl))
        (tl_SegmentDurations st ++ map S_D (entries tl)) (tl_num st)).
Proof.
  revert st. induction tl as [|x tl IH]; intros st Hok.
  - simpl. rewrite !app_nil_r. by destruct st.
  - destruct x as [s|]; cbn [entries] in *; [|by apply IH].
    apply Forall_cons in Hok as [[Hd [t Ht]] Hok].
    cbn [timeline_loop timeline_step].
    destruct (Z.gtb_spec (S_D s) MaxUint32) as [Hgt|_]; [lia|].
    rewrite Ht. cbn [bindE]. rewrite IH by done. cbn.
    rewrite Ht, uint32_id by done. cbn. by rewrite <- !app_assoc.
Qed.

Lemma timeline_loop_missing_time tpl tl st s :
  Some s ∈ tl -> S_T s = None -> is_Fail (timeline_loop tpl true st tl).
Proof.
  intros Hin Ht. revert st. induction tl as [|x tl IH]; intros st.
  - by apply elem_of_nil in Hin.
  - simpl. apply elem_of_cons in Hin as [<- | Hin].
    + simpl. destruct (S_D s >? MaxUint32); [simpl; eexists; reflexivity|].
      rewrite Ht. simpl. eexists; reflexivity.
    + destruct (timeline_step tpl true st x) as [st'|e]; simpl.
      * by apply IH.
      * eexists; reflexivity.
Qed.

Lemma timeline_loop_entries tpl tp tl st :
  timeline_loop tpl tp st tl = timeline_loop tpl tp st (map Some (entries tl)).
Proof.
  revert st. induction tl as [|x tl IH]; intros st; [done|].
  destruct x as [s|]; cbn [entries map timeline_loop].
  - destruct (timeline_step tpl tp st (Some s)); cbn; [apply IH | done].
  - cbn. apply IH.
Qed.

Lemma emit_numbered_range tpl d n st :
  Forall (fun x => 0 <= x <= MaxUint32) (tl_SegmentDurations st) ->
  Forall (fun x => 0 <= x <= MaxUint32) (tl_SegmentDurations (emit_numbered tpl d n st)).
Proof.
  revert st. induction n as [|n IH]; intros st Hst; [done|].
  cbn [emit_numbered]. apply IH. cbn. apply Forall_app. split; [done|].
  constructor; [|constructor]. unfold uint32, MaxUint32.
  pose proof (Z.mod_pos_bound d (2 ^ 32) ltac:(lia)). lia.
Qed.

Lemma timeline_loop_range tpl tp st tl fin :
  timeline_loop tpl tp st tl = Ok fin ->
  Forall (fun x => 0 <= x <= MaxUint32) (tl_SegmentDurations st) ->
  Forall (fun x => 0 <= x <= MaxUint32) (tl_SegmentDurations fin).
Proof.
  revert st. induction tl as [|s tl IH]; intros st Hfin Hst.
  - by injection Hfin as <-.
  - cbn [timeline_loop] in Hfin. apply bindE_Ok in Hfin as (st' & Hstep & Hfin).
    apply (IH _ Hfin). clear IH Hfin. unfold timeline_step in Hstep.
    destruct s as [s|]; [|by injection Hstep as <-].
    destruct (S_D s >? MaxUint32); [done|]. destruct tp.
    + destruct (S_T s); [|done]. injection Hstep as <-. cbn.
      apply Forall_app. split; [done|]. constructor; [|constructor].
      unfold uint32, MaxUint32.
      pose proof (Z.mod_pos_bound (S_D s) (2 ^ 32) ltac:(lia)). lia.
    + destruct (S_R s <? 0); [done|]. injection Hstep as <-.
      by apply emit_numbered_range.
Qed.

(** X1. parseMPDExplicitAddressingInfo, a media template
    with [$Time$]: every non-nil entry of the timeline gives exactly one
    URL, the template with the entry's [t] for the placeholder, and its
    duration; the repeat count of the entry is not read.  An entry
    without [t] makes the function fail. *)
Theorem time_template_materialization (u : string) (st : SegmentTemplateType)
    (tl : list (option S_t)) :
  st_SegmentTimeline st = Some tl ->
  strings_Contains (st_Media st) "$Time$" = true ->
  let templateURL := resolveReference u (st_Media st) in
  ((exists s, Some s ∈ tl /\ S_T s = None) ->
   is_Fail (parseMPDExplicitAddressingInfo u st)) /\
  (Forall (fun s => 0 <= S_D s <= MaxUint32 /\ is_Some (S_T s)) (entries tl) ->
   parseMPDExplicitAddressingInfo u st =
   Ok (MkExplicit templateURL (time_URLs templateURL (entries tl)) []
         (map S_D (entries tl)) (st_GetTimescale st))).
Proof.
  intros Htl Htime templateURL.
  unfold parseMPDExplicitAddressingInfo. rewrite Htl, Htime.
  cbn [negb andb]. fold templateURL. split.
  - intros (s & Hin & Ht). apply is_Fail_bindE.
    by eapply timeline_loop_missing_time.
  - intros Hok. by rewrite timeline_loop_time.
Qed.

(** X2. parseMPDExplicitAddressingInfo skips the nil entries
    of a timeline: the result, error included, is that of the timeline
    without them. *)
Theorem nil_timeline_entries_skipped (u : string) (st : SegmentTemplateType) :
  parseMPDExplicitAddressingInfo u st =
  parseMPDExplicitAddressingInfo u (without_nil_entries st).
Proof.
  unfold parseMPDExplicitAddressingInfo, without_nil_entries, st_GetTimescale. cbn.
  destruct (st_SegmentTimeline st) as [tl|]; [|done].
  destruct (_ && _); [done|].
  by rewrite <- timeline_loop_entries.
Qed.

(** X3. Whatever parseMPDExplicitAddressingInfo
    returns has as many URLs as durations, every duration within uint32,
    the resolved media template as template URL, the timescale of the
    template, and no servers yet. *)
Theorem explicit_info_shape (u : string) (st : SegmentTemplateType)
    (info : ExplicitAddressingInfo) :
  parseMPDExplicitAddressingInfo u st = Ok info ->
  length (ex_URLs info) = length (ex_SegmentDurations info) /\
  Forall (fun d => 0 <= d <= MaxUint32) (ex_SegmentDurations info) /\
  ex_TemplateURL info = resolveReference u (st_Media st) /\
  ex_Timescale info = st_GetTimescale st /\
  ex_Servers info = [] /\
  (strings_Contains (st_Media st) "$Time$" = true \/
   strings_Contains (st_Media st) "$Number$" = true).
Proof.
  intros Hinfo. split; [by eapply parseMPDExplicitAddressingInfo_aligned|].
  revert Hinfo. unfold parseMPDExplicitAddressingInfo.
  destruct (st_SegmentTimeline st) as [tl|]; [|done].
  destruct (strings_Contains (st_Media st) "$Time$") eqn:Ht;
    destruct (strings_Contains (st_Media st) "$Number$") eqn:Hn; cbn [negb andb];
    try done; intros Hinfo; apply bindE_Ok in Hinfo as (fin & Hfin & [= <-]); cbn;
    (split; [by eapply timeline_loop_range; [exact Hfin|constructor] | auto 6]).
Qed.

End TimeMode.

Section TimeMode_example.
Existing Instance simpleUrl.

Lemma time_template_materialization_witness :
  parseMPDExplicitAddressingInfo "https://cdn.example/v/" time_template =
  Ok (MkExplicit "https://cdn.example/v/seg-$Time$.m4s"
        ["https://cdn.example/v/seg-0.m4s"; "https://cdn.example/v/seg-720000.m4s"] []
        [180000; 90000] 90000).
Proof.
  destruct (time_template_materialization "https://cdn.example/v/" time_template
              [Some (MkS (Some 0) 180000 3); None; Some (MkS (Some 720000) 90000 0)]
              eq_refl eq_refl) as [_ Hok].
  apply Hok. repeat constructor; cbn; unfold MaxUint32; lia || by eexists.
Defined.

Lemma explicit_info_shape_witness :
  length ["https://cdn.example/v/seg-0.m4s"; "https://cdn.example/v/seg-720000.m4s"] =
  length [180000; 90000] /\
  Forall (fun d => 0 <= d <= MaxUint32) [180000; 90000] /\
  "https://cdn.example/v/seg-$Time$.m4s" =
    resolveReference "https://cdn.example/v/" (st_Media time_template) /\
  90000 = st_GetTimescale time_template /\
  @nil string = [] /\
  (strings_Contains (st_Media time_template) "$Time$" = true \/
   strings_Contains (st_Media time_template) "$Number$" = true).
Proof.
  exact (explicit_info_shape "https://cdn.example/v/" time_template
           (MkExplicit "https://cdn.example/v/seg-$Time$.m4s"
              ["https://cdn.example/v/seg-0.m4s"; "https://cdn.example/v/seg-720000.m4s"] []
              [180000; 90000] 90000) eq_refl).
Defined.

End TimeMode_example.

(** ** What every extracted variant satisfies *)

Section ExtractedVariants.
Context `{UrlLib}.
Variable w : World.

Lemma extractMPDVariant_fields pos u servers r v :
  extractMPDVariant w pos u servers r = Ok v ->
  id_consistent v /\ payload_matches v /\
  v_MimeType v = rep_GetMimeType r /\ v_Codecs v = rep_GetCodecs r /\
  v_Width v = rep_Width r /\ v_Height v = rep_Height r /\
  v_Bandwidth v = rep_Bandwidth r.
Proof.
  unfold extractMPDVariant, id_consistent, payload_matches.
  destruct (rep_SegmentBase r) as [indexRange|].
  - intros [= <-]. cbn. repeat split. left. by split; [|eexists].
  - destruct (rep_SegmentTemplate r) as [st|]; [|by destruct (rep_SegmentList r)].
    intros Hv. apply bindE_Ok in Hv as (info & Hinfo & [= <-]).
    cbn. repeat split. right; left. by split; [|eexists].
Qed.

Section Loops.
Variable P : Variant -> Prop.

Lemma add_group_all vg v d vg' :
  group_all P vg -> P v -> add vg v d = Ok vg' -> group_all P vg'.
Proof.
  intros Hvg Hv. unfold add. intros Hadd.
  apply bindE_Ok in Hadd as (k & _ & [= <-]). unfold group_all. cbn.
  apply map_Forall_insert_2; [|done].
  apply Forall_app. split; [|by constructor].
  destruct (vg_variants vg !! k) as [vs|] eqn:Hk; cbn; [by apply (Hvg k) | constructor].
Qed.

Lemma representations_loop_all pos i u servers d rs vg vg' :
  (forall r v pos' u', r ∈ rs -> video_representation r = true ->
     extractMPDVariant w pos' u' servers r = Ok v -> P v) ->
  group_all P vg ->
  representations_loop w pos i u servers d rs vg = Ok vg' -> group_all P vg'.
Proof.
  revert i vg. induction rs as [|r rs IH]; intros i vg HP Hvg; cbn [representations_loop].
  - by intros [= <-].
  - assert (HP' : forall r' v pos' u', r' ∈ rs -> video_representation r' = true ->
              extractMPDVariant w pos' u' servers r' = Ok v -> P v).
    { intros r' v pos' u' Hr'. apply HP. by right. }
    destruct (negb (String.eqb (rep_GetMimeType r) "") &&
              negb (strings_HasPrefix (rep_GetMimeType r) "video")) eqn:Hskip;
      [by apply IH|].
    intros Hl. apply bindE_Ok in Hl as (v & Hv & Hl).
    apply bindE_Ok in Hl as (vg1 & Hadd & Hl).
    apply wrapE_Ok in Hv. eapply IH; [done| |exact Hl].
    eapply add_group_all; [done| |exact Hadd].
    eapply HP; [by left| |exact Hv].
    unfold video_representation.
    destruct (String.eqb (rep_GetMimeType r) ""); [done|].
    by destruct (strings_HasPrefix (rep_GetMimeType r) "video").
Qed.

Lemma adaptationSets_loop_all pos i u servers d sets vg vg' :
  (forall aset r v pos' u', aset ∈ sets -> video_set aset = true ->
     r ∈ as_Representations aset -> video_representation r = true ->
     extractMPDVariant w pos' u' servers r = Ok v -> P v) ->
  group_all P vg ->
  adaptationSets_loop w pos i u servers d sets vg = Ok vg' -> group_all P vg'.
Proof.
  revert i vg. induction sets as [|aset sets IH]; intros i vg HP Hvg;
    cbn [adaptationSets_loop].
  - by intros [= <-].
  - assert (HP' : forall aset' r v pos' u', aset' ∈ sets -> video_set aset' = true ->
              r ∈ as_Representations aset' -> video_representation r = true ->
              extractMPDVariant w pos' u' servers r = Ok v -> P v).
    { intros aset' r v pos' u' Ha. apply HP. by right. }
    destruct (negb (String.eqb (as_ContentType aset) "") &&
              negb (String.eqb (as_ContentType aset) "video")) eqn:Hskip;
      [by apply IH|].
    intros Hl. apply bindE_Ok in Hl as (vg1 & Hreps & Hl).
    eapply IH; [done| |exact Hl].
    eapply representations_loop_all; [|exact Hvg|exact Hreps].
    intros r v pos' u'. apply HP; [by left|].
    unfold video_set.
    destruct (String.eqb (as_ContentType aset) ""); [done|].
    by destruct (String.eqb (as_ContentType aset) "video").
Qed.

Lemma periods_loop_all pos i u servers ps vg vg' :
  (forall p aset r v pos' u', p ∈ ps -> isAdPeriod p = false ->
     aset ∈ p_AdaptationSets p -> video_set aset = true ->
     r ∈ as_Representations aset -> video_representation r = true ->
     extractMPDVariant w pos' u' servers r = Ok v -> P v) ->
  group_all P vg ->
  periods_loop w pos i u servers ps vg = Ok vg' -> group_all P vg'.
Proof.
  revert i vg. induction ps as [|p ps IH]; intros i vg HP Hvg; cbn [periods_loop].
  - by intros [= <-].
  - assert (HP' : forall p' aset r v pos' u', p' ∈ ps -> isAdPeriod p' = false ->
              aset ∈ p_AdaptationSets p' -> video_set aset = true ->
              r ∈ as_Representations aset -> video_representation r = true ->
              extractMPDVariant w pos' u' servers r = Ok v -> P v).
    { intros p' aset r v pos' u' Hp. apply HP. by right. }
    destruct (isAdPeriod p) eqn:Had; [by apply IH|].
    intros Hl. apply bindE_Ok in Hl as (vg1 & Hsets & Hl).
    eapply IH; [done| |exact Hl].
    eapply adaptationSets_loop_all; [|exact Hvg|exact Hsets].
    intros aset r v pos' u'. apply HP; [by left|done].
Qed.

End Loops.

(** The manifest, the group after the three loops and the merge behind a
    result of [extractMPDVariants]. *)
Lemma extractMPDVariants_inv pos reference vs :
  extractMPDVariants w pos reference = Ok vs ->
  exists m u vg,
    manifest_of w pos reference m /\ mpd_isStatic m = true /\
    periods_loop w pos 0 u (ref_Servers reference) (mpd_Periods m) newVariantGroup = Ok vg /\
    merge w pos vg = Ok vs /\ vs <> [].
Proof.
  unfold extractMPDVariants, manifest_of. intros Hvs.
  apply bindE_Ok in Hvs as ([m u] & Hm & Hvs).
  destruct (mpd_isStatic m) eqn:Hstatic; [|done]. cbn [negb] in Hvs.
  apply bindE_Ok in Hvs as (vg & Hvg & Hvs).
  apply bindE_Ok in Hvs as (out & Hout & Hvs).
  assert (out = vs /\ vs <> []) as [-> Hne].
  { destruct out; [done|]. injection Hvs as <-. done. }
  exists m, (resolveBaseURLTypes u (mpd_BaseURL m)), vg.
  split; [|done].
  destruct (url_isHTTP (ref_URL reference)).
  - apply bindE_Ok in Hm as (m' & Hm' & [= -> _]). by apply wrapE_Ok in Hm'.
  - apply bindE_Ok in Hm as (m' & Hm' & Hm). apply wrapE_Ok in Hm'.
    destruct (mpd_BaseURL m') as [|b ?]; [by injection Hm as <- _|].
    destruct (String.eqb _ ""); [|by injection Hm as <- _].
    apply bindE_Ok in Hm as (b' & _ & [= <- _]). done.
Qed.

Lemma merge_group_id_consistent v0 rest m :
  id_consistent v0 -> merge_group (v0 :: rest) = Ok m -> id_consistent m.
Proof.
  unfold id_consistent. intros Hid Hm.
  destruct (merge_group_fields _ _ _ Hm) as (Hmt & Hc & Hw & Hh & _ & _ & _ & _ & _ & Hi).
  rewrite Hi. destruct (Z.eqb_spec (v_Bandwidth m) (v_Bandwidth v0)) as [Hbw|_]; [|done].
  by rewrite Hid, Hmt, Hc, Hw, Hh, Hbw.
Qed.

Lemma merge_group_payload v0 rest m :
  payload_matches v0 -> merge_group (v0 :: rest) = Ok m -> payload_matches m.
Proof.
  unfold payload_matches. intros Hp Hm.
  destruct (merge_group_fields _ _ _ Hm) as (_ & _ & _ & _ & Hmode & Hix & Hex & Hfp & _).
  rewrite Hmode, Hix, Hex, Hfp. unfold merged_info.
  destruct Hp as [Hp | [[Hmode0 [info Hinfo]] | Hp]]; [by left | | by right; right].
  right; left. split; [done|]. rewrite Hmode0, Hinfo. cbn. by eexists.
Qed.

Lemma mediaVariant_fields u servers codecs width height bandwidth segs v :
  mediaVariant u servers codecs width height bandwidth segs = Ok v ->
  id_consistent v /\ payload_matches v /\ v_AddressingMode v <> "".
Proof.
  unfold mediaVariant, id_consistent, payload_matches. intros Hv.
  apply bindE_Ok in Hv as (fin & _ & Hv).
  destruct (hs_isIndexed fin); injection Hv as <-; cbn; (split; [done|]); split; try done.
  - right; right. by split; [|eexists].
  - right; left. by split; [|eexists].
Qed.

Lemma master_loop_fields pos i u servers mvs vs :
  master_loop w pos i u servers mvs = Ok vs ->
  Forall (fun v => id_consistent v /\ payload_matches v) vs.
Proof.
  revert i vs. induction mvs as [|mv mvs IH]; intros i vs; cbn [master_loop].
  - intros [= <-]. constructor.
  - destruct (String.eqb (mv_Resolution mv) ""); [by apply IH|].
    intros Hvs. apply bindE_Ok in Hvs as (variant & Hvariant & Hvs).
    apply bindE_Ok in Hvs as (rest & Hrest & [= <-]).
    apply IH in Hrest. destruct (String.eqb (v_AddressingMode variant) ""); [done|].
    constructor; [|done].
    apply wrapE_Ok, extractM3U8Variant_inv in Hvariant as (? & ? & ? & ? & _ & Hm).
    apply mediaVariant_fields in Hm. tauto.
Qed.

Lemma ExtractVariants_fields pos reference vs :
  ExtractVariants w pos reference = Ok vs ->
  Forall (fun v => id_consistent v /\ payload_matches v) vs.
Proof.
  unfold ExtractVariants.
  destruct (String.eqb (ref_Format reference) "dash").
  - intros Hvs. apply extractMPDVariants_inv in Hvs as (m & u & vg & _ & _ & Hvg & Hout & _).
    apply Forall_forall. intros v Hv.
    destruct (merge_elem _ _ _ _ _ Hout Hv) as (k & v0 & rest & Hk & _ & Hm).
    assert (Hall : group_all (fun v => id_consistent v /\ payload_matches v) vg).
    { eapply periods_loop_all; [..|exact Hvg]; [|apply map_Forall_empty].
      intros p aset r v' pos' u' _ _ _ _ _ _ Hv'.
      apply extractMPDVariant_fields in Hv'. tauto. }
    specialize (Hall _ _ Hk). cbn in Hall. apply Forall_cons in Hall as [[Hid Hp] _].
    split; [by eapply merge_group_id_consistent | by eapply merge_group_payload].
  - destruct (String.eqb (ref_Format reference) "hls"); [|done].
    unfold extractM3U8Variants. intros Hvs.
    apply bindE_Ok in Hvs as ([p u] & _ & Hvs).
    destruct p as [mvs|]; [|done]. by eapply master_loop_fields.
Qed.

(** X4. The identifier of every variant ExtractVariants
    returns, for DASH after the multi-period merge and for HLS, is
    computeID of the variant's own MIME type, codecs, width, height and
    bandwidth. *)
Theorem extracted_ids_consistent (pos : list nat) (reference : Reference)
    (vs : list Variant) :
  ExtractVariants w pos reference = Ok vs -> Forall id_consistent vs.
Proof.
  intros Hvs. apply ExtractVariants_fields in Hvs.
  eapply Forall_impl; [exact Hvs|]. by intros v [? _].
Qed.

Lemma first_error_Some {A} (results : list (Err A)) e :
  first_error results = Some e -> Fail e ∈ results.
Proof.
  induction results as [|[a|e'] results IH]; cbn; [done| |].
  - intros He. right. by apply IH.
  - intros [= ->]. by left.
Qed.

Lemma head_loop_error w' pos i servers (n : nat) :
  forall u try e, 0 <= try <= retries -> retries - try < Z.of_nat n ->
    fst (head_loop w' pos i servers u try) = Fail e ->
    e = ECanceled \/ (exists e', e = EWrap "fetch content length" e') \/
    e = EMsg "content length > uint32".
Proof.
  unfold retries. induction n as [|n IH]; intros u try e Htry Hn; [lia|].
  rewrite head_loop_body. cbv zeta.
  set (u' := substServer w' _ u servers).
  destruct (head_ctxDone _); [cbn; intros [= <-]; by left|].
  destruct (head_result _) as [l|e0].
  - destruct (l >? MaxUint32); cbn; [|done]. intros [= <-]. by right; right.
  - unfold retries. destruct (Z.ltb_spec try 5) as [Hlt|Hge].
    + cbn [fst]. intros He. by apply (IH u' (try + 1)); [lia | lia |].
    + cbn. intros [= <-]. right; left. by eexists.
Qed.

Lemma fingerprintExplicit_error w' pos info fp e :
  fingerprintExplicit w' pos info = (fp, Some e) ->
  e = ECanceled \/ (exists e', e = EWrap "fetch content length" e') \/
  e = EMsg "content length > uint32".
Proof.
  unfold fingerprintExplicit. intros [= _ He].
  apply first_error_Some, list_elem_of_fmap in He as ([i [r tr]] & Hr & Hin).
  cbn in Hr. unfold explicit_tasks in Hin.
  apply list_elem_of_fmap in Hin as ([i' u] & Htask & _).
  unfold head_task in Htask. cbn in Htask. injection Htask as -> Hloop.
  eapply (head_loop_error w' pos i' (ex_Servers info) 6 u 0); [unfold retries; lia..|].
  by rewrite <- Hloop.
Qed.

(** X5. Every variant ExtractVariants returns carries
    the payload its addressing mode announces (indexed, explicit or
    fingerprinted), so that DefaultFingerprinter.Fingerprint, in any
    state of the network, neither dereferences a nil pointer on it nor
    reaches its unsupported-mode branch. *)
Theorem extracted_variants_fingerprintable (pos : list nat) (reference : Reference)
    (vs : list Variant) (v : Variant) (w' : World) (pos' : list nat) :
  ExtractVariants w pos reference = Ok vs -> v ∈ vs ->
  payload_matches v /\
  snd (Fingerprint_default w' pos' v) <> Some EPanic /\
  snd (Fingerprint_default w' pos' v) <> Some (EMsg "unsupported addressing mode").
Proof.
  intros Hvs Hv. apply ExtractVariants_fields in Hvs.
  apply (proj1 (Forall_forall _ _) Hvs) in Hv as [_ Hp]. split; [exact Hp|].
  unfold Fingerprint_default.
  destruct Hp as [[-> [info ->]] | [[-> [info ->]] | [-> [fp ->]]]];
    cbn -[fingerprintExplicit fingerprintIndexed].
  - unfold fingerprintIndexed.
    destruct (String.eqb (v_MimeType v) "video/mp4");
      [|by destruct (String.eqb (v_MimeType v) "video/webm")].
    unfold fingerprintIndexedMP4.
    destruct (url_isHTTP (ix_URL info)).
    + destruct (w_fetchIndex _ _ _ _) as [raw|?]; cbn; [|done].
      by destruct (extractSIDX w' raw).
    + destruct (w_readRange _ _ _ _) as [raw|?]; cbn; [|done].
      by destruct (extractSIDX w' raw).
  - destruct (fingerprintExplicit w' pos' info) as [fp [e|]] eqn:Hfp; cbn; [|done].
    apply fingerprintExplicit_error in Hfp as [-> | [[e' ->] | ->]]; done.
  - done.
Qed.

(** X6. Every variant extractMPDVariants returns has the MIME
    type, codecs, width and height of a representation of the manifest
    that passed the three filters: its period carries no supplemental
    property "ad", its adaptation set has content type video or none,
    and its own MIME type is empty or starts with video.  The manifest is
    static. *)
Theorem dash_variants_from_video_representations (pos : list nat) (reference : Reference)
    (vs : list Variant) (v : Variant) :
  extractMPDVariants w pos reference = Ok vs -> v ∈ vs ->
  exists m, manifest_of w pos reference m /\ mpd_isStatic m = true /\
            from_representation m v.
Proof.
  intros Hvs Hv.
  apply extractMPDVariants_inv in Hvs as (m & u & vg & Hm & Hstatic & Hvg & Hout & _).
  exists m. split; [done|]. split; [done|].
  destruct (merge_elem _ _ _ _ _ Hout Hv) as (k & v0 & rest & Hk & _ & Hmg).
  assert (Hall : group_all (from_representation m) vg).
  { eapply periods_loop_all; [..|exact Hvg]; [|apply map_Forall_empty].
    intros p aset r v' pos' u' Hp Had Ha Hvs' Hr Hvr Hv'.
    apply extractMPDVariant_fields in Hv' as (_ & _ & ? & ? & ? & ? & _).
    by exists p, aset, r. }
  specialize (Hall _ _ Hk). cbn in Hall.
  apply Forall_cons in Hall as [(p & aset & r & ? & ? & ? & ? & ? & ? & Hmt & Hc & Hw & Hh) _].
  destruct (merge_group_fields _ _ _ Hmg) as (Hmt' & Hc' & Hw' & Hh' & _).
  exists p, aset, r. rewrite Hmt', Hc', Hw', Hh'. done.
Qed.

End ExtractedVariants.

Section ExtractedVariants_example.
Existing Instance simpleUrl.

Example s5_extract : ExtractVariants s5_world [] s5_reference = Ok [s5_variant].
Proof. vm_compute. reflexivity. Qed.

Lemma extracted_ids_consistent_witness : Forall id_consistent [s5_variant].
Proof. exact (extracted_ids_consistent s5_world [] s5_reference [s5_variant] s5_extract). Defined.

Lemma extracted_variants_fingerprintable_witness :
  payload_matches s5_variant /\
  snd (Fingerprint_default emptyWorld [] s5_variant) <> Some EPanic /\
  snd (Fingerprint_default emptyWorld [] s5_variant) <>
    Some (EMsg "unsupported addressing mode").
Proof.
  exact (extracted_variants_fingerprintable s5_world [] s5_reference [s5_variant] s5_variant
           emptyWorld [] s5_extract (list_elem_of_here _ _)).
Defined.

Lemma dash_variants_from_video_representations_witness :
  exists m, manifest_of s5_world [] s5_reference m /\ mpd_isStatic m = true /\
            from_representation m s5_variant.
Proof.
  exact (dash_variants_from_video_representations s5_world [] s5_reference [s5_variant]
           s5_variant s5_extract (list_elem_of_here _ _)).
Defined.

End ExtractedVariants_example.

(** ** Decimal numbers: printing and parsing *)

Lemma parse_digits_uint_acc (d : Decimal.uint) (acc : positive) :
  parse_digits (Z.pos acc) (NilEmpty.string_of_uint d) = Some (Z.pos (Pos.of_uint_acc d acc)).
Proof.
  revert acc. induction d; intros acc; cbn [NilEmpty.string_of_uint Pos.of_uint_acc];
    [done|..];
    cbn [parse_digits]; (rewrite <- IHd; f_equal; cbn; lia) || idtac.
Qed.

Lemma parse_digits_uint (d : Decimal.uint) :
  parse_digits 0 (NilEmpty.string_of_uint d) = Some (Z.of_N (Pos.of_uint d)).
Proof.
  induction d; cbn [NilEmpty.string_of_uint Pos.of_uint]; [done|exact IHd|..];
    cbn [parse_digits]; apply parse_digits_uint_acc.
Qed.

(** [strconv.Itoa] of a number that is not negative is a non-empty string
    of digits that parses back to the number. *)
Lemma parse_digits_Itoa (n : Z) :
  0 <= n -> parse_digits 0 (strconv_Itoa n) = Some n /\ strconv_Itoa n <> "".
Proof.
  intros Hn. unfold strconv_Itoa. destruct n as [|p|p]; [done| |lia].
  cbn [Z.to_int NilZero.string_of_int]. unfold NilZero.string_of_uint.
  pose proof (DecimalPos.Unsigned.to_uint_nonnil p) as Hnil.
  pose proof (DecimalPos.Unsigned.of_to p) as Hof.
  destruct (Pos.to_uint p) eqn:Hp; [done|..];
    (split; [rewrite parse_digits_uint, Hof; done | done]).
Qed.

Lemma strconv_ParseUint32_Itoa (n : Z) :
  0 <= n <= MaxUint32 -> strconv_ParseUint32 (strconv_Itoa n) = Ok n.
Proof.
  intros Hn. destruct (parse_digits_Itoa n ltac:(lia)) as [Hp Hne].
  unfold strconv_ParseUint32. destruct (strconv_Itoa n); [done|].
  rewrite Hp. destruct (Z.gtb_spec n MaxUint32); [lia | done].
Qed.

Lemma digit_not_x c d : digit_of_ascii c = Some d -> Ascii.eqb "x" c = false.
Proof. destruct c as [[] [] [] [] [] [] [] []]; cbn; done. Qed.

Lemma strings_Cut_digits acc s n t :
  parse_digits acc s = Some n ->
  strings_Cut (s ++ String "x" t) "x" = (s, t, true).
Proof.
  revert acc. induction s as [|c s IH]; intros acc Hs; [by destruct t|].
  cbn [parse_digits] in Hs. destruct (digit_of_ascii c) as [d|] eqn:Hc; [|done].
  change (String c s ++ String "x" t)%string with (String c (s ++ String "x" t)%string).
  cbn -[Ascii.eqb]. rewrite (digit_not_x _ _ Hc). by rewrite (IH _ Hs).
Qed.

(** ** HLS: the entries of the master playlist *)

Section MasterEntries.
Context `{UrlLib}.

Lemma mediaVariant_identity u servers codecs width height bandwidth segs v :
  mediaVariant u servers codecs width height bandwidth segs = Ok v ->
  v_Codecs v = codecs /\ v_Width v = width /\ v_Height v = height /\
  v_Bandwidth v = bandwidth.
Proof.
  unfold mediaVariant. intros Hv. apply bindE_Ok in Hv as (fin & _ & Hv).
  by destruct (hs_isIndexed fin); injection Hv as <-.
Qed.

Lemma strings_Cut_found s sep :
  (strings_Cut s sep).2 = strings_Contains s sep.
Proof.
  induction s as [|c s IH]; cbn [strings_Cut strings_Contains].
  - by destruct (strings_HasPrefix "" sep).
  - destruct (strings_HasPrefix (String c s) sep); [done|].
    destruct (strings_Cut s sep) as [[before after] found]. exact IH.
Qed.

(** X7. extractM3U8Variant on an entry whose
    RESOLUTION is the decimal width, an x and the decimal height: when
    width, height and bandwidth fit uint32, the entry has a codec, and the
    media playlist behind its URI can be fetched and its segments pass the
    uint32 checks, the variant has that width, height and bandwidth and
    the first codec. *)
Theorem hls_resolution_round_trip (w : World) (pos : list nat) (url : string)
    (servers : list string) (bandwidth width height : Z) (codecs : string)
    (more : list string) (uri : string) (segs : list MediaSegment) :
  0 <= width <= MaxUint32 -> 0 <= height <= MaxUint32 ->
  0 <= bandwidth <= MaxUint32 ->
  w_fetchM3U8 w pos (resolveReference url uri) = Ok (Media segs) ->
  Forall segment_fits segs ->
  exists v,
    extractM3U8Variant w pos url servers
      (MkMultivariantVariant bandwidth (codecs :: more)
         (strconv_Itoa width ++ String "x" (strconv_Itoa height)) uri) = Ok v /\
    v_Width v = width /\ v_Height v = height /\ v_Bandwidth v = bandwidth /\
    v_Codecs v = codecs.
Proof.
  intros Hw Hh Hb Hfetch Hsegs. unfold extractM3U8Variant. cbn [mv_Resolution].
  destruct (parse_digits_Itoa width ltac:(lia)) as [Hpw _].
  rewrite (strings_Cut_digits _ _ _ _ Hpw). cbn [negb].
  rewrite !strconv_ParseUint32_Itoa by done. cbn [wrapE bindE mv_Bandwidth mv_Codecs mv_URI].
  destruct (Z.gtb_spec bandwidth MaxUint32) as [?|_]; [lia|].
  rewrite Hfetch. cbn [wrapE bindE].
  destruct (mediaVariant_returns (resolveReference url uri) servers codecs width height
              (uint32 bandwidth) segs Hsegs) as [v Hv].
  exists v. split; [done|].
  apply mediaVariant_identity in Hv as (? & ? & ? & Hbw).
  rewrite uint32_id in Hbw by done. done.
Qed.

(** X8. extractM3U8Variant refuses an entry whose
    RESOLUTION has no x, whose bandwidth exceeds 2^32-1 or that lists no
    codec, and it does so whatever the network answers: the result is
    the same error in every world. *)
Theorem hls_entry_validation (w w' : World) (pos pos' : list nat) (url : string)
    (servers : list string) (mv : MultivariantVariant) :
  strings_Contains (mv_Resolution mv) "x" = false \/ mv_Bandwidth mv > MaxUint32 \/
  mv_Codecs mv = [] ->
  is_Fail (extractM3U8Variant w pos url servers mv) /\
  extractM3U8Variant w pos url servers mv = extractM3U8Variant w' pos' url servers mv.
Proof.
  intros Hbad. unfold extractM3U8Variant.
  pose proof (strings_Cut_found (mv_Resolution mv) "x") as Hcut.
  destruct (strings_Cut (mv_Resolution mv) "x") as [[widthStr heightStr] ok].
  cbn in Hcut. subst ok.
  destruct (strings_Contains (mv_Resolution mv) "x"); cbn [negb];
    [|split; [by eexists | done]].
  destruct (strconv_ParseUint32 widthStr) as [width|?]; cbn [wrapE bindE];
    [|split; [by eexists | done]].
  destruct (strconv_ParseUint32 heightStr) as [height|?]; cbn [wrapE bindE];
    [|split; [by eexists | done]].
  destruct (Z.gtb_spec (mv_Bandwidth mv) MaxUint32) as [Hgt|Hle];
    [split; [by eexists | done]|].
  destruct (mv_Codecs mv) as [|codecs more]; [split; [by eexists | done]|].
  destruct Hbad as [? | [? | ?]]; [done | lia | done].
Qed.

Lemma extractM3U8Variant_from_entry w pos url servers mv v :
  extractM3U8Variant w pos url servers mv = Ok v ->
  from_entry mv v /\ v_AddressingMode v <> "".
Proof.
  unfold extractM3U8Variant, from_entry.
  destruct (strings_Cut (mv_Resolution mv) "x") as [[widthStr heightStr] ok] eqn:Hcut.
  destruct ok; cbn [negb]; [|done].
  destruct (strconv_ParseUint32 widthStr) as [width|?] eqn:Hwidth; cbn [wrapE bindE];
    [|done].
  destruct (strconv_ParseUint32 heightStr) as [height|?] eqn:Hheight; cbn [wrapE bindE];
    [|done].
  destruct (mv_Bandwidth mv >? MaxUint32); [done|].
  destruct (mv_Codecs mv) as [|codecs more]; [done|].
  intros Hv. apply bindE_Ok in Hv as (p & _ & Hv).
  destruct p as [|segs]; [done|].
  pose proof (mediaVariant_fields _ _ _ _ _ _ _ _ Hv) as (_ & _ & Hmode).
  apply mediaVariant_identity in Hv as (Hc & Hw & Hh & Hb).
  split; [|done]. split; [done|]. split; [by rewrite Hc|].
  exists widthStr, heightStr. by rewrite Hw, Hh.
Qed.

Lemma master_loop_entries w pos i u servers mvs vs :
  master_loop w pos i u servers mvs = Ok vs ->
  Forall2 from_entry (filter (fun mv => mv_Resolution mv <> "") mvs) vs.
Proof.
  revert i vs. induction mvs as [|mv mvs IH]; intros i vs; cbn [master_loop].
  - intros [= <-]. constructor.
  - destruct (String.eqb_spec (mv_Resolution mv) "") as [Hres|Hres].
    + rewrite filter_cons_False by (by intros ?). apply IH.
    + rewrite filter_cons_True by done.
      intros Hvs. apply bindE_Ok in Hvs as (variant & Hvariant & Hvs).
      apply bindE_Ok in Hvs as (rest & Hrest & [= <-]).
      apply wrapE_Ok, extractM3U8Variant_from_entry in Hvariant as [Hfrom Hmode].
      destruct (String.eqb_spec (v_AddressingMode variant) ""); [done|].
      constructor; [done | by eapply IH].
Qed.

(** X9. A successful extractM3U8Variants returns exactly
    one variant for each entry of the master playlist that has a
    RESOLUTION, in the order of the playlist, with the entry's bandwidth,
    first codec, and parsed width and height; entries without RESOLUTION
    give nothing. *)
Theorem hls_one_variant_per_entry (w : World) (pos : list nat) (reference : Reference)
    (vs : list Variant) :
  extractM3U8Variants w pos reference = Ok vs ->
  exists mvs,
    master_of w pos reference mvs /\
    Forall2 from_entry (filter (fun mv => mv_Resolution mv <> "") mvs) vs.
Proof.
  unfold extractM3U8Variants, master_of. intros Hvs.
  apply bindE_Ok in Hvs as ([p u] & Hp & Hvs).
  destruct p as [mvs|]; [|done]. exists mvs.
  split; [|by eapply master_loop_entries].
  destruct (url_isHTTP (ref_URL reference)).
  - apply bindE_Ok in Hp as (p' & Hp' & [= -> _]). by apply wrapE_Ok in Hp'.
  - apply bindE_Ok in Hp as (p' & Hp' & [= -> _]). by apply wrapE_Ok in Hp'.
Qed.

Lemma segments_loop_mime u st segs fin :
  segments_loop u st segs = Ok fin ->
  hs_MimeType fin = if String.eqb (hs_MimeType st) "" then first_mime segs
                    else hs_MimeType st.
Proof.
  revert st. induction segs as [|seg segs IH]; intros st Hfin.
  - injection Hfin as <-. cbn. by destruct (String.eqb_spec (hs_MimeType st) "").
  - cbn [segments_loop] in Hfin. apply bindE_Ok in Hfin as (st' & Hstep & Hfin).
    rewrite (IH _ Hfin). clear IH Hfin. unfold segment_step in Hstep. cbn [first_mime].
    assert (Hst' : hs_MimeType st' =
                   if String.eqb (hs_MimeType st) ""
                   then mimeOfExt (filepath_Ext (seg_URI seg)) else hs_MimeType st).
    { destruct (_ >? MaxUint32); [done|].
      destruct (seg_ByteRangeLength seg) as [size|].
      - destruct (size >? MaxUint32); [done|]. by injection Hstep as <-.
      - by injection Hstep as <-. }
    rewrite Hst'. destruct (String.eqb_spec (hs_MimeType st) "") as [Hempty|Hne]; [done|].
    by destruct (String.eqb_spec (hs_MimeType st) "").
Qed.

(** X10. The MIME type of the variant extractM3U8Variant builds
    from a media playlist is decided by the first segment whose URI has
    one of the extensions .ts (video/mp2t), .m4s, .m4v or .mp4
    (video/mp4); it is empty when no segment has one. *)
Theorem hls_mime_type_of_first_known_extension (u : string) (servers : list string)
    (codecs : string) (width height bandwidth : Z) (segs : list MediaSegment)
    (v : Variant) :
  mediaVariant u servers codecs width height bandwidth segs = Ok v ->
  v_MimeType v = first_mime segs /\
  v_ID v = computeID (first_mime segs) codecs width height bandwidth.
Proof.
  unfold mediaVariant. intros Hv. apply bindE_Ok in Hv as (fin & Hfin & Hv).
  apply segments_loop_mime in Hfin. cbn in Hfin. rewrite Hfin in Hv.
  by destruct (hs_isIndexed fin); injection Hv as <-.
Qed.

End MasterEntries.

Section MasterEntries_example.
Existing Instance simpleUrl.

Example c6_extract : extractM3U8Variants c6_world [] c6_reference = Ok c6_variants.
Proof. vm_compute. reflexivity. Qed.

Lemma hls_resolution_round_trip_witness :
  exists v,
    extractM3U8Variant c6_world [] "https://cdn.example/hls/master.m3u8" []
      (MkMultivariantVariant 5000000 ["avc1.640028"; "mp4a.40.2"]
         (strconv_Itoa 1920 ++ String "x" (strconv_Itoa 1080)) "1080p.m3u8") = Ok v /\
    v_Width v = 1920 /\ v_Height v = 1080 /\ v_Bandwidth v = 5000000 /\
    v_Codecs v = "avc1.640028".
Proof.
  apply (hls_resolution_round_trip c6_world [] "https://cdn.example/hls/master.m3u8" []
           5000000 1920 1080 "avc1.640028" ["mp4a.40.2"] "1080p.m3u8" c6_plain);
    try (unfold MaxUint32; lia); [reflexivity|].
  repeat constructor; vm_compute; discriminate.
Defined.

Lemma hls_entry_validation_witness :
  is_Fail (extractM3U8Variant c6_world [] "https://cdn.example/hls/master.m3u8" []
             (MkMultivariantVariant 5000000 ["avc1.640028"] "1920*1080" "1080p.m3u8")) /\
  extractM3U8Variant c6_world [] "https://cdn.example/hls/master.m3u8" []
    (MkMultivariantVariant 5000000 ["avc1.640028"] "1920*1080" "1080p.m3u8") =
  extractM3U8Variant emptyWorld [] "https://cdn.example/hls/master.m3u8" []
    (MkMultivariantVariant 5000000 ["avc1.640028"] "1920*1080" "1080p.m3u8").
Proof.
  apply (hls_entry_validation c6_world emptyWorld [] []). left. reflexivity.
Defined.

Lemma hls_one_variant_per_entry_witness :
  exists mvs,
    master_of c6_world [] c6_reference mvs /\
    Forall2 from_entry (filter (fun mv => mv_Resolution mv <> "") mvs) c6_variants.
Proof. exact (hls_one_variant_per_entry c6_world [] c6_reference c6_variants c6_extract). Defined.

Example c6_mixed_variant :
  mediaVariant "https://cdn.example/hls/mixed.m3u8" [] "avc1.42c01e" 640 360 800000 c6_mixed =
  Ok (MkVariant "20d090cb2d97ebbf177aa5ba76f1edfb" "video/mp2t" "avc1.42c01e"
        640 360 800000 "fingerprinted" None None
        (Some (MkFingerprint [700] [2500] 1000))).
Proof. vm_compute. reflexivity. Qed.

Lemma hls_mime_type_of_first_known_extension_witness :
  "video/mp2t" = first_mime c6_mixed /\
  "20d090cb2d97ebbf177aa5ba76f1edfb" =
    computeID (first_mime c6_mixed) "avc1.42c01e" 640 360 800000.
Proof.
  exact (hls_mime_type_of_first_known_extension "https://cdn.example/hls/mixed.m3u8" []
           "avc1.42c01e" 640 360 800000 c6_mixed _ c6_mixed_variant).
Defined.

End MasterEntries_example.

(** ** The HEAD loop: how it ends *)

Section HeadLoopOutcomes.
Variable w : World.

Lemma count_heads_app tr1 tr2 :
  count_heads (tr1 ++ tr2) = (count_heads tr1 + count_heads tr2)%nat.
Proof. induction tr1 as [|[u|ms] tr1 IH]; cbn; lia. Qed.

Lemma sleeps_app tr1 tr2 : sleeps (tr1 ++ tr2) = sleeps tr1 ++ sleeps tr2.
Proof. induction tr1 as [|[u|ms] tr1 IH]; cbn; by rewrite ?IH. Qed.

(** While the attempts fail and the context is alive, the loop goes on
    to the next attempt, with one HEAD and one sleep each. *)
Lemma head_loop_skip pos i servers (k : nat) (n : nat) :
  (k <= 5)%nat -> attempts_fail_before w pos i k ->
  forall (t0 : nat) u, (t0 + n = k)%nat ->
    exists u' prefix,
      head_loop w pos i servers u (Z.of_nat t0) =
        (fst (head_loop w pos i servers u' (Z.of_nat k)),
         prefix ++ snd (head_loop w pos i servers u' (Z.of_nat k))) /\
      count_heads prefix = n /\ length (sleeps prefix) = n.
Proof.
  intros Hk Hfail. induction n as [|n IH]; intros t0 u Ht0.
  - exists u, []. replace t0 with k by lia. split; [by destruct (head_loop _ _ _ _ _ _)|done].
  - rewrite head_loop_body. cbv zeta. rewrite Nat2Z.id.
    set (u1 := substServer w _ u servers).
    destruct (Hfail t0 u1 ltac:(lia)) as [-> [e ->]].
    unfold retries. destruct (Z.ltb_spec (Z.of_nat t0) 5) as [_|?]; [|lia].
    destruct (IH (S t0) u1 ltac:(lia)) as (u' & prefix & Hloop & Hc & Hs).
    replace (Z.of_nat t0 + 1) with (Z.of_nat (S t0)) by lia. rewrite Hloop.
    exists u', (EvHead u1 :: EvSleep (rand_Intn w (pos ++ [i; t0; 1%nat]) maxSleepMS) :: prefix).
    cbn. split; [done|]. split; lia.
Qed.

(** X11. The goroutine of fingerprintExplicit for one
    URL: when its first k attempts fail (k at most 5) and attempt k+1
    gets a content length of at most 2^32-1, it returns that length,
    after exactly k+1 HEAD requests and k sleeps. *)
Theorem head_loop_recovers (pos : list nat) (i : nat) (servers : list string)
    (u : string) (k : nat) (l : Z) :
  (k <= 5)%nat -> attempts_fail_before w pos i k ->
  (forall u', w_head w (pos ++ [i; k]) u' = MkHeadOutcome false (Ok l)) ->
  l <= MaxUint32 ->
  let r := head_loop w pos i servers u 0 in
  fst r = Ok l /\ count_heads (snd r) = S k /\ length (sleeps (snd r)) = k.
Proof.
  intros Hk Hfail Hok Hl r. subst r.
  destruct (head_loop_skip pos i servers k k Hk Hfail 0%nat u ltac:(lia))
    as (u' & prefix & Hloop & Hc & Hs).
  change (Z.of_nat 0) with 0 in Hloop. rewrite Hloop. clear Hloop.
  rewrite head_loop_body. cbv zeta. rewrite Nat2Z.id, Hok. cbn [head_ctxDone head_result].
  destruct (Z.gtb_spec l MaxUint32); [lia|]. cbn [fst snd].
  rewrite count_heads_app, sleeps_app, length_app. cbn. split; [done|]. split; lia.
Qed.

(** X12. Two outcomes of an attempt end the goroutine at
    once, whatever number of retries is left: the enclosing context
    being done after the attempt (the goroutine returns the context's
    error) and a content length above 2^32-1 (it returns the error
    content length > uint32).  No sleep and no further HEAD follows. *)
Theorem head_loop_stops_at_once (pos : list nat) (i : nat) (servers : list string)
    (u : string) (k : nat) :
  (k <= 5)%nat -> attempts_fail_before w pos i k ->
  let r := head_loop w pos i servers u 0 in
  ((forall u', head_ctxDone (w_head w (pos ++ [i; k]) u') = true) ->
   fst r = Fail ECanceled /\ count_heads (snd r) = S k /\ length (sleeps (snd r)) = k) /\
  (forall l, l > MaxUint32 ->
   (forall u', w_head w (pos ++ [i; k]) u' = MkHeadOutcome false (Ok l)) ->
   fst r = Fail (EMsg "content length > uint32") /\
   count_heads (snd r) = S k /\ length (sleeps (snd r)) = k).
Proof.
  intros Hk Hfail r. subst r.
  destruct (head_loop_skip pos i servers k k Hk Hfail 0%nat u ltac:(lia))
    as (u' & prefix & Hloop & Hc & Hs).
  change (Z.of_nat 0) with 0 in Hloop. rewrite Hloop. clear Hloop.
  rewrite head_loop_body. cbv zeta. rewrite Nat2Z.id. split.
  - intros Hdone. rewrite Hdone. cbn [fst snd].
    rewrite count_heads_app, sleeps_app, length_app. cbn. split; [done|]. split; lia.
  - intros l Hl Hok. rewrite Hok. cbn [head_ctxDone head_result].
    destruct (Z.gtb_spec l MaxUint32); [|lia]. cbn [fst snd].
    rewrite count_heads_app, sleeps_app, length_app. cbn. split; [done|]. split; lia.
Qed.

Lemma first_error_None_iff {A} (results : list (Err A)) :
  first_error results = None <-> Forall is_Ok results.
Proof.
  induction results as [|[a|e] results IH]; cbn.
  - split; [constructor | done].
  - rewrite IH. split; [intros; constructor; [by eexists | done] | by intros [_ ?]%Forall_cons].
  - split; [done|]. intros [[a Ha] _]%Forall_cons. done.
Qed.

(** X13. fingerprintExplicit returns without error exactly
    when the goroutine of every URL of the variant returns a content
    length; one URL whose HEAD loop fails makes the fingerprinting of the
    whole variant fail, in any completion order. *)
Theorem fingerprint_explicit_all_or_nothing (pos : list nat) (info : ExplicitAddressingInfo) :
  snd (fingerprintExplicit w pos info) = None <->
  forall i u, ex_URLs info !! i = Some u ->
    is_Ok (fst (head_loop w pos i (ex_Servers info) u 0)).
Proof.
  unfold fingerprintExplicit. cbn [snd]. rewrite first_error_None_iff, Forall_forall.
  unfold explicit_tasks. split.
  - intros Hall i u Hu. apply Hall.
    apply list_elem_of_fmap. exists (i, head_loop w pos i (ex_Servers info) u 0).
    split; [done|]. by apply elem_of_explicit_tasks.
  - intros Hall r Hr.
    apply list_elem_of_fmap in Hr as ([i' res] & -> & Hin).
    apply list_elem_of_fmap in Hin as ([i u] & Htask & Hiu).
    apply elem_of_schedule, elem_of_indexed in Hiu.
    unfold head_task in Htask. cbn in Htask. injection Htask as -> ->. by apply Hall.
Qed.

End HeadLoopOutcomes.

Lemma flaky_world_fails k answer i : attempts_fail_before (flaky_world k answer) [] i k.
Proof.
  intros t u Ht. change (w_head (flaky_world k answer) ([] ++ [i; t]) u)
    with (if (t <? k)%nat then MkHeadOutcome false (Fail (EMsg "timeout")) else answer).
  destruct (Nat.ltb_spec t k); [|lia]. split; [done | by eexists].
Qed.

Lemma flaky_world_answers k answer i u :
  w_head (flaky_world k answer) ([] ++ [i; k]) u = answer.
Proof.
  change (w_head (flaky_world k answer) ([] ++ [i; k]) u)
    with (if (k <? k)%nat then MkHeadOutcome false (Fail (EMsg "timeout")) else answer).
  destruct (Nat.ltb_spec k k); [lia | done].
Qed.

Lemma head_loop_recovers_witness :
  fst recovering_goroutine = Ok 812345 /\
  count_heads (snd recovering_goroutine) = 4%nat /\
  length (sleeps (snd recovering_goroutine)) = 3%nat.
Proof.
  apply (head_loop_recovers (flaky_world 3 (MkHeadOutcome false (Ok 812345))) [] 0 []
           "https://cdn.example/v/seg-1.m4s" 3 812345); [lia| | |unfold MaxUint32; lia].
  - apply flaky_world_fails.
  - intros u'. apply flaky_world_answers.
Defined.

Lemma head_loop_stops_at_once_witness :
  fst canceled_goroutine = Fail ECanceled /\
  count_heads (snd canceled_goroutine) = 3%nat /\
  length (sleeps (snd canceled_goroutine)) = 2%nat.
Proof.
  apply (head_loop_stops_at_once (flaky_world 2 (MkHeadOutcome true (Fail (EMsg "canceled"))))
           [] 0 [] "https://cdn.example/v/seg-1.m4s" 2); [lia| |].
  - apply flaky_world_fails.
  - intros u'. by rewrite flaky_world_answers.
Defined.

(** ** Indexed addressing: the SIDX box and [readRange] *)

Section Indexed.
Context `{UrlLib}.

(** X14. fingerprintIndexed succeeds only for the MIME
    type video/mp4.  The fingerprint then lists, in order, the size and
    the duration of every reference of the first SIDX box found in the
    bytes of the index range (the range 0-65535 when the variant has
    none), with the timescale of the box; the two arrays have the same
    length. *)
Theorem fingerprint_indexed_from_sidx (w : World) (pos : list nat) (mimeType : string)
    (info : IndexedAddressingInfo) (fp : Fingerprint) :
  fingerprintIndexed w pos mimeType info = Ok fp ->
  mimeType = "video/mp4" /\
  exists raw sidx more,
    index_bytes w pos info = Ok raw /\
    w_boxes w raw = Ok (Some sidx :: more) /\
    fp = MkFingerprint (map ReferencedSize (sidx_References sidx))
           (map SubsegmentDuration (sidx_References sidx)) (sidx_Timescale sidx) /\
    length (fp_SegmentSizes fp) = length (sidx_References sidx) /\
    length (fp_SegmentDurations fp) = length (sidx_References sidx).
Proof.
  unfold fingerprintIndexed.
  destruct (String.eqb_spec mimeType "video/mp4") as [->|_];
    [|by destruct (String.eqb mimeType "video/webm")].
  intros Hfp. split; [done|]. unfold fingerprintIndexedMP4 in Hfp.
  apply bindE_Ok in Hfp as (raw & Hraw & Hfp).
  apply bindE_Ok in Hfp as (sidx & Hsidx & [= <-]).
  apply wrapE_Ok in Hsidx. unfold extractSIDX in Hsidx.
  apply bindE_Ok in Hsidx as (boxes & Hboxes & Hsidx).
  destruct boxes as [|[sidx'|] more]; try done. injection Hsidx as ->.
  exists raw, sidx, more. cbn. rewrite !length_map. repeat split; try done.
  unfold index_bytes, indexRange_or_default.
  by destruct (url_isHTTP (ix_URL info)); apply wrapE_Ok in Hraw.
Qed.

End Indexed.

Lemma digit_of_ascii_range c d : digit_of_ascii c = Some d -> 0 <= d <= 9.
Proof.
  unfold digit_of_ascii. destruct (_ && _) eqn:Hr; [|done]. intros [= <-].
  apply andb_prop in Hr as [H1 H2]. apply Z.leb_le in H1. apply Z.leb_le in H2. lia.
Qed.

Lemma parse_digits_mono acc s n : 0 <= acc -> parse_digits acc s = Some n -> acc <= n.
Proof.
  revert acc. induction s as [|c s IH]; intros acc Hacc; cbn [parse_digits].
  - intros [= <-]. lia.
  - destruct (digit_of_ascii c) as [d|] eqn:Hc; [|done]. intros Hn.
    pose proof (digit_of_ascii_range _ _ Hc) as Hd.
    apply IH in Hn; lia.
Qed.

Lemma parseUint64_loop_digits acc s n :
  0 <= acc -> parse_digits acc s = Some n -> n <= MaxUint64 ->
  parseUint64_loop acc s = Ok n.
Proof.
  revert acc. induction s as [|c s IH]; intros acc Hacc; cbn [parse_digits parseUint64_loop].
  - by intros [= <-].
  - destruct (digit_of_ascii c) as [d|] eqn:Hc; [|done]. intros Hn Hmax.
    pose proof (digit_of_ascii_range _ _ Hc) as Hd.
    assert (Hle : 10 * acc + d <= n) by (apply (parse_digits_mono _ s); [lia | done]).
    unfold MaxUint64 in *.
    destruct (Z.geb_spec acc (18446744073709551615 / 10 + 1)) as [Hge|_].
    { change (18446744073709551615 / 10 + 1) with 1844674407370955162 in Hge. lia. }
    destruct (Z.gtb_spec (10 * acc + d) 18446744073709551615); [lia|].
    apply IH; [lia | done | done].
Qed.

Lemma first_digit_not_sign acc c s n :
  parse_digits acc (String c s) = Some n -> Ascii.eqb c "+" = false /\ Ascii.eqb c "-" = false.
Proof.
  cbn [parse_digits]. destruct (digit_of_ascii c) as [d|] eqn:Hc; [|done]. intros _.
  revert Hc. destruct c as [[] [] [] [] [] [] [] []]; cbn; done.
Qed.

(** [strconv.ParseInt] reads back what [strconv.Itoa] prints, for a
    number from 0 to the largest int64. *)
Lemma strconv_ParseInt64_Itoa (n : Z) :
  0 <= n <= MaxInt64 -> strconv_ParseInt64 (strconv_Itoa n) = Ok n.
Proof.
  intros Hn. destruct (parse_digits_Itoa n ltac:(lia)) as [Hp Hne].
  unfold strconv_ParseInt64. destruct (strconv_Itoa n) as [|c s] eqn:Hs; [done|].
  destruct (first_digit_not_sign _ _ _ _ Hp) as [-> ->]. cbn [orb].
  unfold strconv_ParseUint64.
  rewrite (parseUint64_loop_digits 0 (String c s) n);
    [|lia|done|unfold MaxUint64, MaxInt64 in *; lia].
  cbn [bindE negb andb]. unfold MaxInt64 in Hn.
  destruct (Z.geb_spec n (2 ^ 63)); [lia | done].
Qed.

Lemma strings_Cut_number acc s n sep t :
  digit_of_ascii sep = None -> parse_digits acc s = Some n ->
  strings_Cut (s ++ String sep t) (String sep "") = (s, t, true).
Proof.
  intros Hsep. revert acc. induction s as [|c s IH]; intros acc Hs.
  - change ("" ++ String sep t)%string with (String sep t).
    cbn -[Ascii.eqb]. rewrite Ascii.eqb_refl. by destruct t.
  - cbn [parse_digits] in Hs. destruct (digit_of_ascii c) as [d|] eqn:Hc; [|done].
    change (String c s ++ String sep t)%string with (String c (s ++ String sep t)%string).
    cbn -[Ascii.eqb]. destruct (Ascii.eqb_spec sep c) as [->|_]; [congruence|].
    by rewrite (IH _ Hs).
Qed.

(** X15. readRange on a range written as two decimal
    numbers start-end with start <= end: when the file can be opened and
    has more than end bytes, the result is its bytes from offset start to
    offset end, both included, end - start + 1 of them; when the file has
    end bytes or fewer, readRange fails. *)
Theorem readRange_reads_the_range (fs : FileSystem) (filename : string) (content : list Z)
    (start end_ : Z) :
  fs filename = Some content -> 0 <= start <= end_ -> end_ < MaxInt64 ->
  let result := readRange fs filename (strconv_Itoa start ++ String "-" (strconv_Itoa end_)) in
  (end_ < Z.of_nat (length content) ->
   result = Ok (take (Z.to_nat (end_ - start + 1)) (drop (Z.to_nat start) content)) /\
   exists bytes, result = Ok bytes /\ Z.of_nat (length bytes) = end_ - start + 1) /\
  (Z.of_nat (length content) <= end_ -> is_Fail result).
Proof.
  intros Hfile Hse Hmax result. subst result. unfold readRange.
  destruct (parse_digits_Itoa start ltac:(lia)) as [Hps _].
  rewrite (strings_Cut_number _ _ _ "-" _ eq_refl Hps).
  rewrite !strconv_ParseInt64_Itoa by lia. cbn [bindE]. rewrite Hfile.
  unfold MaxInt64 in Hmax.
  destruct (Z.ltb_spec start 0); [lia|].
  rewrite int64_id by (unfold MinInt64, MaxInt64 in *; lia).
  destruct (Z.ltb_spec (end_ - start + 1) 0); [lia|].
  destruct (Z.eqb_spec (end_ - start + 1) 0); [lia|].
  rewrite length_drop. split.
  - intros Hlen.
    destruct (Z.ltb_spec (Z.of_nat (length content - Z.to_nat start)) (end_ - start + 1));
      [lia|].
    split; [done|]. eexists. split; [done|]. rewrite length_take, length_drop. lia.
  - intros Hlen.
    destruct (Z.ltb_spec (Z.of_nat (length content - Z.to_nat start)) (end_ - start + 1));
      [|lia].
    by eexists.
Qed.

Lemma readRange_reads_the_range_witness :
  readRange small_fs "clip.mp4" (strconv_Itoa 1 ++ String "-" (strconv_Itoa 3)) =
    Ok (take (Z.to_nat (3 - 1 + 1)) (drop (Z.to_nat 1) [10; 11; 12; 13; 14])) /\
  exists bytes,
    readRange small_fs "clip.mp4" (strconv_Itoa 1 ++ String "-" (strconv_Itoa 3)) = Ok bytes /\
    Z.of_nat (length bytes) = 3 - 1 + 1.
Proof.
  apply (readRange_reads_the_range small_fs "clip.mp4" [10; 11; 12; 13; 14] 1 3 eq_refl);
    [lia | unfold MaxInt64; lia | cbn; lia].
Defined.

Section LocalFile.
Context `{UrlLib}.

(** X16. fingerprintIndexedMP4 on a local file with no index
    range reads the range 0-65535 in full: a file of fewer than 65536
    bytes cannot be fingerprinted that way, the read fails before any box
    is looked for. *)
Theorem local_file_shorter_than_default_range (w : World) (pos : list nat) (fs : FileSystem)
    (filename : string) (content : list Z) :
  reads_files fs w -> url_isHTTP filename = false ->
  fs filename = Some content -> Z.of_nat (length content) < 65536 ->
  exists e, fingerprintIndexedMP4 w pos (MkIndexed filename "") = Fail (EWrap "read file" e).
Proof.
  intros Hw Hlocal Hfile Hlen. unfold fingerprintIndexedMP4. cbn [ix_URL ix_IndexRange].
  rewrite Hlocal, Hw. cbn [String.eqb].
  destruct (readRange_reads_the_range fs filename content 0 65535 Hfile ltac:(lia)
              ltac:(unfold MaxInt64; lia)) as [_ Hfail].
  destruct Hfail as [e He]; [lia|].
  change (strconv_Itoa 0 ++ String "-" (strconv_Itoa 65535))%string with "0-65535" in He.
  rewrite He. cbn. by eexists.
Qed.

End LocalFile.

Section Indexed_example.
Existing Instance simpleUrl.

Lemma fingerprint_indexed_from_sidx_witness :
  "video/mp4" = "video/mp4" /\
  exists raw sidx more,
    index_bytes small_world [] (MkIndexed "clip.mp4" "1-3") = Ok raw /\
    w_boxes small_world raw = Ok (Some sidx :: more) /\
    MkFingerprint [812345; 523456] [180000; 90000] 90000 =
      MkFingerprint (map ReferencedSize (sidx_References sidx))
        (map SubsegmentDuration (sidx_References sidx)) (sidx_Timescale sidx) /\
    length [812345; 523456] = length (sidx_References sidx) /\
    length [180000; 90000] = length (sidx_References sidx).
Proof.
  exact (fingerprint_indexed_from_sidx small_world [] "video/mp4" (MkIndexed "clip.mp4" "1-3")
           (MkFingerprint [812345; 523456] [180000; 90000] 90000) eq_refl).
Defined.

Lemma local_file_shorter_than_default_range_witness :
  exists e, fingerprintIndexedMP4 small_world [] (MkIndexed "clip.mp4" "") =
            Fail (EWrap "read file" e).
Proof.
  apply (local_file_shorter_than_default_range small_world [] small_fs "clip.mp4"
           [10; 11; 12; 13; 14]); [done | reflexivity | reflexivity | cbn; lia].
Defined.

End Indexed_example.

(** ** The manager: registration *)

Lemma lookup_insert_if {A} (id id' : string) (x : option A) (m : gmap string A) :
  insert_if id x m !! id' =
  if decide (id = id') then (match x with Some a => Some a | None => m !! id end)
  else m !! id'.
Proof.
  unfold insert_if. destruct x as [a|]; destruct (decide (id = id')) as [->|Hne]; try done.
  - apply lookup_insert_eq.
  - by apply lookup_insert_ne.
Qed.

Lemma register_Some r c r' :
  register r c = Some r' ->
  reg_clients r !! c_ID c = None /\
  reg_clients r' = <[c_ID c := c]> (reg_clients r) /\
  (forall id, id <> c_ID c ->
     reg_urlExtractors r' !! id = reg_urlExtractors r !! id /\
     reg_videoExtractors r' !! id = reg_videoExtractors r !! id /\
     reg_variantExtractors r' !! id = reg_variantExtractors r !! id /\
     reg_fingerprinters r' !! id = reg_fingerprinters r !! id).
Proof.
  unfold register. destruct (reg_clients r !! c_ID c) eqn:Hc; [done|].
  intros [= <-]. cbn. split; [done|]. split; [done|].
  intros id Hid. rewrite !lookup_insert_if.
  by destruct (decide (c_ID c = id)).
Qed.

(** A registry whose capability maps have no entry without a client. *)
Lemma register_registered r c r' :
  (forall id, reg_clients r !! id = None ->
     reg_urlExtractors r !! id = None /\ reg_videoExtractors r !! id = None /\
     reg_variantExtractors r !! id = None /\ reg_fingerprinters r !! id = None) ->
  register r c = Some r' ->
  registered r' c /\
  (forall id, reg_clients r' !! id = None ->
     reg_urlExtractors r' !! id = None /\ reg_videoExtractors r' !! id = None /\
     reg_variantExtractors r' !! id = None /\ reg_fingerprinters r' !! id = None).
Proof.
  intros Hinv. unfold register, registered.
  destruct (reg_clients r !! c_ID c) eqn:Hc; [done|].
  destruct (Hinv _ Hc) as (Hu & Hv & Hx & Hf).
  intros [= <-]. cbn. rewrite !lookup_insert_if, lookup_insert_eq.
  destruct (decide (c_ID c = c_ID c)); [|done]. split.
  - rewrite Hu, Hv, Hx, Hf.
    by destruct (c_URLExtractor c), (c_VideoExtractor c), (c_VariantExtractor c),
      (c_Fingerprinter c).
  - intros id Hid. rewrite !lookup_insert_if.
    destruct (decide (c_ID c = id)) as [<-|Hne]; [by rewrite lookup_insert_eq in Hid|].
    rewrite lookup_insert_ne in Hid by done. by apply Hinv.
Qed.

Lemma Register_all_spec cs : forall r r',
  (forall id, reg_clients r !! id = None ->
     reg_urlExtractors r !! id = None /\ reg_videoExtractors r !! id = None /\
     reg_variantExtractors r !! id = None /\ reg_fingerprinters r !! id = None) ->
  Register_all r cs = Some r' ->
  NoDup (map c_ID cs) /\
  (forall c, c ∈ cs -> reg_clients r !! c_ID c = None /\ registered r' c) /\
  (forall id, id ∉ map c_ID cs ->
     reg_clients r' !! id = reg_clients r !! id /\
     reg_urlExtractors r' !! id = reg_urlExtractors r !! id /\
     reg_videoExtractors r' !! id = reg_videoExtractors r !! id /\
     reg_variantExtractors r' !! id = reg_variantExtractors r !! id /\
     reg_fingerprinters r' !! id = reg_fingerprinters r !! id).
Proof.
  induction cs as [|c cs IH]; intros r r' Hinv; cbn [Register_all].
  - intros [= <-]. split; [constructor|]. split; [by intros c Hc%elem_of_nil | done].
  - destruct (register r c) as [r1|] eqn:Hreg; [|done]. intros Hall.
    destruct (register_registered _ _ _ Hinv Hreg) as [Hc Hinv1].
    destruct (register_Some _ _ _ Hreg) as (Hnew & Hcl & Hother).
    destruct (IH _ _ Hinv1 Hall) as (Hnd & Hin & Hout).
    assert (Hfresh : c_ID c ∉ map c_ID cs).
    { intros Hdup. apply list_elem_of_fmap in Hdup as (c' & Heq & Hc').
      destruct (Hin c' Hc') as [Hnone _]. rewrite Hcl, <- Heq, lookup_insert_eq in Hnone.
      done. }
    split; [cbn; by constructor|]. split.
    + intros c0 [->|Hc0]%elem_of_cons.
      * split; [done|]. unfold registered in *.
        destruct (Hout _ Hfresh) as (-> & -> & -> & -> & ->). exact Hc.
      * destruct (Hin c0 Hc0) as [Hnone Hreg0]. split; [|done].
        rewrite Hcl in Hnone. destruct (decide (c_ID c = c_ID c0)) as [Heq|Hne].
        -- by rewrite Heq, lookup_insert_eq in Hnone.
        -- by rewrite lookup_insert_ne in Hnone.
    + intros id Hid. cbn in Hid. apply not_elem_of_cons in Hid as [Hne Hid].
      destruct (Hout _ Hid) as (-> & -> & -> & -> & ->).
      destruct (Hother id Hne) as (-> & -> & -> & ->).
      rewrite Hcl, lookup_insert_ne by done. done.
Qed.

Lemma Register_all_fails cs : forall r,
  Register_all r cs = None <->
  ~ (NoDup (map c_ID cs) /\ forall c, c ∈ cs -> reg_clients r !! c_ID c = None).
Proof.
  induction cs as [|c cs IH]; intros r; cbn [Register_all].
  - split; [done|]. intros Hn. exfalso. apply Hn. split; [constructor|].
    by intros c Hc%elem_of_nil.
  - unfold register at 1. destruct (reg_clients r !! c_ID c) as [c0|] eqn:Hc.
    + split; [|done]. intros _ [_ Hall]. specialize (Hall c ltac:(by left)). congruence.
    + rewrite IH. cbn [reg_clients]. split.
      * intros Hn [Hnd Hall]. apply Hn. cbn in Hnd. apply NoDup_cons in Hnd as [Hfresh Hnd].
        split; [done|]. intros c' Hc'. rewrite lookup_insert_ne; [apply Hall; by right|].
        intros Heq. apply Hfresh. apply list_elem_of_fmap. by exists c'.
      * intros Hn [Hnd Hall]. apply Hn. split.
        -- cbn. constructor; [|done]. intros Hdup.
           apply list_elem_of_fmap in Hdup as (c' & Heq & Hc').
           specialize (Hall c' Hc'). by rewrite <- Heq, lookup_insert_eq in Hall.
        -- intros c' [->|Hc']%elem_of_cons; [done|]. specialize (Hall c' Hc').
           destruct (decide (c_ID c = c_ID c')) as [Heq|Hne].
           ++ by rewrite Heq, lookup_insert_eq in Hall.
           ++ by rewrite lookup_insert_ne in Hall.
Qed.

Section Registration.
Context `{UrlLib}.
Variable w : World.

(** X17. NewManager followed by calls of Register: the
    process is ended by log.Fatalf exactly when two clients share an ID
    or one is called default.  Otherwise every client is recorded under
    its ID in the maps of the interfaces it implements and in no other,
    and the ID default keeps the default variant extractor and
    fingerprinter, with no video extractor and no URL extractor: no URL
    is ever matched to it and ExtractURLs on it fails. *)
Theorem registration_keeps_services_apart (cs : list Client) :
  (manager_with w cs = None <-> ~ NoDup ("default" :: map c_ID cs)) /\
  (forall r, manager_with w cs = Some r ->
     registered r (defaultService w) /\
     (forall c, c ∈ cs -> registered r c) /\
     (forall id, reg_clients r !! id = None ->
        reg_urlExtractors r !! id = None /\ reg_videoExtractors r !! id = None /\
        reg_variantExtractors r !! id = None /\ reg_fingerprinters r !! id = None) /\
     (forall pos, is_Fail (Manager_ExtractURLs r pos "default"))).
Proof.
  unfold manager_with, NewManager.
  set (r0 := MkRegistry ∅ ∅ ∅ ∅ ∅).
  assert (Hinv0 : forall id, reg_clients r0 !! id = None ->
            reg_urlExtractors r0 !! id = None /\ reg_videoExtractors r0 !! id = None /\
            reg_variantExtractors r0 !! id = None /\ reg_fingerprinters r0 !! id = None).
  { by intros id _. }
  destruct (register r0 (defaultService w)) as [r1|] eqn:Hreg; [|done].
  destruct (register_registered _ _ _ Hinv0 Hreg) as [Hdef Hinv1].
  destruct (register_Some _ _ _ Hreg) as (_ & Hcl & _).
  assert (Hr1 : forall id, reg_clients r1 !! id = None <-> id <> "default").
  { intros id. rewrite Hcl. cbn. split.
    - intros Hnone ->. by rewrite lookup_insert_eq in Hnone.
    - intros Hne. by rewrite lookup_insert_ne. }
  split.
  - rewrite Register_all_fails. apply not_iff_compat. rewrite NoDup_cons. split.
    + intros [Hnd Hall]. split; [|done]. intros Hin.
      apply list_elem_of_fmap in Hin as (c & Heq & Hc). by apply (Hr1 (c_ID c)); [apply Hall|].
    + intros [Hfresh Hnd]. split; [done|]. intros c Hc. apply Hr1. intros Heq.
      apply Hfresh. apply list_elem_of_fmap. by exists c.
  - intros r Hall.
    destruct (Register_all_spec _ _ _ Hinv1 Hall) as (Hnd & Hin & Hout).
    assert (Hfresh : "default" ∉ map c_ID cs).
    { intros Hdup. apply list_elem_of_fmap in Hdup as (c & Heq & Hc).
      destruct (Hin c Hc) as [Hnone _]. by apply Hr1 in Hnone. }
    assert (Hd : registered r (defaultService w)).
    { unfold registered in *. cbn [c_ID defaultService] in *.
      by destruct (Hout _ Hfresh) as (-> & -> & -> & -> & ->). }
    split; [exact Hd|]. split; [intros c Hc; by apply Hin|]. split.
    + intros id Hid. destruct (decide (id ∈ map c_ID cs)) as [Hdup|Hnew].
      * apply list_elem_of_fmap in Hdup as (c & -> & Hc).
        destruct (Hin c Hc) as [_ [Hreg0 _]]. congruence.
      * destruct (Hout _ Hnew) as (Hc & -> & -> & -> & ->). rewrite Hc in Hid.
        by apply Hinv1.
    + intros pos. unfold Manager_ExtractURLs.
      destruct Hd as (_ & Hu & _).
      change (c_ID (defaultService w)) with "default" in Hu.
      change (c_URLExtractor (defaultService w)) with (@None URLExtractor) in Hu.
      unfold URLExtractor in *. rewrite Hu. by eexists.
Qed.

End Registration.

(** ** The manager: the service of a URL *)

Section MatchURL.
Variable w : World.
Variable m : Manager.

(** X18. matchURL returns the ID of a registered video extractor
    whose Matches accepts the URL, and nothing exactly when no
    registered extractor accepts it; when exactly one accepts it, that
    one is returned whatever the iteration order of the map. *)
Theorem matchURL_finds_a_matching_service (u : string) :
  (forall id, matchURL w m u = Some id ->
     exists ve, m_videoExtractors m !! id = Some ve /\ ve_Matches ve u = true) /\
  (matchURL w m u = None <->
   forall id ve, m_videoExtractors m !! id = Some ve -> ve_Matches ve u = false) /\
  (forall id ve, m_videoExtractors m !! id = Some ve -> ve_Matches ve u = true ->
     (forall id' ve', m_videoExtractors m !! id' = Some ve' -> ve_Matches ve' u = true ->
        id' = id) ->
     matchURL w m u = Some id).
Proof.
  unfold matchURL.
  set (l := schedule (w_order w [O]) (map_to_list (m_videoExtractors m))).
  assert (Hl : forall id ve, (id, ve) ∈ l <-> m_videoExtractors m !! id = Some ve).
  { intros id ve. unfold l. rewrite elem_of_schedule. apply elem_of_map_to_list. }
  assert (Hsound : forall id, fst <$> List.find (fun ive => ve_Matches (snd ive) u) l = Some id ->
            exists ve, m_videoExtractors m !! id = Some ve /\ ve_Matches ve u = true).
  { intros id Hid. destruct (List.find _ l) as [[id' ve]|] eqn:Hfind; [|done].
    injection Hid as ->. apply find_some in Hfind as [Hin Hm].
    apply list_elem_of_In, Hl in Hin. by exists ve. }
  assert (Hnone : fst <$> List.find (fun ive => ve_Matches (snd ive) u) l = None <->
            forall id ve, m_videoExtractors m !! id = Some ve -> ve_Matches ve u = false).
  { split.
    - intros Hn id ve Hve. destruct (List.find _ l) eqn:Hfind; [done|].
      apply (find_none _ _ Hfind (id, ve)). by apply list_elem_of_In, Hl.
    - intros Hall. destruct (List.find _ l) as [[id ve]|] eqn:Hfind; [|done].
      apply find_some in Hfind as [Hin Hm]. apply list_elem_of_In, Hl in Hin.
      cbn in Hm. rewrite (Hall _ _ Hin) in Hm. done. }
  split; [exact Hsound|]. split; [exact Hnone|].
  intros id ve Hve Hm Huniq.
  destruct (fst <$> List.find (fun ive => ve_Matches (snd ive) u) l) as [id'|].
  - destruct (Hsound _ eq_refl) as (ve' & Hve' & Hm'). f_equal. by eapply Huniq.
  - rewrite (proj1 Hnone eq_refl _ _ Hve) in Hm. done.
Qed.

End MatchURL.

(** ** The manager: what [Extract] returns *)

Section ExtractResults.
Variable w : World.
Variable m : Manager.

Lemma matchURL_Some u id :
  matchURL w m u = Some id ->
  exists ve, m_videoExtractors m !! id = Some ve /\ ve_Matches ve u = true.
Proof.
  unfold matchURL. destruct (List.find _ _) as [[id' ve]|] eqn:Hfind; [|done].
  intros [= <-]. apply find_some in Hfind as [Hin Hm].
  apply list_elem_of_In, elem_of_schedule, elem_of_map_to_list in Hin. by exists ve.
Qed.

Lemma successes_failures_length {A} (results : list (Err A)) :
  (length (successes results) + length (failures results) = length results)%nat.
Proof. induction results as [|[a|e] results IH]; cbn; lia. Qed.

Lemma started_tasks_length j rs :
  (length (started_tasks w j rs) <= length rs)%nat /\
  ((forall j', w_ctxDone w [j'] = false) -> length (started_tasks w j rs) = length rs).
Proof.
  revert j. induction rs as [|r rs IH]; intros j; cbn [started_tasks]; [done|].
  destruct (IH (S j)) as [Hle Heq]. split.
  - destruct (w_ctxDone w [j]); cbn; lia.
  - intros Halive. rewrite Halive. cbn. by rewrite Heq.
Qed.

(** X19. A successful Extract: the result names the
    URL and a service whose extractor matches it, and has at least one
    video and no more videos than the service returned video results.
    When the context is not cancelled while the goroutines are started
    and at most one video result is missing from the videos, [NumFailed]
    and the number of recorded errors are the number of missing results.
    (With more failures the goroutines update the two fields at the same
    time without a lock, and nothing is stated.) *)
Theorem extract_accounts_for_every_result (url format : string) (result : ExtractResult) :
  Extract w m url format = Ok result ->
  er_URL result = url /\ er_Videos result <> [] /\
  exists ve,
    m_videoExtractors m !! er_Service result = Some ve /\ ve_Matches ve url = true /\
    (length (er_Videos result) <= length (ve_VideoExtract ve url))%nat /\
    ((forall j, w_ctxDone w [j] = false) ->
     (length (ve_VideoExtract ve url) <= length (er_Videos result) + 1)%nat ->
     er_NumFailed result
     = Z.of_nat (length (ve_VideoExtract ve url) - length (er_Videos result)) /\
     length (er_FailedErrors result)
     = (length (ve_VideoExtract ve url) - length (er_Videos result))%nat).
Proof.
  unfold Extract. destruct (matchURL w m url) as [id|] eqn:Hmatch; [|done].
  destruct (matchURL_Some _ _ Hmatch) as (ve & Hve & Hm). rewrite Hve. cbn [deref bindE].
  set (done := map _ _).
  destruct (successes done) as [|vid0 videos] eqn:Hs; [done|].
  intros [= <-]. cbn [er_URL er_Videos er_NumFailed er_FailedErrors er_Service].
  split; [done|]. split; [done|].
  exists ve. split; [done|]. split; [done|].
  pose proof (successes_failures_length done) as Hlen. rewrite Hs in Hlen.
  assert (Hdone : length done = length (started_tasks w 0 (ve_VideoExtract ve url))).
  { unfold done. rewrite length_map. apply Permutation_length, schedule_Permutation. }
  destruct (started_tasks_length 0 (ve_VideoExtract ve url)) as [Hle Heq].
  split; [lia|]. intros Halive Hone. specialize (Heq Halive).
  assert (Hfew : (length (failures done) <= 1)%nat) by lia.
  assert (Hfields : failure_fields w (failures done)
                    = (Z.of_nat (length (failures done)), failures done)).
  { by destruct (failures done) as [|e [|e' errs]]; [..|cbn in Hfew; lia]. }
  rewrite Hfields. cbn [fst snd]. split; [f_equal|]; lia.
Qed.

Lemma video_task_inv id url format j r vid :
  video_task w m id url format (j, r) = Ok vid ->
  vr_Err r = None /\
  exists extracted fingerprinted,
    map Ok extracted =
      map (fun kref => Manager_extractVariants m [j; O; fst kref] id (snd kref))
          (schedule (w_order w [j; 1%nat])
             (filter (fun kref => wantedFormat format kref = true)
                     (indexed (vr_References r)))) /\
    map Ok fingerprinted =
      map (fun kv => Manager_fingerprint m [j; 2%nat; fst kv] id (snd kv))
          (schedule (w_order w [j; 3%nat]) (indexed (dedupByID ∅ (concat extracted)))) /\
    vid = set_Variants (vr_Video r) (vid_Variants (vr_Video r) ++ fingerprinted).
Proof.
  unfold video_task. destruct (vr_Err r); [done|]. split; [done|].
  revert H. set (extracted := map _ _).
  destruct (first_error extracted) eqn:Hfe; [done|].
  set (fingerprinted := map _ _).
  destruct (first_error fingerprinted) eqn:Hff; [done|].
  intros [= <-]. exists (successes extracted), (successes fingerprinted).
  split; [by apply successes_all|]. split; [by apply successes_all|done].
Qed.

(** X20. The variants of a video in a successful Extract,
    when the service returned the video without variants: their IDs are
    exactly the IDs of the variants extracted from the references of the
    wanted format (no ID is lost by the deduplication), and each of them
    is one of those extracted variants with only its Fingerprint slot
    set. *)
Theorem extracted_ids_all_kept (url format : string) (result : ExtractResult)
    (vid : Video) :
  Extract w m url format = Ok result -> vid ∈ er_Videos result ->
  videos_without_variants m url ->
  exists ve j r,
    m_videoExtractors m !! er_Service result = Some ve /\
    r ∈ ve_VideoExtract ve url /\ vr_Err r = None /\
    (forall x, x ∈ map v_ID (vid_Variants vid) <->
       exists k ref vs v,
         vr_References r !! k = Some ref /\ wantedFormat format (k, ref) = true /\
         Manager_extractVariants m [j; O; k] (er_Service result) ref = Ok vs /\
         v ∈ vs /\ v_ID v = x) /\
    (forall v', v' ∈ vid_Variants vid ->
       exists k ref vs v fp,
         vr_References r !! k = Some ref /\ wantedFormat format (k, ref) = true /\
         Manager_extractVariants m [j; O; k] (er_Service result) ref = Ok vs /\
         v ∈ vs /\ v' = set_Fingerprint v (Some fp)).
Proof.
  intros Hres Hvid Hnone.
  destruct (Extract_video _ _ _ _ _ _ Hres Hvid) as (id & ve & j & r & Hid & Hve & Hr & Hvt).
  subst id. exists ve, j, r. split; [done|]. split; [done|].
  destruct (video_task_inv _ _ _ _ _ _ Hvt) as (Herr & extracted & fingerprinted & Hex & Hfp & ->).
  split; [done|]. rewrite (Hnone _ _ _ Hve Hr). cbn [vid_Variants set_Variants app].
  apply map_Ok_Forall2 in Hfp.
  assert (Hfrom : forall v, v ∈ concat extracted ->
            exists k ref vs, vr_References r !! k = Some ref /\
              wantedFormat format (k, ref) = true /\
              Manager_extractVariants m [j; O; k] (er_Service result) ref = Ok vs /\ v ∈ vs).
  { intros v Hv. apply list_elem_of_In, in_concat in Hv as (vs & Hvs & Hv).
    apply list_elem_of_In in Hvs, Hv.
    assert (Hok : Ok vs ∈ map Ok extracted) by (by apply list_elem_of_fmap_2).
    rewrite Hex in Hok. apply list_elem_of_fmap in Hok as ([k ref] & Hkref & Hin).
    apply elem_of_schedule, list_elem_of_filter in Hin as [Hwanted Hin].
    apply elem_of_indexed in Hin. by exists k, ref, vs. }
  assert (Hto : forall k ref vs v, vr_References r !! k = Some ref ->
            wantedFormat format (k, ref) = true ->
            Manager_extractVariants m [j; O; k] (er_Service result) ref = Ok vs ->
            v ∈ vs -> v ∈ concat extracted).
  { intros k ref vs v Hk Hwanted Hvs Hv.
    apply list_elem_of_In, in_concat. exists vs. split; [|by apply list_elem_of_In].
    apply list_elem_of_In.
    assert (Hok : Ok vs ∈ map Ok extracted).
    { rewrite Hex. apply list_elem_of_fmap. exists (k, ref). split; [done|].
      apply elem_of_schedule, list_elem_of_filter. split; [done|]. by apply elem_of_indexed. }
    apply list_elem_of_fmap in Hok as (vs' & [= ->] & Hvs'). done. }
  assert (Hdone : forall v', v' ∈ fingerprinted ->
            exists v fp, v ∈ dedupByID ∅ (concat extracted) /\ v' = set_Fingerprint v (Some fp)).
  { intros v' Hv'. apply list_elem_of_lookup in Hv' as [i Hi].
    destruct (Forall2_lookup_r _ _ _ _ _ Hfp Hi) as ([k v] & Hkv & Hmf).
    apply Manager_fingerprint_Ok in Hmf as (f & fp & _ & _ & ->).
    exists v, fp. split; [|done].
    apply list_elem_of_lookup_2, elem_of_schedule, elem_of_indexed in Hkv.
    by eapply list_elem_of_lookup_2. }
  assert (Hall : forall v, v ∈ dedupByID ∅ (concat extracted) ->
            exists fp, set_Fingerprint v (Some fp) ∈ fingerprinted).
  { intros v Hv. apply list_elem_of_lookup in Hv as [k Hk].
    apply elem_of_indexed, (elem_of_schedule (w_order w [j; 3%nat])), list_elem_of_lookup in Hk
      as [i Hi].
    destruct (Forall2_lookup_l _ _ _ _ _ Hfp Hi) as (v' & Hv' & Hmf).
    apply Manager_fingerprint_Ok in Hmf as (f & fp & _ & _ & ->).
    exists fp. by eapply list_elem_of_lookup_2. }
  destruct (dedupByID_spec ∅ (concat extracted)) as (_ & Hids & Hsub).
  split.
  - intros x. split.
    + intros Hx. apply list_elem_of_fmap in Hx as (v' & -> & Hv').
      destruct (Hdone v' Hv') as (v & fp & Hv & ->).
      assert (Hvc : v ∈ concat extracted) by (by eapply elem_of_sublist; [|exact Hsub]).
      destruct (Hfrom v Hvc) as (k & ref & vs & ? & ? & ? & ?).
      by exists k, ref, vs, v.
    + intros (k & ref & vs & v & Hk & Hwanted & Hvs & Hv & <-).
      assert (Hx : v_ID v ∈ map v_ID (dedupByID ∅ (concat extracted))).
      { apply Hids. split; [|apply not_elem_of_empty].
        apply list_elem_of_fmap_2. by eapply Hto. }
      apply list_elem_of_fmap in Hx as (v0 & Heq & Hv0).
      destruct (Hall v0 Hv0) as [fp Hfp0].
      apply list_elem_of_fmap. exists (set_Fingerprint v0 (Some fp)). by split.
  - intros v' Hv'. destruct (Hdone v' Hv') as (v & fp & Hv & ->).
    assert (Hvc : v ∈ concat extracted) by (by eapply elem_of_sublist; [|exact Hsub]).
    destruct (Hfrom v Hvc) as (k & ref & vs & ? & ? & ? & ?).
    by exists k, ref, vs, v, fp.
Qed.

(** X21. A video result without error none of whose
    references has the wanted format (and the format is not both): no
    manifest is fetched, nothing is fingerprinted, and the goroutine of
    Extract hands the video on as the service returned it, not as a
    failure. *)
Theorem video_without_wanted_reference (id url format : string) (j : nat)
    (r : VideoResult) :
  vr_Err r = None ->
  Forall (fun ref => format <> "both" /\ ref_Format ref <> format) (vr_References r) ->
  video_task w m id url format (j, r) = Ok (vr_Video r).
Proof.
  intros Herr Hrefs. unfold video_task. rewrite Herr.
  assert (Hfilter : filter (fun kref => wantedFormat format kref = true)
                      (indexed (vr_References r)) = []).
  { destruct (filter _ _) as [|[k ref] rest] eqn:Hf; [done|]. exfalso.
    assert (Hin : (k, ref) ∈ filter (fun kref => wantedFormat format kref = true)
                    (indexed (vr_References r))) by (rewrite Hf; by left).
    apply list_elem_of_filter in Hin as [Hwanted Hin].
    apply elem_of_indexed, list_elem_of_lookup_2 in Hin.
    destruct (proj1 (Forall_forall _ _) Hrefs _ Hin) as [Hboth Hfmt].
    unfold wantedFormat in Hwanted. cbn in Hwanted.
    apply orb_prop in Hwanted as [Hw|Hw]; apply String.eqb_eq in Hw; congruence. }
  rewrite Hfilter.
  assert (Hs : forall A (choices : list nat), schedule choices (@nil A) = []).
  { intros A choices. by destruct choices. }
  rewrite Hs. cbn. rewrite Hs. cbn. rewrite app_nil_r. by destruct (vr_Video r).
Qed.

End ExtractResults.

Example one_failure_extract :
  Extract c1_world one_failure_manager c1_url "both" = Ok one_failure_result.
Proof. vm_compute. reflexivity. Qed.

Lemma extract_accounts_for_every_result_witness :
  er_URL one_failure_result = c1_url /\ er_Videos one_failure_result <> [] /\
  exists ve,
    m_videoExtractors one_failure_manager !! er_Service one_failure_result = Some ve /\
    ve_Matches ve c1_url = true /\
    (length (er_Videos one_failure_result) <= length (ve_VideoExtract ve c1_url))%nat /\
    ((forall j, w_ctxDone c1_world [j] = false) ->
     (length (ve_VideoExtract ve c1_url) <= length (er_Videos one_failure_result) + 1)%nat ->
     er_NumFailed one_failure_result
     = Z.of_nat (length (ve_VideoExtract ve c1_url) - length (er_Videos one_failure_result)) /\
     length (er_FailedErrors one_failure_result)
     = (length (ve_VideoExtract ve c1_url) - length (er_Videos one_failure_result))%nat).
Proof.
  exact (extract_accounts_for_every_result c1_world one_failure_manager c1_url "both"
           one_failure_result one_failure_extract).
Defined.

Lemma extracted_ids_all_kept_witness :
  exists ve j r,
    m_videoExtractors c1_manager !! er_Service c1_result = Some ve /\
    r ∈ ve_VideoExtract ve c1_url /\ vr_Err r = None /\
    (forall x, x ∈ map v_ID (vid_Variants c1_video) <->
       exists k ref vs v,
         vr_References r !! k = Some ref /\ wantedFormat "both" (k, ref) = true /\
         Manager_extractVariants c1_manager [j; O; k] (er_Service c1_result) ref = Ok vs /\
         v ∈ vs /\ v_ID v = x) /\
    (forall v', v' ∈ vid_Variants c1_video ->
       exists k ref vs v fp,
         vr_References r !! k = Some ref /\ wantedFormat "both" (k, ref) = true /\
         Manager_extractVariants c1_manager [j; O; k] (er_Service c1_result) ref = Ok vs /\
         v ∈ vs /\ v' = set_Fingerprint v (Some fp)).
Proof.
  exact (extracted_ids_all_kept c1_world c1_manager c1_url "both" c1_result c1_video
           c1_extract (list_elem_of_here _ _) c1_videos_without_variants).
Defined.

Lemma video_without_wanted_reference_witness :
  video_task emptyWorld c1_manager "svc" c1_url "dash" (0%nat, hls_only_videoResult) =
  Ok (vr_Video hls_only_videoResult).
Proof.
  apply (video_without_wanted_reference emptyWorld c1_manager "svc" c1_url "dash" 0
           hls_only_videoResult eq_refl).
  repeat constructor; discriminate.
Defined.

(** ** The manager: [Fingerprint] *)

Lemma store_variants_length vs done : length (store_variants vs done) = length vs.
Proof.
  revert vs. induction done as [|[i [v|e]] done IH]; intros vs; cbn; [done| |done].
  by rewrite IH, length_insert.
Qed.

Lemma store_variants_other vs done i :
  i ∉ map fst done -> store_variants vs done !! i = vs !! i.
Proof.
  revert vs. induction done as [|[j [v|e]] done IH]; intros vs Hi; cbn; [done|..].
  - cbn in Hi. apply not_elem_of_cons in Hi as [Hne Hi].
    rewrite IH by done. by apply list_lookup_insert_ne.
  - cbn in Hi. apply not_elem_of_cons in Hi as [Hne Hi]. by apply IH.
Qed.

Lemma store_variants_lookup vs done i v :
  NoDup (map fst done) -> (i < length vs)%nat -> (i, Ok v) ∈ done ->
  store_variants vs done !! i = Some v.
Proof.
  revert vs. induction done as [|[j r] done IH]; intros vs Hnd Hi Hin.
  - by apply elem_of_nil in Hin.
  - cbn in Hnd. apply NoDup_cons in Hnd as [Hj Hnd].
    apply elem_of_cons in Hin as [[= <- <-] | Hin].
    + cbn. rewrite store_variants_other by done. by apply list_lookup_insert_eq.
    + assert (i <> j).
      { intros ->. apply Hj. apply list_elem_of_fmap. by exists (j, Ok v). }
      destruct r as [v'|e]; cbn; apply IH; rewrite ?length_insert; done.
Qed.

Section FingerprintCommand.
Context `{UrlPath}.
Variable w : World.
Variable m : Manager.

Lemma fingerprint_tasks_NoDup pos vs : NoDup (map fst (fingerprint_tasks w m pos vs)).
Proof.
  unfold fingerprint_tasks. rewrite map_map. cbn.
  change (NoDup (map fst (schedule (w_order w (pos ++ [2%nat])) (indexed vs)))).
  rewrite schedule_Permutation, fst_indexed. apply NoDup_seq.
Qed.

Lemma fingerprintVariants_Ok pos format fileOrURL baseURL fvs :
  fingerprintVariants w m pos format fileOrURL baseURL = Ok fvs ->
  exists ve vs,
    m_variantExtractors m !! "default" = Some ve /\
    ve (pos ++ [O]) (MkReference "" format fileOrURL [baseURL]) = Ok vs /\
    Forall2 (fun v v' => exists fp, v' = set_Fingerprint v (Some fp)) vs fvs.
Proof.
  unfold fingerprintVariants.
  destruct (m_variantExtractors m !! "default") as [ve|]; [|done]. cbn [deref bindE].
  intros Hfvs. apply bindE_Ok in Hfvs as (vs & Hvs & Hfvs). apply wrapE_Ok in Hvs.
  destruct (first_error _) eqn:Hfe; [done|]. injection Hfvs as <-.
  exists ve, vs. split; [done|]. split; [done|].
  apply Forall2_same_length_lookup_2; [by rewrite store_variants_length|].
  intros i v v' Hv Hv'.
  assert (Hin : (i, Manager_fingerprint m (pos ++ [1; i]%nat) "default" v)
                ∈ fingerprint_tasks w m pos vs).
  { unfold fingerprint_tasks. apply list_elem_of_fmap. exists (i, v). split; [done|].
    by apply elem_of_schedule, elem_of_indexed. }
  destruct (first_error_None _ (Manager_fingerprint m (pos ++ [1; i]%nat) "default" v) Hfe)
    as [v1 Hv1].
  { apply list_elem_of_fmap. by eexists; split; [|exact Hin]. }
  rewrite Hv1 in Hin.
  rewrite (store_variants_lookup vs _ i v1) in Hv'.
  - injection Hv' as <-. apply Manager_fingerprint_Ok in Hv1 as (f & fp & _ & _ & ->).
    by exists fp.
  - apply fingerprint_tasks_NoDup.
  - by eapply lookup_lt_Some.
  - done.
Qed.

(** X22. A successful Manager.Fingerprint: the result
    names the file or URL.  For the extensions .mpd and .m3u8, compared
    without regard to case, it holds the variants the default extractor
    returned for the format dash or hls with the base URL as only server,
    in the extractor's order and without deduplication, each with its
    Fingerprint slot set, and no fingerprint of its own.  For .mp4 it
    holds a fingerprint and no variants.  Other extensions fail. *)
Theorem fingerprint_command_result (pos : list nat) (fileOrURL baseURL indexRange : string)
    (result : FingerprintResult) :
  Manager_Fingerprint w m pos fileOrURL baseURL indexRange = Ok result ->
  fr_URL result = fileOrURL /\
  (((getExtension fileOrURL = ".mpd" \/ getExtension fileOrURL = ".m3u8") /\
    fr_Fingerprint result = None /\
    exists ve vs fvs,
      m_variantExtractors m !! "default" = Some ve /\
      ve (pos ++ [O])
        (MkReference "" (format_of_extension (getExtension fileOrURL)) fileOrURL [baseURL])
      = Ok vs /\
      fr_Variants result = Some fvs /\
      Forall2 (fun v v' => exists fp, v' = set_Fingerprint v (Some fp)) vs fvs) \/
   (getExtension fileOrURL = ".mp4" /\ fr_Variants result = None /\
    exists f fp,
      m_fingerprinters m !! "default" = Some f /\
      f pos (mp4_variant fileOrURL indexRange) = (fp, None) /\
      fr_Fingerprint result = Some fp)).
Proof.
  unfold Manager_Fingerprint, format_of_extension.
  destruct (String.eqb_spec (getExtension fileOrURL) ".mpd") as [Hext|_].
  { intros Hr. apply bindE_Ok in Hr as (fvs & Hfvs & [= <-]). split; [done|]. left.
    split; [by left|]. split; [done|].
    apply fingerprintVariants_Ok in Hfvs as (ve & vs & ? & ? & ?). by exists ve, vs, fvs. }
  destruct (String.eqb_spec (getExtension fileOrURL) ".m3u8") as [Hext|_].
  { intros Hr. apply bindE_Ok in Hr as (fvs & Hfvs & [= <-]). split; [done|]. left.
    split; [by right|]. split; [done|].
    apply fingerprintVariants_Ok in Hfvs as (ve & vs & ? & ? & ?). by exists ve, vs, fvs. }
  destruct (String.eqb_spec (getExtension fileOrURL) ".mp4") as [Hext|_]; [|done].
  destruct (m_fingerprinters m !! "default") as [f|]; [|done]. cbn [deref bindE].
  destruct (f pos (mp4_variant fileOrURL indexRange)) as [fp [e|]] eqn:Hf; [done|].
  intros [= <-]. split; [done|]. right. split; [done|]. split; [done|]. by exists f, fp.
Qed.

End FingerprintCommand.

Section FingerprintCommand_example.
Existing Instance simpleUrl.
Existing Instance simplePath.

Example small_fingerprint :
  Manager_Fingerprint small_world small_manager [] "clip.mp4" "" "1-3" = Ok small_result.
Proof. vm_compute. reflexivity. Qed.

Lemma fingerprint_command_result_witness :
  fr_URL small_result = "clip.mp4" /\
  (((getExtension "clip.mp4" = ".mpd" \/ getExtension "clip.mp4" = ".m3u8") /\
    fr_Fingerprint small_result = None /\
    exists ve vs fvs,
      m_variantExtractors small_manager !! "default" = Some ve /\
      ve ([] ++ [O])
        (MkReference "" (format_of_extension (getExtension "clip.mp4")) "clip.mp4" [""])
      = Ok vs /\
      fr_Variants small_result = Some fvs /\
      Forall2 (fun v v' => exists fp, v' = set_Fingerprint v (Some fp)) vs fvs) \/
   (getExtension "clip.mp4" = ".mp4" /\ fr_Variants small_result = None /\
    exists f fp,
      m_fingerprinters small_manager !! "default" = Some f /\
      f [] (mp4_variant "clip.mp4" "1-3") = (fp, None) /\
      fr_Fingerprint small_result = Some fp)).
Proof.
  exact (fingerprint_command_result small_world small_manager [] "clip.mp4" "" "1-3"
           small_result small_fingerprint).
Defined.

End FingerprintCommand_example.

(** ** model.go: titles *)

Lemma length_zeros n : String.length (zeros n) = n.
Proof. induction n; cbn; congruence. Qed.

Lemma parse_digits_zeros n s : parse_digits 0 (zeros n ++ s) = parse_digits 0 s.
Proof.
  induction n as [|n IH]; [done|].
  change (zeros (S n) ++ s)%string with (String "0" (zeros n ++ s)%string).
  cbn [parse_digits]. exact IH.
Qed.

Lemma str_app_assoc (s t u : string) : ((s ++ t) ++ u = s ++ (t ++ u))%string.
Proof.
  induction s as [|c s IH]; [done|].
  change (String c ((s ++ t) ++ u)%string = String c (s ++ (t ++ u))%string). by rewrite IH.
Qed.

Lemma str_app_nil_r (s : string) : (s ++ "")%string = s.
Proof.
  induction s as [|c s IH]; [done|].
  change (String c (s ++ "")%string = String c s). by rewrite IH.
Qed.

Lemma str_app_length (s t : string) :
  String.length (s ++ t) = (String.length s + String.length t)%nat.
Proof.
  induction s as [|c s IH]; [done|].
  change (S (String.length (s ++ t)) = S (String.length s + String.length t)). by rewrite IH.
Qed.

(** A number of at most three digits. *)
Lemma Itoa_three_digits (n : Z) :
  0 <= n <= 999 -> (String.length (strconv_Itoa n) <= 3)%nat.
Proof.
  intros Hn.
  assert (Hall : forallb (fun k => (String.length (strconv_Itoa (Z.of_nat k)) <=? 3)%nat)
                   (seq 0 1000) = true) by (vm_compute; reflexivity).
  rewrite forallb_forall in Hall.
  specialize (Hall (Z.to_nat n)). rewrite Z2Nat.id in Hall by lia.
  apply Nat.leb_le, Hall, in_seq. lia.
Qed.

(** [%0<width>d] of a number that is not negative parses back to it and
    fills the width. *)
Lemma fmt_0d_parse (width : nat) (n : Z) :
  0 <= n -> parse_digits 0 (fmt_0d width n) = Some n.
Proof.
  intros Hn. unfold fmt_0d. destruct (Z.ltb_spec n 0); [lia|].
  rewrite parse_digits_zeros. by apply parse_digits_Itoa.
Qed.

Lemma fmt_0d_length (width : nat) (n : Z) :
  0 <= n -> (String.length (strconv_Itoa n) <= width)%nat ->
  String.length (fmt_0d width n) = width.
Proof.
  intros Hn Hlen. unfold fmt_0d. destruct (Z.ltb_spec n 0); [lia|].
  rewrite str_app_length, length_zeros. lia.
Qed.

Lemma strings_HasPrefix_app (s t : string) : strings_HasPrefix (s ++ t) s = true.
Proof.
  induction s as [|c s IH]; [by destruct t|].
  change (String c s ++ t)%string with (String c (s ++ t)%string).
  cbn -[Ascii.eqb]. by rewrite Ascii.eqb_refl.
Qed.

(** X23. [OneTitle] with a season or an episode number: the title is
    the main title, the tag [ SdddEddd] whose two fields of three digits
    read back as the season and the episode (numbers up to 999), and the
    secondary title after a space when it is not empty and differs from
    the main title.  The title starts with the main title. *)
Theorem OneTitle_numbered (main secondary : string) (season episode : Z) :
  0 <= season <= 999 -> 0 <= episode <= 999 -> 0 < season \/ 0 < episode ->
  strings_HasPrefix (OneTitle main secondary season episode) main = true /\
  exists s e,
    OneTitle main secondary season episode
    = (main ++ " S" ++ s ++ "E" ++ e ++ shown_secondary " " main secondary)%string /\
    String.length s = 3%nat /\ String.length e = 3%nat /\
    parse_digits 0 s = Some season /\ parse_digits 0 e = Some episode.
Proof.
  intros Hs He Hpos.
  assert (Htitle : OneTitle main secondary season episode
    = (main ++ " S" ++ fmt_0d 3 season ++ "E" ++ fmt_0d 3 episode
         ++ shown_secondary " " main secondary)%string).
  { unfold OneTitle, shown_secondary.
    replace ((season >? 0) || (episode >? 0)) with true
      by (symmetry; apply orb_true_iff; rewrite !Z.gtb_ltb, !Z.ltb_lt; lia).
    destruct (String.eqb secondary ""); cbn [negb andb].
    - by rewrite ?str_app_assoc, ?str_app_nil_r.
    - destruct (String.eqb secondary main); cbn [negb].
      + by rewrite ?str_app_assoc, ?str_app_nil_r.
      + by rewrite ?str_app_assoc. }
  split; [rewrite Htitle; apply strings_HasPrefix_app|].
  exists (fmt_0d 3 season), (fmt_0d 3 episode). split; [exact Htitle|].
  split; [apply fmt_0d_length; [lia|by apply Itoa_three_digits]|].
  split; [apply fmt_0d_length; [lia|by apply Itoa_three_digits]|].
  split; apply fmt_0d_parse; lia.
Qed.

Lemma OneTitle_numbered_witness :
  strings_HasPrefix (OneTitle "Show" "Pilot" 1 12) "Show" = true /\
  exists s e,
    OneTitle "Show" "Pilot" 1 12
    = ("Show" ++ " S" ++ s ++ "E" ++ e ++ shown_secondary " " "Show" "Pilot")%string /\
    String.length s = 3%nat /\ String.length e = 3%nat /\
    parse_digits 0 s = Some 1 /\ parse_digits 0 e = Some 12.
Proof. apply (OneTitle_numbered "Show" "Pilot" 1 12); lia. Defined.

(** ** svt/svt.go *)

(** A set filled by a loop that adds at most one element per step. *)
Lemma elem_of_foldl_step {A} (step : gset string -> A -> gset string)
    (Q : A -> string -> Prop) :
  (forall s e x, x ∈ step s e <-> x ∈ s \/ Q e x) ->
  forall l s x, x ∈ foldl step s l <-> x ∈ s \/ exists e, e ∈ l /\ Q e x.
Proof.
  intros Hstep l. induction l as [|e l IH]; intros s x; cbn [foldl].
  - split; [by left|]. intros [?|(e & He & _)]; [done|]. by apply elem_of_nil in He.
  - rewrite IH, Hstep. split.
    + intros [[?|?]|(e' & ? & ?)]; [by left|right; exists e|right; exists e'];
        (split; [|done]); [apply list_elem_of_here|by apply list_elem_of_further].
    + intros [?|(e' & He' & ?)]; [by left; left|].
      apply elem_of_cons in He' as [->|?]; [by left; right|]. right. by exists e'.
Qed.

Lemma elem_of_paths country d x :
  x ∈ svt.paths country d <->
  exists p e, p ∈ d /\ e ∈ p /\ svt.listed country e = true /\ x = svt.ep_SvtPlay e.
Proof.
  unfold svt.paths.
  rewrite (elem_of_foldl_step _
             (fun p x => exists e, e ∈ p /\ svt.listed country e = true /\
                                   x = svt.ep_SvtPlay e)).
  - split; [intros [H|H]; [set_solver|]|intros H; right]; naive_solver.
  - intros s p y.
    rewrite (elem_of_foldl_step _
               (fun e x => svt.listed country e = true /\ x = svt.ep_SvtPlay e));
      [done|].
    intros s' e z. destruct (svt.listed country e); set_solver.
Qed.

Lemma elem_of_idSet d x :
  x ∈ svt.idSet d <->
  x <> "" /\ (x = svt.pd_SvtID d \/ exists ac, ac ∈ svt.pd_AssociatedContent d /\ x ∈ ac).
Proof.
  unfold svt.idSet.
  rewrite (elem_of_foldl_step _ (fun ac x => x <> "" /\ x ∈ ac)).
  - destruct (String.eqb_spec (svt.pd_SvtID d) ""); set_solver.
  - intros s ac y.
    rewrite (elem_of_foldl_step _ (fun i x => x <> "" /\ x = i)); [set_solver|].
    intros s' i z. destruct (String.eqb_spec i ""); set_solver.
Qed.

(** X24. The catalogue of SVT: [extractURLs] succeeds only on an answer
    without GraphQL errors, and then returns, each once, the addresses
    [https://www.svtplay.se<path>] of the episodes that have a path and
    video references and that are not restricted to Sweden unless the
    configured country is SE. *)
Theorem svt_catalogue_urls (order : list nat) (country : string)
    (fetched : Err svt.graphQLURLResponse) (us : list string) :
  svt.extractURLs order country fetched = Ok us ->
  exists res,
    fetched = Ok res /\ svt.ur_Errors res = [] /\ NoDup us /\
    forall u, u ∈ us <->
      exists p e, p ∈ svt.ur_Data res /\ e ∈ p /\
        svt.ep_SvtPlay e <> "" /\ svt.ep_HasVideoReferences e = true /\
        (country = "SE" \/ svt.ep_OnlyAvailableInSweden e = false) /\
        u = ("https://www.svtplay.se" ++ svt.ep_SvtPlay e)%string.
Proof.
  unfold svt.extractURLs. destruct fetched as [res|]; [|done].
  destruct (svt.ur_Errors res) eqn:Herr; [|done]. intros [= <-].
  exists res. split; [done|]. split; [done|]. unfold svt.urls. split.
  - apply (NoDup_fmap_2 _).
    rewrite (schedule_Permutation order). apply NoDup_elements.
  - intros u. rewrite list_elem_of_fmap. split.
    + intros (path & -> & Hin). apply elem_of_schedule, elem_of_elements in Hin.
      apply elem_of_paths in Hin as (p & e & Hp & He & Hl & ->).
      exists p, e. unfold svt.listed in Hl.
      destruct (String.eqb_spec (svt.ep_SvtPlay e) ""); [done|].
      destruct (svt.ep_HasVideoReferences e); [|done].
      destruct (String.eqb_spec country "SE"); [naive_solver|].
      destruct (svt.ep_OnlyAvailableInSweden e); naive_solver.
    + intros (p & e & Hp & He & Hne & Hrefs & Hgeo & ->).
      exists (svt.ep_SvtPlay e). split; [done|].
      apply elem_of_schedule, elem_of_elements, elem_of_paths.
      exists p, e. split; [done|]. split; [done|]. split; [|done].
      unfold svt.listed. rewrite Hrefs.
      destruct (String.eqb_spec (svt.ep_SvtPlay e) ""); [done|].
      destruct Hgeo as [-> | ->]; [done|]. by rewrite andb_false_r.
Qed.

Lemma svt_catalogue_urls_witness :
  exists res,
    Ok svt_catalogue = Ok res /\ svt.ur_Errors res = [] /\
    NoDup ["https://www.svtplay.se/video/e1"] /\
    forall u, u ∈ ["https://www.svtplay.se/video/e1"] <->
      exists p e, p ∈ svt.ur_Data res /\ e ∈ p /\
        svt.ep_SvtPlay e <> "" /\ svt.ep_HasVideoReferences e = true /\
        ("NO" = "SE" \/ svt.ep_OnlyAvailableInSweden e = false) /\
        u = ("https://www.svtplay.se" ++ svt.ep_SvtPlay e)%string.
Proof.
  apply (svt_catalogue_urls [] "NO" (Ok svt_catalogue)). vm_compute. reflexivity.
Defined.

(** X25. The videos of an SVT page: when [extractPathIDs] succeeds the
    answer has no GraphQL errors and the IDs, of which there is at least
    one, are without repetition the non-empty IDs among the video of the
    page and the items of its associated content. *)
Theorem svt_path_ids (order : list nat) (fetched : Err svt.graphQLPathIDsResponse)
    (ids : list string) :
  svt.extractPathIDs order fetched = Ok ids ->
  exists res,
    fetched = Ok res /\ svt.pr_Errors res = [] /\ ids <> [] /\ NoDup ids /\
    forall id, id ∈ ids <->
      id <> "" /\
      (id = svt.pd_SvtID (svt.pr_Data res) \/
       exists ac, ac ∈ svt.pd_AssociatedContent (svt.pr_Data res) /\ id ∈ ac).
Proof.
  unfold svt.extractPathIDs. destruct fetched as [res|]; [|done].
  destruct (svt.pr_Errors res) eqn:Herr; [|done].
  destruct (Nat.eqb_spec (length (svt.pathIDs order (svt.pr_Data res))) 0) as [|Hlen];
    [done|].
  intros [= <-]. exists res. split; [done|]. split; [done|].
  split; [by intros Hnil; rewrite Hnil in Hlen|]. unfold svt.pathIDs. split.
  - rewrite (schedule_Permutation order). apply NoDup_elements.
  - intros id. by rewrite elem_of_schedule, elem_of_elements, elem_of_idSet.
Qed.

Lemma svt_path_ids_witness :
  exists res,
    Ok (svt.MkPathIDsResponse (svt.MkPathIDsData "e1" [["e1"; ""; "e2"]; ["e2"]]) [])
    = Ok res /\ svt.pr_Errors res = [] /\ ["e2"; "e1"] <> [] /\ NoDup ["e2"; "e1"] /\
    forall id, id ∈ ["e2"; "e1"] <->
      id <> "" /\
      (id = svt.pd_SvtID (svt.pr_Data res) \/
       exists ac, ac ∈ svt.pd_AssociatedContent (svt.pr_Data res) /\ id ∈ ac).
Proof.
  apply (svt_path_ids [1%nat]
           (Ok (svt.MkPathIDsResponse (svt.MkPathIDsData "e1" [["e1"; ""; "e2"]; ["e2"]]) []))).
  vm_compute. reflexivity.
Defined.

Lemma strings_Contains_cons c s sub :
  strings_Contains (String c s) sub = false ->
  strings_HasPrefix (String c s) sub = false /\ strings_Contains s sub = false.
Proof.
  cbn [strings_Contains]. by destruct (strings_HasPrefix (String c s) sub).
Qed.

Lemma akamai_replace_no_dot (p t : string) :
  strings_Contains p "." = false -> strings_HasPrefix t "." = false ->
  svt.akamai_replace 0 (p ++ t) = (p ++ svt.akamai_replace 0 t)%string.
Proof.
  intros Hp Ht. induction p as [|a p IH]; [done|].
  apply strings_Contains_cons in Hp as [Ha Hp].
  change (String a p ++ t)%string with (String a (p ++ t)%string).
  cbn [svt.akamai_replace].
  assert (Hnext : strings_HasPrefix (p ++ t) ".akamaized.net" = false).
  { destruct p as [|b p].
    - destruct t as [|d t]; [done|].
      change ("" ++ String d t)%string with (String d t).
      cbn -[Ascii.eqb] in Ht |- *. destruct (Ascii.eqb "." d); [by destruct t|done].
    - apply strings_Contains_cons in Hp as [Hb _].
      change (String b p ++ t)%string with (String b (p ++ t)%string).
      cbn -[Ascii.eqb] in Hb |- *. destruct (Ascii.eqb "." b); [by destruct p|done]. }
  rewrite Hnext, andb_false_r, (IH Hp). done.
Qed.

Lemma isLetter_not_dot c : svt.isLetter c = true -> Ascii.eqb "." c = false.
Proof. destruct c as [[] [] [] [] [] [] [] []]; cbn; done. Qed.

Lemma akamai_replace_skip (s t : string) :
  svt.akamai_replace (String.length s) (s ++ t) = svt.akamai_replace 0 t.
Proof. induction s as [|c s IH]; [done|exact IH]. Qed.

Lemma strings_Replace1_first_occurrence (p old new t : string) c old' :
  old = String c old' ->
  strings_Contains p (String c "") = false ->
  strings_Replace1 (p ++ old ++ t) old new = (p ++ new ++ t)%string.
Proof.
  intros -> Hp. induction p as [|a p IH].
  - change ("" ++ String c old' ++ t)%string with (String c old' ++ t)%string.
    assert (Hdrop : forall s, str_drop (String.length s) (s ++ t) = t).
    { induction s as [|d s IHs]; [by destruct t|exact IHs]. }
    change (String c old' ++ t)%string with (String c (old' ++ t)%string).
    cbn [strings_Replace1].
    change (String c (old' ++ t)%string) with (String c old' ++ t)%string.
    by rewrite strings_HasPrefix_app, Hdrop.
  - apply strings_Contains_cons in Hp as [Ha Hp].
    change (String a p ++ String c old' ++ t)%string
      with (String a (p ++ String c old' ++ t)%string).
    cbn -[Ascii.eqb] in Ha |- *. destruct (Ascii.eqb c a); [by destruct p|].
    by rewrite (IH Hp).
Qed.

(** X26. A reference of SVT on an Akamai host: when the first dot of the
    address is that of a host label ending in a letter followed by
    [.akamaized.net], [references] and the server substitution of the
    extractor (which it applies to http and https references) together
    replace that letter by one of the servers a, b and c; what precedes
    it is kept and later hosts of the same form keep the placeholder. *)
Theorem svt_reference_server (w : World) (pos : list nat)
    (videoReferences : list svt.videoReference) (ref : svt.videoReference)
    (p rest : string) (c : ascii) :
  ref ∈ videoReferences ->
  strings_HasPrefix (svt.vref_Format ref) "dash" = true \/
  strings_HasPrefix (svt.vref_Format ref) "hls" = true ->
  svt.vref_URL ref = (p ++ String c (".akamaized.net" ++ rest))%string ->
  svt.isLetter c = true ->
  strings_Contains p "." = false -> strings_Contains p "$" = false ->
  exists r server,
    r ∈ svt.references videoReferences /\ ref_ID r = svt.vref_Format ref /\
    server ∈ ["a"; "b"; "c"] /\
    substServer w pos (ref_URL r) (ref_Servers r)
    = (p ++ server ++ ".akamaized.net" ++ svt.akamaiRe_ReplaceAllString rest)%string.
Proof.
  intros Hin Hformat Hurl Hc Hdot Hdollar.
  set (server := nth (Z.to_nat (rand_Intn w pos 3)) svt.servers "").
  assert (Hserver : server ∈ ["a"; "b"; "c"]).
  { unfold server, rand_Intn. pose proof (Z.mod_pos_bound (w_rand w pos) 3 ltac:(lia)).
    destruct (Z.to_nat (w_rand w pos `mod` 3)) as [|[|[|n]]] eqn:Hn; [set_solver..|lia]. }
  assert (Hreplaced : svt.akamaiRe_ReplaceAllString (svt.vref_URL ref)
    = (p ++ "$Server$" ++ ".akamaized.net" ++ svt.akamaiRe_ReplaceAllString rest)%string).
  { rewrite Hurl. unfold svt.akamaiRe_ReplaceAllString.
    rewrite akamai_replace_no_dot;
      [|done|by cbn -[Ascii.eqb]; rewrite (isLetter_not_dot _ Hc)].
    f_equal. cbn [svt.akamai_replace]. rewrite Hc, strings_HasPrefix_app. cbn [andb].
    change 14%nat with (String.length ".akamaized.net").
    by rewrite akamai_replace_skip. }
  assert (Hsubst : substServer w pos (svt.akamaiRe_ReplaceAllString (svt.vref_URL ref))
                     svt.servers
    = (p ++ server ++ ".akamaized.net" ++ svt.akamaiRe_ReplaceAllString rest)%string).
  { rewrite Hreplaced. unfold substServer, svt.servers.
    by apply (strings_Replace1_first_occurrence _ _ _ _ "$" "Server$"). }
  destruct (strings_HasPrefix (svt.vref_Format ref) "dash") eqn:Hdash.
  - exists (MkReference (svt.vref_Format ref) "dash"
              (svt.akamaiRe_ReplaceAllString (svt.vref_URL ref)) svt.servers), server.
    split; [|done]. apply list_elem_of_fmap. exists ref. by rewrite Hdash.
  - destruct Hformat as [?|Hhls]; [done|].
    exists (MkReference (svt.vref_Format ref) "hls"
              (svt.akamaiRe_ReplaceAllString (svt.vref_URL ref)) svt.servers), server.
    split; [|done]. apply list_elem_of_fmap. exists ref. by rewrite Hdash, Hhls.
Qed.

Lemma svt_reference_server_witness :
  exists r server,
    r ∈ svt.references [svt_dash_reference] /\
    ref_ID r = svt.vref_Format svt_dash_reference /\
    server ∈ ["a"; "b"; "c"] /\
    substServer emptyWorld [] (ref_URL r) (ref_Servers r)
    = ("https://svt-vod-10" ++ server ++ ".akamaized.net"
         ++ svt.akamaiRe_ReplaceAllString "/d0/world/manifest.mpd")%string.
Proof.
  apply (svt_reference_server emptyWorld [] [svt_dash_reference] svt_dash_reference
           "https://svt-vod-10" "/d0/world/manifest.mpd" "a");
    [apply list_elem_of_here | by left | done..].
Defined.

Section SvtExtract.
Context `{UrlLib}.

(** X27. A video of SVT with a reference in another format than DASH and
    HLS: [references] leaves an empty reference in its place, which the
    format [both] hands to the default extractor, so that the video is
    recorded as failed at the extraction of the variants. *)
Theorem svt_other_format_fails_both (w : World) (m : Manager) (url : string) (j : nat)
    (r : VideoResult) (videoReferences : list svt.videoReference)
    (ref : svt.videoReference) :
  m_variantExtractors m !! "svt" = Some (ExtractVariants w) ->
  vr_Err r = None -> vr_References r = svt.references videoReferences ->
  ref ∈ videoReferences ->
  strings_HasPrefix (svt.vref_Format ref) "dash" = false ->
  strings_HasPrefix (svt.vref_Format ref) "hls" = false ->
  exists e, video_task w m "svt" url "both" (j, r) = Fail (EWrap "extract variants" e).
Proof.
  intros Hve Herr Hrefs Hin Hdash Hhls. unfold video_task. rewrite Herr.
  assert (Hzero : MkReference "" "" "" [] ∈ vr_References r).
  { rewrite Hrefs. apply list_elem_of_fmap. exists ref. by rewrite Hdash, Hhls. }
  apply list_elem_of_lookup in Hzero as [k Hk].
  match goal with
  | |- context [first_error ?l] => destruct (first_error l) as [e|] eqn:Hfirst
  end; [by exists e|].
  exfalso.
  match type of Hfirst with
  | first_error ?l = None =>
      assert (Hfail : Manager_extractVariants m [j; O; k] "svt" (MkReference "" "" "" []) ∈ l)
  end.
  { apply list_elem_of_fmap. exists (k, MkReference "" "" "" []). split; [done|].
    apply elem_of_schedule, list_elem_of_filter. split; [done|].
    by apply elem_of_indexed. }
  apply (first_error_None _ _ Hfirst) in Hfail as [vs Hvs].
  unfold Manager_extractVariants in Hvs. rewrite Hve in Hvs. done.
Qed.

End SvtExtract.

Lemma svt_other_format_fails_both_witness :
  exists e,
    video_task emptyWorld svt_manager "svt" "https://www.svtplay.se/video/e1"
      "both" (O, svt_mixed_result)
    = Fail (EWrap "extract variants" e).
Proof.
  apply (@svt_other_format_fails_both simpleUrl emptyWorld svt_manager
           "https://www.svtplay.se/video/e1" O svt_mixed_result
           [svt_dash_reference;
            svt.MkVideoReference "https://svt-vod-10a.akamaized.net/d0/world/text.vtt" "webvtt"]
           (svt.MkVideoReference "https://svt-vod-10a.akamaized.net/d0/world/text.vtt" "webvtt"));
    [done | done | done | by apply list_elem_of_further, list_elem_of_here | done | done].
Defined.

(** ** justwatch.go *)

Lemma pages_spec (fetch : nat -> string -> string -> Err justwatch.response)
    (country0 : string) (n : nat) :
  forall i urls cursor country out requests,
    country = country0 \/ country = "US" ->
    justwatch.pages fetch n i urls cursor country = (out, requests) ->
    (length requests <= n)%nat /\
    forall us, out = Ok us ->
      exists ps,
        us = urls ++ concat (map justwatch.urls ps) /\
        paged fetch country0 cursor ps /\ (length ps <= length requests)%nat.
Proof.
  induction n as [|n IH]; intros i urls cursor country out requests Hc;
    cbn [justwatch.pages].
  { intros [= <- <-]. split; [done|]. by intros us [=]. }
  destruct (fetch i country cursor) as [res|e] eqn:Hfetch;
    [|intros [= <- <-]; split; [cbn; lia|by intros us [=]]].
  destruct (justwatch.r_Errors res) as [|e errors] eqn:Herrors.
  - destruct (Z.gtb_spec (justwatch.r_TotalCount res) justwatch.maxReturned) as [|Hcount];
      [intros [= <- <-]; split; [cbn; lia|by intros us [=]]|].
    destruct (justwatch.r_HasNextPage res) eqn:Hnext; cbn [negb].
    + destruct (justwatch.pages fetch n (S i) (urls ++ justwatch.urls res)
                  (justwatch.r_EndCursor res) country) as [out' requests'] eqn:Hrest.
      intros [= <- <-]. destruct (IH _ _ _ _ _ _ Hc Hrest) as [Hlen Hout].
      split; [cbn; lia|]. intros us Hus.
      destruct (Hout us Hus) as (ps & -> & Hps & Hlen').
      exists (res :: ps). split; [by rewrite <- app_assoc|]. split; [|cbn; lia].
      cbn [paged]. split; [by exists i, country|]. split; [done|]. split; [done|].
      destruct ps; [done|]. done.
    + intros [= <- <-]. split; [cbn; lia|]. intros us [= <-].
      exists [res]. split; [by cbn; rewrite app_nil_r|]. split; [|done].
      cbn [paged]. split; [by exists i, country|]. done.
  - destruct (strings_Contains (justwatch.e_Message e) "locale");
      [|intros [= <- <-]; split; [cbn; lia|by intros us [=]]].
    destruct (justwatch.pages fetch n (S i) urls cursor "US") as [out' requests'] eqn:Hrest.
    intros [= <- <-]. destruct (IH _ _ _ _ _ _ (or_intror eq_refl) Hrest) as [Hlen Hout].
    split; [cbn; lia|]. intros us Hus.
    destruct (Hout us Hus) as (ps & -> & Hps & Hlen').
    exists ps. split; [done|]. split; [done|]. cbn. lia.
Qed.

(** X28. The pages of one JustWatch filter: [extractURLs] makes at most
    20 requests, and when it succeeds the addresses are, in order, the
    non-empty ones of pages that follow each other from the empty cursor
    up to a page without next page, none of which reports errors or more
    than 1900 titles. *)
Theorem justwatch_pages_complete
    (fetch : nat -> string -> string -> Err justwatch.response) (country : string) :
  (length (justwatch.extractURLs fetch country).2 <= 20)%nat /\
  forall us, (justwatch.extractURLs fetch country).1 = Ok us ->
    exists ps,
      us = concat (map justwatch.urls ps) /\ paged fetch country "" ps /\
      (length ps <= length (justwatch.extractURLs fetch country).2)%nat.
Proof.
  unfold justwatch.extractURLs.
  destruct (justwatch.pages fetch (Z.to_nat (justwatch.maxIterations + 1)) 0 [] "" country)
    as [out requests] eqn:Hpages.
  destruct (pages_spec fetch country _ _ _ _ _ _ _ (or_introl eq_refl) Hpages) as [Hlen Hout].
  split; [exact Hlen|]. intros us Hus. destruct (Hout us Hus) as (ps & -> & Hps & Hlen').
  by exists ps.
Qed.

Lemma elem_of_concat {A} (x : A) (ls : list (list A)) :
  x ∈ concat ls <-> exists l, x ∈ l /\ l ∈ ls.
Proof.
  induction ls as [|l ls IH]; cbn [concat].
  - split; [by intros ?%elem_of_nil|]. intros (l & _ & Hl). by apply elem_of_nil in Hl.
  - rewrite elem_of_app, IH. split.
    + intros [?|(l' & ? & ?)]; [exists l|exists l']; (split; [done|]);
        [apply list_elem_of_here|by apply list_elem_of_further].
    + intros (l' & ? & [->|?]%elem_of_cons); [by left|]. right. by exists l'.
Qed.

Lemma elem_of_filters year f :
  f ∈ justwatch.filters year <->
  exists y, 1950 <= y <= year /\ f = (if y =? 1950 then 1900 else y, y).
Proof.
  unfold justwatch.filters. rewrite list_elem_of_fmap. split.
  - intros (y & -> & Hy). apply elem_of_seqZ in Hy. exists y. split; [lia|done].
  - intros (y & Hy & ->). exists y. split; [done|]. apply elem_of_seqZ. lia.
Qed.

(** X29. The catalogue of JustWatch: the filters of [ExtractURLs] are
    distinct and every release year from 1900 to the current year (1950
    or later) lies in the range of exactly one of them.  [ExtractURLs]
    succeeds only when the extraction succeeds for every filter, and then
    returns, each once, the addresses found for some filter. *)
Theorem justwatch_years_union
    (fetch : Z * Z -> nat -> string -> string -> Err justwatch.response)
    (year : Z) (country : string) (done order : list nat) :
  NoDup (justwatch.filters year) /\
  (forall y, 1950 <= year -> 1900 <= y <= year ->
     exists f, f ∈ justwatch.filters year /\ f.1 <= y <= f.2 /\
       forall f', f' ∈ justwatch.filters year -> f'.1 <= y <= f'.2 -> f' = f) /\
  forall us, justwatch.ExtractURLs fetch year country done order = Ok us ->
    NoDup us /\
    (forall f, f ∈ justwatch.filters year ->
       is_Ok (justwatch.extractURLs (fetch f) country).1) /\
    forall u, u ∈ us <->
      exists f us', f ∈ justwatch.filters year /\
        (justwatch.extractURLs (fetch f) country).1 = Ok us' /\ u ∈ us'.
Proof.
  split; [|split].
  - unfold justwatch.filters. apply NoDup_fmap_2; [|apply NoDup_seqZ].
    intros y y' [= _ ?]. done.
  - intros y Hyear Hy.
    exists (if y <=? 1950 then (1900, 1950) else (y, y)). split; [|split].
    + apply elem_of_filters. destruct (Z.leb_spec y 1950).
      * exists 1950. split; [lia|done].
      * exists y. split; [lia|]. by destruct (Z.eqb_spec y 1950); [lia|].
    + destruct (Z.leb_spec y 1950); cbn; lia.
    + intros f' Hin Hcover. apply elem_of_filters in Hin as (y' & Hy' & ->).
      destruct (Z.eqb_spec y' 1950) as [->|]; cbn in Hcover;
        destruct (Z.leb_spec y 1950); try lia; [done|].
      f_equal; lia.
  - intros us. unfold justwatch.ExtractURLs.
    set (results := map _ _).
    destruct (first_error results) as [e|] eqn:Hfirst; [done|]. intros [= <-].
    assert (Hresult : forall f, f ∈ justwatch.filters year ->
              (justwatch.extractURLs (fetch f) country).1 ∈ results).
    { intros f Hf. apply list_elem_of_fmap. exists f. split; [done|].
      by apply elem_of_schedule. }
    split; [|split].
    + rewrite (schedule_Permutation order). apply NoDup_elements.
    + intros f Hf. apply (first_error_None _ _ Hfirst), Hresult, Hf.
    + intros u. rewrite elem_of_schedule, elem_of_elements, elem_of_list_to_set.
      rewrite elem_of_concat. split.
      * intros (us' & Hu & Hus'). apply elem_of_successes in Hus'.
        apply list_elem_of_fmap in Hus' as (f & Hf & Hin).
        apply elem_of_schedule in Hin. by exists f, us'.
      * intros (f & us' & Hf & Hus' & Hu). exists us'. split; [done|].
        apply elem_of_successes. rewrite <- Hus'. by apply Hresult.
Qed.
